(** * Channel matching, scoring and attribution of the RWA platform

    A shallow embedding of the Go channel service
    (services/channel-service): the MatchingService, which scores the
    channels eligible for a request, filters, sorts and truncates them, and
    the AttributionService, which keeps a per-user touchpoint path and the
    per-channel daily statistics.

    Conventions of the embedding.
    - In the services a Go [float64] is an exact rational [Q]: rounding
      is not modelled there.  A float64 division is [fdiv], which has no
      value when the divisor is zero (Go yields an infinity or a NaN
      there); a run that reaches such a division ends in
      [Abort FloatDivByZero].  What depends on rounding is stated of
      [calculateFeeScore_float64], the fee sub-score on IEEE 754 binary64
      numbers.
    - Go's [int] and [int64] are [Z]; where the code multiplies or adds
      them the result wraps around ([wrap64]), as in the duration of a
      redirect and in the pagination.  A slice expression out of range
      ends the run in [Abort SliceBoundsOutOfRange] (a Go runtime
      panic).
    - Redis is a finite map from keys to values; the JSON documents the
      service stores are kept as the values they encode.  Key expiry is
      not modelled: every statement is about what happens before a TTL
      runs out.
    - [sort.Slice] and [uuid.New] belong to libraries; they are parameters
      of the model, [sort.Slice] with the contract of its documentation.
      So are [strconv.Atoi], [json.Unmarshal], the rows GORM selects for an
      offset and a limit, and the text of the database's duplicate-key
      error, where the handlers and the tracking functions use them.
      The contract of [sort.Slice] says nothing of elements with equal
      keys; what the service does with them is stated of [Go_sort_Slice],
      the algorithm of the Go library.
    - The channel table is the list of its rows; which rows a query
      selects is the database's part, and [eligible] and
      [channel_matches] stand for the WHERE clauses the code builds.
    - The tracking functions, the attribution route and the queue worker
      run on [System]: the world above together with the two event tables,
      the Redis keys that hold hashes and the messages handed to the Kafka
      producer.  A database that fails is a channel table that is an
      error. *)

From Stdlib Require Import QArith Lqa Sorted Permutation Floats.
From stdpp Require Import gmap strings list sorting pretty.

(** ** Runs *)

Inductive abort : Type :=
| FloatDivByZero
| SliceBoundsOutOfRange.

Inductive run (A : Type) : Type :=
| Ret (a : A)
| Abort (e : abort).
Arguments Ret {A} a.
Arguments Abort {A} e.

Definition run_bind {A B : Type} (m : run A) (k : A -> run B) : run B :=
  match m with
  | Ret a => k a
  | Abort e => Abort e
  end.

(** float64 division. *)
Definition fdiv (x y : Q) : run Q :=
  if Qeq_bool y 0 then Abort FloatDivByZero else Ret (x / y)%Q.

(** [x > y] and [x >= y] on float64. *)
Definition Qgtb (x y : Q) : bool := negb (Qle_bool x y).
Definition Qgeb (x y : Q) : bool := Qle_bool y x.

(** Go's [(value, error)] results. *)
Inductive result (A : Type) : Type :=
| Ok (a : A)
| Err (msg : string).
Arguments Ok {A} a.
Arguments Err {A} msg.

(** [math.Max] on finite values. *)
Definition math_Max (x y : Q) : Q := if Qle_bool x y then y else x.

(** ** package models *)

Record ChannelCompliance : Type := {
  SupportedRegions : list string;
  KYCRequired : bool;
  MinimumNetWorth : Q
}.

Record ChannelAsset : Type := {
  AssetID_ : string
}.

Record TradingFees : Type := {
  Maker : Q;
  Taker : Q;
  Flat : Q
}.

Record WithdrawalFees : Type := {
  Crypto : Q;
  Fiat : Q;
  Wire : Q
}.

Record ChannelFees : Type := {
  Trading : TradingFees;
  Withdrawal : WithdrawalFees
}.

Record PaymentMethod : Type := {
  Method : string
}.

Record ChannelSupport : Type := {
  Phone : string;
  Chat : bool;
  ResponseTime : string
}.

Record ChannelAPI : Type := {
  HasTradingAPI : bool
}.

Record Insurance : Type := {
  Coverage : Q
}.

Record CustodyInfo : Type := {
  Segregation : bool
}.

Record Audit : Type := {
  Auditor : string
}.

(** [Insurance_] is the pointer field [Insurance *Insurance]. *)
Record ChannelSecurity : Type := {
  Insurance_ : option Insurance;
  Custody : CustodyInfo;
  Audits : list Audit
}.

(** [Type_] is the field [Type]; [API] is the pointer field [*ChannelAPI]. *)
Record Channel : Type := {
  ID : string;
  Type_ : string;
  Status : string;
  IsActive : bool;
  Website : string;
  Compliance : ChannelCompliance;
  SupportedAssets : list ChannelAsset;
  Fees : ChannelFees;
  PaymentMethods : list PaymentMethod;
  Support : ChannelSupport;
  API : option ChannelAPI;
  Security : ChannelSecurity
}.

(** ** package config *)

Record Config : Type := {
  MaxMatchingResults : Z;
  MinMatchingScore : Q;
  RedirectExpiration : Z;
  AttributionWindow : Z
}.

(** The values [setDefaults] registers for the options above. *)
Definition setDefaults : Config := {|
  MaxMatchingResults := 10;
  MinMatchingScore := 0.6;
  RedirectExpiration := 3600;
  AttributionWindow := 86400
|}.

(** ** package services: the types of the matching service *)

Record MatchingRequest : Type := {
  AssetID : string;
  Amount : Q;
  UserRegion : string;
  KYCLevel : string;
  PaymentMethod_ : string;
  UserID : string
}.

Record FeeEstimate : Type := {
  TradingFee : Q;
  WithdrawalFee : Q;
  TotalFee : Q;
  Currency : string
}.

Record ChannelAvailability : Type := {
  Available : bool;
  Reasons : list string
}.

(** The [Parameters] map of a redirect, field by field. *)
Record RedirectParameters : Type := {
  param_asset_id : string;
  param_amount : Q;
  param_redirect_id : string;
  param_user_id : string;
  param_timestamp : Z
}.

Record RedirectInfo : Type := {
  URL : string;
  Method_ : string;
  Parameters : RedirectParameters;
  ExpiresAt : Z
}.

Record ProcessingTime : Type := {
  KYC : string;
  Deposit : string;
  Trade : string;
  Withdrawal_ : string
}.

Record MatchingResult : Type := {
  ChannelID : string;
  Channel_ : Channel;
  MatchScore : Q;
  EstimatedFees : FeeEstimate;
  Availability : ChannelAvailability;
  RedirectInfo_ : RedirectInfo;
  ProcessingTime_ : ProcessingTime
}.

(** ** Redis *)

(** What a key holds: a JSON list of channels (the eligibility cache), the
    JSON document of a redirect, a counter, a float, or a Redis list. *)
Record RedirectRecord : Type := {
  redirect_info : RedirectInfo;
  request : MatchingRequest;
  created_at : Z
}.

Inductive RedisValue : Type :=
| RChannels (cs : list Channel)
| RRedirect (r : RedirectRecord)
| RInt (n : Z)
| RFloat (x : Q)
| RList (l : list string).

(** The part of the world the services act on: Redis, the channel table
    (or the error its query fails with), the clock (Unix seconds, which
    stands still during a call) and the number of identifiers [uuid.New]
    has handed out. *)
Record World : Type := {
  redis : gmap string RedisValue;
  db : result (list Channel);
  clock : Z;
  uuids : nat
}.

Definition set_redis (f : gmap string RedisValue -> gmap string RedisValue)
    (w : World) : World :=
  {| redis := f (redis w); db := db w; clock := clock w; uuids := uuids w |}.

Definition St (A : Type) : Type := World -> run (A * World).

Definition st_ret {A : Type} (a : A) : St A := fun w => Ret (a, w).

Definition st_bind {A B : Type} (m : St A) (k : A -> St B) : St B :=
  fun w =>
    match m w with
    | Ret (a, w') => k a w'
    | Abort e => Abort e
    end.

Definition lift {A : Type} (m : run A) : St A :=
  fun w => run_bind m (fun a => Ret (a, w)).

Notation "'let*' x ':=' m 'in' k" := (st_bind m (fun x => k))
  (at level 10, x name, m at level 100, k at level 200).

(** [s[:hi]] on a slice whose capacity is its length. *)
Definition slice_to {A : Type} (s : list A) (hi : Z) : run (list A) :=
  if ((hi <? 0) || (Z.of_nat (length s) <? hi))%Z
  then Abort SliceBoundsOutOfRange
  else Ret (take (Z.to_nat hi) s).

(** [redis.Get]: the value under a key, if any. *)
Definition redis_Get (key : string) : St (option RedisValue) :=
  fun w => Ret (redis w !! key, w).

(** [redis.Set]: overwrite the key. *)
Definition redis_Set (key : string) (v : RedisValue) : St unit :=
  fun w => Ret (tt, set_redis (insert key v) w).

(** [time.Now().Unix()]. *)
Definition time_Now : St Z := fun w => Ret (clock w, w).

(** Go's [int] and [int64] on the 64-bit platforms the service is built
    for: the result of an operation wraps around. *)
Definition wrap64 (z : Z) : Z := ((z + 2 ^ 63) mod 2 ^ 64 - 2 ^ 63)%Z.

(** [time.Duration(seconds) * time.Second]: a number of nanoseconds in
    [int64], so the product wraps around from 9223372037 seconds on. *)
Definition time_Seconds (seconds : Z) : Z :=
  wrap64 (wrap64 seconds * 1000000000).

(** [t.Add(d).Unix()] for a time [t] on a whole second, as the clock of
    the model counts them, and [d] nanoseconds. *)
Definition time_Add (t d : Z) : Z := (t + d / 1000000000)%Z.

(** ** The match scorer *)

Local Open Scope Q_scope.

(** The five weights of [calculateChannelMatch]. *)
Definition weight_fee : Q := 0.3.
Definition weight_availability : Q := 0.25.
Definition weight_ux : Q := 0.2.
Definition weight_security : Q := 0.15.
Definition weight_liquidity : Q := 0.1.

Definition calculateFeeScore (channel : Channel) (amount : Q) : run Q :=
  let tradingFee := amount * Taker (Trading (Fees channel)) in
  let withdrawalFee := Crypto (Withdrawal (Fees channel)) in
  let totalFee := tradingFee + withdrawalFee in
  let maxFee := amount * 0.01 in
  let minFee := amount * 0.0001 in
  if Qle_bool totalFee minFee then Ret 1
  else if Qgeb totalFee maxFee then Ret 0
  else run_bind (fdiv (totalFee - minFee) (maxFee - minFee))
         (fun d => Ret (1 - d)).

(** The loop over [channel.PaymentMethods] of both availability functions. *)
Definition supportedPayment (channel : Channel) (request : MatchingRequest)
    : bool :=
  existsb (fun method => String.eqb (Method method) (PaymentMethod_ request))
    (PaymentMethods channel).

Definition calculateAvailabilityScore (channel : Channel)
    (request : MatchingRequest) : Q :=
  let score := 1 in
  let score :=
    if KYCRequired (Compliance channel) && String.eqb (KYCLevel request) ""
    then score - 0.3 else score in
  let score :=
    if Qgtb (MinimumNetWorth (Compliance channel)) 0
    then score - 0.1 else score in
  let score :=
    if negb (supportedPayment channel request)
    then score - 0.4 else score in
  math_Max 0 score.

Definition hasTradingAPI (channel : Channel) : bool :=
  match API channel with
  | Some api => HasTradingAPI api
  | None => false
  end.

Definition calculateUXScore (channel : Channel) (request : MatchingRequest)
    : Q :=
  let score := 0 in
  let score := if hasTradingAPI channel then score + 0.3 else score in
  let score := if Chat (Support channel) then score + 0.2 else score in
  let score :=
    if negb (String.eqb (Phone (Support channel)) "")
    then score + 0.2 else score in
  if String.eqb (ResponseTime (Support channel)) "instant" then score + 0.3
  else if String.eqb (ResponseTime (Support channel)) "1hour" then score + 0.2
  else score + 0.1.

Definition calculateSecurityScore (channel : Channel) : Q :=
  let score := 0 in
  let score :=
    match Insurance_ (Security channel) with
    | Some insurance =>
        if Qgtb (Coverage insurance) 0 then score + 0.4 else score
    | None => score
    end in
  let score :=
    if Segregation (Custody (Security channel)) then score + 0.3 else score in
  if (0 <? length (Audits (Security channel)))%nat then score + 0.3
  else score.

Definition calculateLiquidityScore (channel : Channel) (assetID : string)
    (amount : Q) : Q :=
  if String.eqb (Type_ channel) "exchange" then 0.9
  else if String.eqb (Type_ channel) "broker" then 0.7
  else if String.eqb (Type_ channel) "dex" then 0.6
  else 0.5.

Definition calculateFeeEstimate (channel : Channel) (amount : Q)
    : FeeEstimate :=
  let tradingFee := amount * Taker (Trading (Fees channel)) in
  let withdrawalFee := Crypto (Withdrawal (Fees channel)) in
  {| TradingFee := tradingFee;
     WithdrawalFee := withdrawalFee;
     TotalFee := tradingFee + withdrawalFee;
     Currency := "USD" |}.

Definition checkChannelAvailability (channel : Channel)
    (request : MatchingRequest) : ChannelAvailability :=
  let availability := {| Available := true; Reasons := [] |} in
  let availability :=
    if KYCRequired (Compliance channel) && String.eqb (KYCLevel request) ""
    then {| Available := false;
            Reasons := Reasons availability ++ ["KYC verification required"] |}
    else availability in
  if negb (supportedPayment channel request)
  then {| Available := false;
          Reasons := Reasons availability ++ ["Payment method not supported"] |}
  else availability.

Definition estimateProcessingTime (channel : Channel)
    (request : MatchingRequest) : ProcessingTime :=
  if KYCRequired (Compliance channel)
  then {| KYC := "1-3 days"; Deposit := "1-2 hours";
          Trade := "instant"; Withdrawal_ := "1-24 hours" |}
  else {| KYC := "not required"; Deposit := "instant";
          Trade := "instant"; Withdrawal_ := "1-24 hours" |}.

Local Close Scope Q_scope.

(** ** The matching service *)

Section MatchingService.

(** [s.config]. *)
Variable config : Config.

(** [uuid.New().String()]: the text of the n-th identifier drawn. *)
Variable uuid_New : nat -> string.

(** [sort.Slice], on the elements instead of their indices. *)
Variable sort_Slice : forall A : Type, (A -> A -> bool) -> list A -> list A.

Definition uuid_New_String : St string :=
  fun w =>
    Ret (uuid_New (uuids w),
         {| redis := redis w; db := db w; clock := clock w;
            uuids := S (uuids w) |}).

Definition cacheRedirectInfo (redirectID : string)
    (redirectInfo : RedirectInfo) (request : MatchingRequest) : St unit :=
  let cacheKey := "redirect:" +:+ redirectID in
  let* now := time_Now in
  let data := {| redirect_info := redirectInfo;
                 request := request;
                 created_at := now |} in
  redis_Set cacheKey (RRedirect data).

Definition generateRedirectInfo (channel : Channel)
    (request : MatchingRequest) : St RedirectInfo :=
  let* redirectID := uuid_New_String in
  let baseURL := Website channel in
  let baseURL :=
    if hasTradingAPI channel then baseURL +:+ "/api/redirect"
    else baseURL in
  let* now := time_Now in
  let params := {| param_asset_id := AssetID request;
                   param_amount := Amount request;
                   param_redirect_id := redirectID;
                   param_user_id := UserID request;
                   param_timestamp := now |} in
  let* now' := time_Now in
  let redirectInfo :=
    {| URL := baseURL +:+ "?redirect_id=" +:+ redirectID;
       Method_ := "GET";
       Parameters := params;
       ExpiresAt :=
         time_Add now' (time_Seconds (RedirectExpiration config)) |} in
  let* _ := cacheRedirectInfo redirectID redirectInfo request in
  st_ret redirectInfo.

Definition calculateChannelMatch (channel : Channel)
    (request : MatchingRequest) : St MatchingResult :=
  let score := 0%Q in
  let maxScore := 0%Q in
  let* feeScore := lift (calculateFeeScore channel (Amount request)) in
  let score := (score + feeScore * weight_fee)%Q in
  let maxScore := (maxScore + weight_fee)%Q in
  let availabilityScore := calculateAvailabilityScore channel request in
  let score := (score + availabilityScore * weight_availability)%Q in
  let maxScore := (maxScore + weight_availability)%Q in
  let uxScore := calculateUXScore channel request in
  let score := (score + uxScore * weight_ux)%Q in
  let maxScore := (maxScore + weight_ux)%Q in
  let securityScore := calculateSecurityScore channel in
  let score := (score + securityScore * weight_security)%Q in
  let maxScore := (maxScore + weight_security)%Q in
  let liquidityScore :=
    calculateLiquidityScore channel (AssetID request) (Amount request) in
  let score := (score + liquidityScore * weight_liquidity)%Q in
  let maxScore := (maxScore + weight_liquidity)%Q in
  let* matchScore := lift (fdiv score maxScore) in
  let estimatedFees := calculateFeeEstimate channel (Amount request) in
  let availability := checkChannelAvailability channel request in
  let* redirectInfo := generateRedirectInfo channel request in
  let processingTime := estimateProcessingTime channel request in
  st_ret {| ChannelID := ID channel;
            Channel_ := channel;
            MatchScore := matchScore;
            EstimatedFees := estimatedFees;
            Availability := availability;
            RedirectInfo_ := redirectInfo;
            ProcessingTime_ := processingTime |}.

(** The WHERE clauses of the channel query, read as conditions on a row:
    status "active" and is_active, a supported asset with the asset
    identifier, the region among the supported regions.  The code hands
    them to the database as text ([fmt.Sprintf] puts the asset identifier
    and the region into JSON documents for the containment operator);
    how the database evaluates that text is not part of the model. *)
Definition eligible (assetID userRegion : string) (channel : Channel)
    : bool :=
  String.eqb (Status channel) "active"
  && Bool.eqb (IsActive channel) true
  && existsb (fun a => String.eqb (AssetID_ a) assetID)
       (SupportedAssets channel)
  && existsb (String.eqb userRegion)
       (SupportedRegions (Compliance channel)).

(** Only a cached JSON list of channels unmarshals into the slice. *)
Definition getEligibleChannels (assetID userRegion : string)
    : St (result (list Channel)) :=
  let cacheKey :=
    "eligible_channels:" +:+ assetID +:+ ":" +:+ userRegion in
  let* cached := redis_Get cacheKey in
  match cached with
  | Some (RChannels channels) => st_ret (Ok channels)
  | _ =>
      fun w =>
        match db w with
        | Err err => Ret (Err err, w)
        | Ok table =>
            let channels := List.filter (eligible assetID userRegion)
                              table in
            (let* _ := redis_Set cacheKey (RChannels channels) in
             st_ret (Ok channels)) w
        end
  end.

(** The test of the loop, [result.MatchScore >= MinMatchingScore]. *)
Definition passes (result : MatchingResult) : bool :=
  Qgeb (MatchScore result) (MinMatchingScore config).

(** The scoring loop of [MatchChannels]; [results] is the slice so far. *)
Fixpoint scoreChannels (channels : list Channel)
    (request : MatchingRequest) (results : list MatchingResult)
    : St (list MatchingResult) :=
  match channels with
  | [] => st_ret results
  | channel :: channels' =>
      let* result := calculateChannelMatch channel request in
      let results :=
        if passes result then results ++ [result] else results in
      scoreChannels channels' request results
  end.

(** Every candidate of the loop with its score, none dropped: the
    results [scoreChannels] chooses from. *)
Fixpoint scoreAll (channels : list Channel) (request : MatchingRequest)
    : St (list MatchingResult) :=
  match channels with
  | [] => st_ret []
  | channel :: channels' =>
      let* result := calculateChannelMatch channel request in
      let* results := scoreAll channels' request in
      st_ret (result :: results)
  end.

(** The [less] function handed to [sort.Slice]. *)
Definition byMatchScore (ri rj : MatchingResult) : bool :=
  Qgtb (MatchScore ri) (MatchScore rj).

Definition MatchChannels (request : MatchingRequest)
    : St (result (list MatchingResult)) :=
  let* got :=
    getEligibleChannels (AssetID request) (UserRegion request) in
  match got with
  | Err err => st_ret (Err ("failed to get eligible channels: " +:+ err))
  | Ok channels =>
      if (length channels =? 0)%nat
      then st_ret (Err ("no eligible channels found for asset "
                        +:+ AssetID request +:+ " in region "
                        +:+ UserRegion request))
      else
        let* results := scoreChannels channels request [] in
        let results := sort_Slice _ byMatchScore results in
        if (MaxMatchingResults config <? Z.of_nat (length results))%Z
        then
          let* results :=
            lift (slice_to results (MaxMatchingResults config)) in
          st_ret (Ok results)
        else st_ret (Ok results)
  end.

Definition GetRedirectInfo (redirectID : string)
    : St (result RedirectRecord) :=
  let cacheKey := "redirect:" +:+ redirectID in
  let* data := redis_Get cacheKey in
  match data with
  | None | Some (RList _) => st_ret (Err "redirect not found or expired")
  | Some (RRedirect r) => st_ret (Ok r)
  | Some _ => st_ret (Err "failed to parse redirect data")
  end.

End MatchingService.

(** ** Redis lists and counters *)

(** The elements between two Redis indices (negative ones count from the
    end), as LRANGE and LTRIM select them. *)
Definition redis_range (l : list string) (start stop : Z) : list string :=
  let len := Z.of_nat (length l) in
  let s := if (start <? 0)%Z then Z.max 0 (len + start) else start in
  let e := if (stop <? 0)%Z then (len + stop)%Z else stop in
  take (Z.to_nat (e + 1 - s)) (drop (Z.to_nat s) l).

(** [redis.LRange(...).Result()]; a key of another type is an error. *)
Definition redis_LRange (key : string) (start stop : Z)
    : St (result (list string)) :=
  fun w =>
    match redis w !! key with
    | None => Ret (Ok [], w)
    | Some (RList l) => Ret (Ok (redis_range l start stop), w)
    | Some _ => Ret (Err "WRONGTYPE", w)
    end.

(** [redis.LPush] with its result dropped, as the service calls it. *)
Definition redis_LPush (key : string) (v : string) : St unit :=
  fun w =>
    match redis w !! key with
    | None => Ret (tt, set_redis (insert key (RList [v])) w)
    | Some (RList l) => Ret (tt, set_redis (insert key (RList (v :: l))) w)
    | Some _ => Ret (tt, w)
    end.

(** [redis.LTrim]; a list trimmed to nothing is removed. *)
Definition redis_LTrim (key : string) (start stop : Z) : St unit :=
  fun w =>
    match redis w !! key with
    | Some (RList l) =>
        match redis_range l start stop with
        | [] => Ret (tt, set_redis (delete key) w)
        | l' => Ret (tt, set_redis (insert key (RList l')) w)
        end
    | _ => Ret (tt, w)
    end.

(** [redis.Expire]: expiry is outside the model. *)
Definition redis_Expire (key : string) (seconds : Z) : St unit :=
  fun w => Ret (tt, w).

Definition redis_Incr (key : string) : St unit :=
  fun w =>
    match redis w !! key with
    | None => Ret (tt, set_redis (insert key (RInt 1)) w)
    | Some (RInt n) => Ret (tt, set_redis (insert key (RInt (n + 1))) w)
    | Some _ => Ret (tt, w)
    end.

Definition redis_IncrByFloat (key : string) (x : Q) : St unit :=
  fun w =>
    match redis w !! key with
    | None => Ret (tt, set_redis (insert key (RFloat x)) w)
    | Some (RInt n) =>
        Ret (tt, set_redis (insert key (RFloat (inject_Z n + x)%Q)) w)
    | Some (RFloat y) => Ret (tt, set_redis (insert key (RFloat (y + x)%Q)) w)
    | Some _ => Ret (tt, w)
    end.

(** [redis.Get(...).Int64()] with the error dropped: 0 unless the key
    holds an integer. *)
Definition redis_Get_Int64 (key : string) : St Z :=
  fun w =>
    match redis w !! key with
    | Some (RInt n) => Ret (n, w)
    | Some (RFloat x) =>
        let x' := Qred x in
        Ret (if (Qden x' =? 1)%positive then Qnum x' else 0%Z, w)
    | _ => Ret (0%Z, w)
    end.

(** [redis.Get(...).Float64()] with the error dropped. *)
Definition redis_Get_Float64 (key : string) : St Q :=
  fun w =>
    match redis w !! key with
    | Some (RInt n) => Ret (inject_Z n, w)
    | Some (RFloat x) => Ret (x, w)
    | _ => Ret (0%Q, w)
    end.

(** ** The attribution service *)

Module AttributionEvent.
Record t : Type := {
  UserID : string;
  EventType : string;
  ChannelID : string;
  Timestamp : Z
}.
End AttributionEvent.

Module ConversionEvent.
Record t : Type := {
  UserID : string;
  ChannelID : string;
  Amount : Q;
  Revenue : Q
}.
End ConversionEvent.

Module AttributionStats.
Record t : Type := {
  ChannelID : string;
  TotalClicks : Z;
  TotalConversions : Z;
  ConversionRate : Q;
  TotalRevenue : Q;
  AverageOrderValue : Q;
  Period : string
}.
End AttributionStats.

Section AttributionService.

Variable config : Config.

(** [t.Format("2006-01-02")] of a Unix time. *)
Variable time_Format : Z -> string.

Definition handleClickEvent (event : AttributionEvent.t) : St unit :=
  let* now := time_Now in
  let clickKey :=
    "clicks:" +:+ AttributionEvent.ChannelID event +:+ ":"
    +:+ time_Format now in
  let* _ := redis_Incr clickKey in
  redis_Expire clickKey (30 * 24 * 3600).

Definition handleConversionEvent (event : ConversionEvent.t) : St unit :=
  let* now := time_Now in
  let conversionKey :=
    "conversions:" +:+ ConversionEvent.ChannelID event +:+ ":"
    +:+ time_Format now in
  let* _ := redis_Incr conversionKey in
  let* _ := redis_Expire conversionKey (30 * 24 * 3600) in
  let* now' := time_Now in
  let revenueKey :=
    "revenue:" +:+ ConversionEvent.ChannelID event +:+ ":"
    +:+ time_Format now' in
  let* _ := redis_IncrByFloat revenueKey (ConversionEvent.Revenue event) in
  redis_Expire revenueKey (30 * 24 * 3600).

Definition updateUserAttributionPath (event : AttributionEvent.t)
    : St unit :=
  let pathKey := "attribution_path:" +:+ AttributionEvent.UserID event in
  let* path := redis_LRange pathKey 0 (-1) in
  let touchpoint :=
    AttributionEvent.ChannelID event +:+ ":"
    +:+ AttributionEvent.EventType event +:+ ":"
    +:+ pretty (AttributionEvent.Timestamp event) in
  let* _ := redis_LPush pathKey touchpoint in
  let* _ := redis_LTrim pathKey 0 9 in
  redis_Expire pathKey (AttributionWindow config).

Definition getUserAttributionPath (userID : string) : St (list string) :=
  let pathKey := "attribution_path:" +:+ userID in
  let* path := redis_LRange pathKey 0 (-1) in
  match path with
  | Err _ => st_ret []
  | Ok path => st_ret path
  end.

Definition calculateChannelStats (channelID : string)
    : St AttributionStats.t :=
  let* now := time_Now in
  let today := time_Format now in
  let clickKey := "clicks:" +:+ channelID +:+ ":" +:+ today in
  let* clicks := redis_Get_Int64 clickKey in
  let conversionKey := "conversions:" +:+ channelID +:+ ":" +:+ today in
  let* conversions := redis_Get_Int64 conversionKey in
  let revenueKey := "revenue:" +:+ channelID +:+ ":" +:+ today in
  let* revenue := redis_Get_Float64 revenueKey in
  let* conversionRate :=
    if (0 <? clicks)%Z
    then
      let* ratio := lift (fdiv (inject_Z conversions) (inject_Z clicks)) in
      st_ret (ratio * 100)%Q
    else st_ret 0%Q in
  let* averageOrderValue :=
    if (0 <? conversions)%Z
    then lift (fdiv revenue (inject_Z conversions))
    else st_ret 0%Q in
  st_ret {| AttributionStats.ChannelID := channelID;
            AttributionStats.TotalClicks := clicks;
            AttributionStats.TotalConversions := conversions;
            AttributionStats.ConversionRate := conversionRate;
            AttributionStats.TotalRevenue := revenue;
            AttributionStats.AverageOrderValue := averageOrderValue;
            AttributionStats.Period := today |}.

End AttributionService.

(** ** The contract of [sort.Slice] *)

(** What [sort.Slice] asks of [less]. *)
Definition strict_weak_order {A : Type} (less : A -> A -> bool) : Prop :=
  (forall x, less x x = false)
  /\ (forall x y z, less x y = true -> less y z = true -> less x z = true)
  /\ (forall x y z, less x y = false -> less y z = false -> less x z = false).

(** What it promises: the same elements, none before one that is less.
    Nothing is promised about elements neither of which is less. *)
Definition sort_Slice_contract
    (sort_Slice : forall A : Type, (A -> A -> bool) -> list A -> list A)
    : Prop :=
  forall (A : Type) (less : A -> A -> bool) (s : list A),
    strict_weak_order less ->
    Permutation s (sort_Slice A less s)
    /\ StronglySorted (fun x y => less y x = false) (sort_Slice A less s).

(** A sort by insertion that meets the contract.  The prefix sorted so
    far is kept reversed; [pass x y] says that the new element [x] moves
    in front of its left neighbour [y]. *)
Fixpoint insert_by {A : Type} (pass : A -> A -> bool) (x : A)
    (rp : list A) : list A :=
  match rp with
  | [] => [x]
  | y :: rp' => if pass x y then y :: insert_by pass x rp' else x :: rp
  end.

Definition insertion_sort_by {A : Type} (pass : A -> A -> bool)
    (s : list A) : list A :=
  rev (fold_left (fun rp x => insert_by pass x rp) s []).

(** [x] moves left while it is less than its neighbour. *)
Definition insertionSort (A : Type) (less : A -> A -> bool) (s : list A)
    : list A :=
  insertion_sort_by (fun x y => less x y) s.

(** An identifier source for the examples. *)
Definition uuid_seq (n : nat) : string := "uuid-" +:+ pretty n.

(** A date format for the examples. *)
Definition day_of (now : Z) : string := "day-" +:+ pretty (now / 86400)%Z.

(** ** Reference definitions, in the words of the specification *)

(** Fee sub-score: the total fee mapped linearly onto [0,1] between a floor
    and a ceiling; 1 at or below the floor, 0 at or above the ceiling. *)
Definition fee_subscore_reference (amount takerRate withdrawalFee : Q) : Q :=
  let total := (amount * takerRate + withdrawalFee)%Q in
  let floor := (amount * 0.0001)%Q in
  let ceiling := (amount * 0.01)%Q in
  if Qle_bool total floor then 1%Q
  else if Qle_bool ceiling total then 0%Q
  else (1 - (total - floor) / (ceiling - floor))%Q.

(** Availability sub-score: 1, less a penalty for each of the three
    conditions, floored at 0. *)
Definition availability_subscore_reference
    (kycMissing minimumNetWorthSet paymentUnsupported : bool) : Q :=
  let score :=
    (1 - (if kycMissing then 0.3 else 0)
       - (if minimumNetWorthSet then 0.1 else 0)
       - (if paymentUnsupported then 0.4 else 0))%Q in
  if Qle_bool 0 score then score else 0%Q.

(** ** Example data *)

(** A channel for asset-1 in the US that takes card payments; the
    arguments are the fields the scorer looks at. *)
Definition exampleChannel (id type : string) (kycRequired : bool)
    (taker withdrawal : Q) (api chat : bool) (phone responseTime : string)
    (insured : bool) (audits : list Audit) : Channel :=
  {| ID := id;
     Type_ := type;
     Status := "active";
     IsActive := true;
     Website := "https://" +:+ id +:+ ".example";
     Compliance := {| SupportedRegions := ["US"; "EU"];
                      KYCRequired := kycRequired;
                      MinimumNetWorth := 0 |};
     SupportedAssets := [{| AssetID_ := "asset-1" |}];
     Fees := {| Trading := {| Maker := 0; Taker := taker; Flat := 0 |};
                Withdrawal := {| Crypto := withdrawal; Fiat := 0;
                                 Wire := 0 |} |};
     PaymentMethods := [{| Method := "wire" |}; {| Method := "card" |}];
     Support := {| Phone := phone; Chat := chat;
                   ResponseTime := responseTime |};
     API := if api then Some {| HasTradingAPI := true |} else None;
     Security := {| Insurance_ :=
                      if insured then Some {| Coverage := 1000000 |}
                      else None;
                    Custody := {| Segregation := true |};
                    Audits := audits |} |}.

Definition exampleAudit : Audit := {| Auditor := "auditor" |}.

(** Scenario B: taker fee 0.005 and withdrawal fee 5. *)
Definition channelB : Channel :=
  exampleChannel "b" "exchange" false 0.005 5 true true "+1-555" "instant"
    true [exampleAudit].

(** Scenario C: three channels that score 0.75, 0.55 and 0.90 for
    [exampleRequest]. *)
Definition channel75 : Channel :=
  exampleChannel "c75" "exchange" false 0.008 0.2 true true "+1-555"
    "instant" true [exampleAudit].
Definition channel55 : Channel :=
  exampleChannel "c55" "bank" false 0.02 0 false true "+1-555" "24hours"
    true [exampleAudit].
Definition channel90 : Channel :=
  exampleChannel "c90" "dex" false 0 0 true true "+1-555" "instant"
    false [exampleAudit].

(** Scenario A: a channel that requires KYC. *)
Definition channelKYC : Channel :=
  exampleChannel "kyc" "exchange" true 0.005 5 true true "+1-555" "instant"
    true [exampleAudit].

(** Two channels that differ in their identifier only. *)
Definition channelLeft : Channel :=
  exampleChannel "left" "exchange" false 0.005 5 true true "+1-555"
    "instant" true [exampleAudit].
Definition channelRight : Channel :=
  exampleChannel "right" "exchange" false 0.005 5 true true "+1-555"
    "instant" true [exampleAudit].

Definition exampleRequest : MatchingRequest :=
  {| AssetID := "asset-1"; Amount := 10000; UserRegion := "US";
     KYCLevel := "basic"; PaymentMethod_ := "card"; UserID := "user-1" |}.

(** The same request from a user without a KYC level. *)
Definition requestNoKYC : MatchingRequest :=
  {| AssetID := "asset-1"; Amount := 10000; UserRegion := "US";
     KYCLevel := ""; PaymentMethod_ := "card"; UserID := "user-1" |}.

(** A world with an empty Redis and the given channel table. *)
Definition exampleWorld (table : list Channel) : World :=
  {| redis := ∅; db := Ok table; clock := 1700000000; uuids := 0 |}.

(** ** Notions the statements use *)

(** The world after [uuid.New] produced a redirect identifier and
    [cacheRedirectInfo] stored the descriptor under it. *)
Definition issued (uuid_New : nat -> string) (request : MatchingRequest)
    (info : RedirectInfo) (w : World) : World :=
  {| redis :=
       <["redirect:" +:+ uuid_New (uuids w) :=
           RRedirect {| redirect_info := info;
                        request := request;
                        created_at := clock w |}]> (redis w);
     db := db w;
     clock := clock w;
     uuids := S (uuids w) |}.

(** The identifier a result's redirect descriptor carries. *)
Definition redirectID (r : MatchingResult) : string :=
  param_redirect_id (Parameters (RedirectInfo_ r)).

(** The weighted sum of the five sub-scores, given the fee sub-score. *)
Definition weighted_score (channel : Channel) (request : MatchingRequest)
    (feeScore : Q) : Q :=
  (feeScore * weight_fee
   + calculateAvailabilityScore channel request * weight_availability
   + calculateUXScore channel request * weight_ux
   + calculateSecurityScore channel * weight_security
   + calculateLiquidityScore channel (AssetID request) (Amount request)
     * weight_liquidity)%Q.

(** [r] is what the scorer makes of a channel and a request when the next
    redirect identifier is [id]. *)
Definition match_of (channel : Channel) (request : MatchingRequest)
    (id : string) (r : MatchingResult) : Prop :=
  ChannelID r = ID channel
  /\ Channel_ r = channel
  /\ Availability r = checkChannelAvailability channel request
  /\ EstimatedFees r = calculateFeeEstimate channel (Amount request)
  /\ redirectID r = id
  /\ exists feeScore,
       calculateFeeScore channel (Amount request) = Ret feeScore
       /\ (MatchScore r == weighted_score channel request feeScore)%Q.

(** The world after a descriptor has been issued for each of the results,
    in their order. *)
Definition issue_all (uuid_New : nat -> string) (request : MatchingRequest)
    (rs : list MatchingResult) (w : World) : World :=
  fold_left (fun w r => issued uuid_New request (RedirectInfo_ r) w) rs w.

(** The document [cacheRedirectInfo] stores for a result. *)
Definition stored_redirect (request : MatchingRequest) (now : Z)
    (r : MatchingResult) : RedisValue :=
  RRedirect {| redirect_info := RedirectInfo_ r;
               request := request;
               created_at := now |}.

(** Non-increasing match score. *)
Definition score_ge (r1 r2 : MatchingResult) : Prop :=
  (MatchScore r2 <= MatchScore r1)%Q.

(** No two results of the list share a match score. *)
Definition no_ties (l : list MatchingResult) : Prop :=
  forall (i j : nat) (a b : MatchingResult),
    l !! i = Some a -> l !! j = Some b ->
    (MatchScore a == MatchScore b)%Q -> i = j.

(** The touchpoint [updateUserAttributionPath] records for an event. *)
Definition touchpoint (event : AttributionEvent.t) : string :=
  AttributionEvent.ChannelID event +:+ ":"
  +:+ AttributionEvent.EventType event +:+ ":"
  +:+ pretty (AttributionEvent.Timestamp event).

(** The attribution path Redis holds for a user. *)
Definition path_of (userID : string) (w : World) : list string :=
  match redis w !! ("attribution_path:" +:+ userID) with
  | Some (RList l) => l
  | _ => []
  end.

(** The path key of the user is free or holds a list. *)
Definition path_key_ok (userID : string) (w : World) : Prop :=
  match redis w !! ("attribution_path:" +:+ userID) with
  | None | Some (RList _) => True
  | Some _ => False
  end.

(** Touchpoints appended one after the other, oldest first. *)
Fixpoint appendTouchpoints (config : Config)
    (events : list AttributionEvent.t) : St unit :=
  match events with
  | [] => st_ret tt
  | event :: events' =>
      let* _ := updateUserAttributionPath config event in
      appendTouchpoints config events'
  end.

(** Fifteen clicks of one user, on channels a and b in turn, at the
    seconds 1 to 15. *)
Definition exampleEvents : list AttributionEvent.t :=
  map (fun n : nat =>
         {| AttributionEvent.UserID := "user-1";
            AttributionEvent.EventType := "click";
            AttributionEvent.ChannelID := if Nat.even n then "b" else "a";
            AttributionEvent.Timestamp := Z.of_nat n |})
      (seq 1 15).

(** Four clicks and one conversion on a channel, then its statistics. *)
Definition exampleClick : AttributionEvent.t :=
  {| AttributionEvent.UserID := "user-1";
     AttributionEvent.EventType := "click";
     AttributionEvent.ChannelID := "c75";
     AttributionEvent.Timestamp := 1700000000 |}.

Definition exampleConversion : ConversionEvent.t :=
  {| ConversionEvent.UserID := "user-1";
     ConversionEvent.ChannelID := "c75";
     ConversionEvent.Amount := 1000;
     ConversionEvent.Revenue := 50 |}.

(** The world after the four clicks and the conversion. *)
Definition exampleCounters : St unit :=
  let* _ := handleClickEvent day_of exampleClick in
  let* _ := handleClickEvent day_of exampleClick in
  let* _ := handleClickEvent day_of exampleClick in
  let* _ := handleClickEvent day_of exampleClick in
  handleConversionEvent day_of exampleConversion.

Definition statsWorld : World :=
  match exampleCounters (exampleWorld []) with
  | Ret (_, w) => w
  | Abort _ => exampleWorld []
  end.

Definition exampleStats : St AttributionStats.t :=
  let* _ := exampleCounters in
  calculateChannelStats day_of "c75".

(** Results with equal scores come in the order their channels were
    fetched and scored. *)
Definition keeps_fetch_order (scored results : list MatchingResult) : Prop :=
  forall (i j : nat) (a b : MatchingResult),
    results !! i = Some a -> results !! j = Some b -> (i < j)%nat ->
    (MatchScore a == MatchScore b)%Q ->
    exists i' j' : nat,
      scored !! i' = Some a /\ scored !! j' = Some b /\ (i' < j')%nat.

(** ** Notions for the eligibility cache *)

(** The key [getEligibleChannels] caches a channel list under. *)
Definition eligibility_key (assetID userRegion : string) : string :=
  "eligible_channels:" +:+ assetID +:+ ":" +:+ userRegion.

(** The key holds no JSON list of channels: the next call asks the
    database. *)
Definition cache_miss (assetID userRegion : string) (w : World) : Prop :=
  match redis w !! eligibility_key assetID userRegion with
  | Some (RChannels _) => False
  | _ => True
  end.

(** The same world over another state of the channel table. *)
Definition set_db (table : result (list Channel)) (w : World) : World :=
  {| redis := redis w; db := table; clock := clock w; uuids := uuids w |}.

(** A channel that sets none of the optional features: the lowest
    user-experience, security and liquidity scores. *)
Definition channelBare : Channel :=
  {| ID := "bare";
     Type_ := "bank";
     Status := "active";
     IsActive := true;
     Website := "https://bare.example";
     Compliance := {| SupportedRegions := ["US"];
                      KYCRequired := true;
                      MinimumNetWorth := 1000000 |};
     SupportedAssets := [{| AssetID_ := "asset-1" |}];
     Fees := {| Trading := {| Maker := 0; Taker := 0.02; Flat := 0 |};
                Withdrawal := {| Crypto := 0; Fiat := 0; Wire := 0 |} |};
     PaymentMethods := [{| Method := "wire" |}];
     Support := {| Phone := ""; Chat := false; ResponseTime := "24hours" |};
     API := None;
     Security := {| Insurance_ := None;
                    Custody := {| Segregation := false |};
                    Audits := [] |} |}.

(** A configuration that asks for a score no channel reaches. *)
Definition configStrict : Config :=
  {| MaxMatchingResults := 10;
     MinMatchingScore := 0.995;
     RedirectExpiration := 3600;
     AttributionWindow := 86400 |}.

(** A configuration whose minimum only available channels reach. *)
Definition configAvailableOnly : Config :=
  {| MaxMatchingResults := 10;
     MinMatchingScore := 0.92;
     RedirectExpiration := 3600;
     AttributionWindow := 86400 |}.

(** A channel with every feature and no fees: the highest score. *)
Definition channelBest : Channel :=
  exampleChannel "best" "exchange" false 0 0 true true "+1-555" "instant"
    true [exampleAudit].

(** [channelBest] with a KYC requirement: the best-scoring channel a user
    without a KYC level can meet. *)
Definition channelBestKYC : Channel :=
  exampleChannel "best-kyc" "exchange" true 0 0 true true "+1-555" "instant"
    true [exampleAudit].

(** A configuration with the minimum at the score of [channelBestKYC] for
    a user without a KYC level. *)
Definition configAtUnavailableBest : Config :=
  {| MaxMatchingResults := 10;
     MinMatchingScore := 0.915;
     RedirectExpiration := 3600;
     AttributionWindow := 86400 |}.

(** ** The attribution service: the other event handlers *)

Section AttributionDispatch.

(** [t.Format("2006-01-02")] of a Unix time. *)
Variable time_Format : Z -> string.

Definition handleViewEvent (event : AttributionEvent.t) : St unit :=
  let* now := time_Now in
  let viewKey :=
    "views:" +:+ AttributionEvent.ChannelID event +:+ ":"
    +:+ time_Format now in
  let* _ := redis_Incr viewKey in
  redis_Expire viewKey (30 * 24 * 3600).

Definition handleRedirectEvent (event : AttributionEvent.t) : St unit :=
  let* now := time_Now in
  let redirectKey :=
    "redirects:" +:+ AttributionEvent.ChannelID event +:+ ":"
    +:+ time_Format now in
  let* _ := redis_Incr redirectKey in
  redis_Expire redirectKey (30 * 24 * 3600).

Definition handleSignupEvent (event : AttributionEvent.t) : St unit :=
  let* now := time_Now in
  let signupKey :=
    "signups:" +:+ AttributionEvent.ChannelID event +:+ ":"
    +:+ time_Format now in
  let* _ := redis_Incr signupKey in
  redis_Expire signupKey (30 * 24 * 3600).

(** The [switch] on the event type; the default case only logs. *)
Definition handleAttributionEvent (event : AttributionEvent.t) : St unit :=
  if String.eqb (AttributionEvent.EventType event) "click"
  then handleClickEvent time_Format event
  else if String.eqb (AttributionEvent.EventType event) "view"
  then handleViewEvent event
  else if String.eqb (AttributionEvent.EventType event) "redirect"
  then handleRedirectEvent event
  else if String.eqb (AttributionEvent.EventType event) "signup"
  then handleSignupEvent event
  else st_ret tt.

(** What the two queue consumers do with a decoded message: an attribution
    event goes to [handleAttributionEvent], a conversion to
    [handleConversionEvent]. *)
Definition handleMessage (message : AttributionEvent.t + ConversionEvent.t)
    : St unit :=
  match message with
  | inl event => handleAttributionEvent event
  | inr conversion => handleConversionEvent time_Format conversion
  end.

(** Messages handled one after the other. *)
Fixpoint handleMessages
    (messages : list (AttributionEvent.t + ConversionEvent.t)) : St unit :=
  match messages with
  | [] => st_ret tt
  | message :: messages' =>
      let* _ := handleMessage message in
      handleMessages messages'
  end.

End AttributionDispatch.

(** ** Notions for the daily counters *)

(** The messages that are click events on a channel. *)
Definition is_click_on (channelID : string)
    (message : AttributionEvent.t + ConversionEvent.t) : bool :=
  match message with
  | inl event =>
      String.eqb (AttributionEvent.EventType event) "click"
      && String.eqb (AttributionEvent.ChannelID event) channelID
  | inr _ => false
  end.

(** The messages that are conversions on a channel. *)
Definition is_conversion_on (channelID : string)
    (message : AttributionEvent.t + ConversionEvent.t) : bool :=
  match message with
  | inl _ => false
  | inr conversion =>
      String.eqb (ConversionEvent.ChannelID conversion) channelID
  end.

Definition clicks_on (channelID : string)
    (messages : list (AttributionEvent.t + ConversionEvent.t)) : Z :=
  Z.of_nat (length (List.filter (is_click_on channelID) messages)).

Definition conversions_on (channelID : string)
    (messages : list (AttributionEvent.t + ConversionEvent.t)) : Z :=
  Z.of_nat (length (List.filter (is_conversion_on channelID) messages)).

(** The revenue of the conversions on a channel, summed in their order. *)
Definition revenue_on (channelID : string)
    (messages : list (AttributionEvent.t + ConversionEvent.t)) : Q :=
  fold_left
    (fun (sum : Q) message =>
       match message with
       | inr conversion =>
           if String.eqb (ConversionEvent.ChannelID conversion) channelID
           then (sum + ConversionEvent.Revenue conversion)%Q
           else sum
       | inl _ => sum
       end)
    messages 0%Q.

(** Redis holds none of the three counters of the channel for the day. *)
Definition counters_free (time_Format : Z -> string) (channelID : string)
    (w : World) : Prop :=
  let today := time_Format (clock w) in
  redis w !! ("clicks:" +:+ channelID +:+ ":" +:+ today) = None
  /\ redis w !! ("conversions:" +:+ channelID +:+ ":" +:+ today) = None
  /\ redis w !! ("revenue:" +:+ channelID +:+ ":" +:+ today) = None.

(** A counter key holds the integer [n] (a free key counts as 0). *)
Definition counter_holds (key : string) (n : Z) (w : World) : Prop :=
  match redis w !! key with
  | None => n = 0%Z
  | Some (RInt k) => k = n
  | Some _ => False
  end.

(** A revenue key holds the sum [x] (a free key counts as 0). *)
Definition revenue_holds (key : string) (x : Q) (w : World) : Prop :=
  match redis w !! key with
  | None => (x == 0)%Q
  | Some (RFloat y) => (y == x)%Q
  | Some _ => False
  end.

(** Three clicks and two conversions on channel c75, a view of it, a click
    and a conversion on channel c90, and an event of unknown type. *)
Definition exampleMessages
    : list (AttributionEvent.t + ConversionEvent.t) :=
  [ inl exampleClick;
    inl {| AttributionEvent.UserID := "user-2";
           AttributionEvent.EventType := "view";
           AttributionEvent.ChannelID := "c75";
           AttributionEvent.Timestamp := 1700000001 |};
    inl exampleClick;
    inr exampleConversion;
    inl {| AttributionEvent.UserID := "user-2";
           AttributionEvent.EventType := "click";
           AttributionEvent.ChannelID := "c90";
           AttributionEvent.Timestamp := 1700000002 |};
    inr {| ConversionEvent.UserID := "user-2";
           ConversionEvent.ChannelID := "c90";
           ConversionEvent.Amount := 500;
           ConversionEvent.Revenue := 7 |};
    inl {| AttributionEvent.UserID := "user-1";
           AttributionEvent.EventType := "hover";
           AttributionEvent.ChannelID := "c75";
           AttributionEvent.Timestamp := 1700000003 |};
    inl exampleClick;
    inr {| ConversionEvent.UserID := "user-3";
           ConversionEvent.ChannelID := "c75";
           ConversionEvent.Amount := 2000;
           ConversionEvent.Revenue := 25 |} ].

(** The counter an attribution event type is counted under, if any. *)
Definition counter_prefix (eventType : string) : option string :=
  if String.eqb eventType "click" then Some "clicks:"
  else if String.eqb eventType "view" then Some "views:"
  else if String.eqb eventType "redirect" then Some "redirects:"
  else if String.eqb eventType "signup" then Some "signups:"
  else None.

(** The statistics of a channel for given counter values. *)
Definition stats_of (channelID today : string) (clicks conversions : Z)
    (revenue : Q) : AttributionStats.t :=
  {| AttributionStats.ChannelID := channelID;
     AttributionStats.TotalClicks := clicks;
     AttributionStats.TotalConversions := conversions;
     AttributionStats.ConversionRate :=
       if (0 <? clicks)%Z
       then (inject_Z conversions / inject_Z clicks * 100)%Q
       else 0%Q;
     AttributionStats.TotalRevenue := revenue;
     AttributionStats.AverageOrderValue :=
       if (0 <? conversions)%Z
       then (revenue / inject_Z conversions)%Q
       else 0%Q;
     AttributionStats.Period := today |}.

(** ** Notions for the attribution paths of several users *)

(** The events of a user. *)
Definition events_of (userID : string) (events : list AttributionEvent.t)
    : list AttributionEvent.t :=
  List.filter (fun event => String.eqb (AttributionEvent.UserID event) userID)
    events.

(** Touchpoints of two users, interleaved: user-1 on channels a, b, a and
    user-2 on channels x, y. *)
Definition exampleInterleaved : list AttributionEvent.t :=
  [ {| AttributionEvent.UserID := "user-1";
       AttributionEvent.EventType := "click";
       AttributionEvent.ChannelID := "a";
       AttributionEvent.Timestamp := 1 |};
    {| AttributionEvent.UserID := "user-2";
       AttributionEvent.EventType := "view";
       AttributionEvent.ChannelID := "x";
       AttributionEvent.Timestamp := 2 |};
    {| AttributionEvent.UserID := "user-1";
       AttributionEvent.EventType := "redirect";
       AttributionEvent.ChannelID := "b";
       AttributionEvent.Timestamp := 3 |};
    {| AttributionEvent.UserID := "user-2";
       AttributionEvent.EventType := "click";
       AttributionEvent.ChannelID := "y";
       AttributionEvent.Timestamp := 4 |};
    {| AttributionEvent.UserID := "user-1";
       AttributionEvent.EventType := "signup";
       AttributionEvent.ChannelID := "a";
       AttributionEvent.Timestamp := 5 |} ].

(** A world in which the path key of user-1 holds a counter. *)
Definition worldWrongType : World :=
  set_redis (insert "attribution_path:user-1" (RInt 5)) (exampleWorld []).

(** ** Notions for the key spaces of the two services *)

(** What the matching service reads is the same in both worlds: the channel
    table, the clock, the identifier counter, the redirect descriptors and
    the cached channel lists. *)
Definition same_matching_state (w w' : World) : Prop :=
  db w' = db w /\ clock w' = clock w /\ uuids w' = uuids w
  /\ (forall id : string,
        redis w' !! ("redirect:" +:+ id) = redis w !! ("redirect:" +:+ id))
  /\ (forall assetID userRegion : string,
        redis w' !! eligibility_key assetID userRegion
        = redis w !! eligibility_key assetID userRegion).

(** ** The HTTP handlers *)

(** What [c.JSON(status, body)] writes.  The bodies are the [gin.H] maps
    of the handlers: an error with optional details, the matches with
    their count, the data of a redirect, a page of channels with its
    pagination, or a message. *)
Inductive Body : Type :=
| ErrorBody (error : string) (details : option string)
| MatchesBody (data : list MatchingResult) (count : Z)
| DataBody (data : RedirectRecord)
| ChannelsBody (data : list Channel) (page limit total pages : Z)
| MessageBody (message : string).

Record Response : Type := {
  status : Z;
  body : Body
}.

Definition StatusOK : Z := 200.
Definition StatusBadRequest : Z := 400.
Definition StatusNotFound : Z := 404.
Definition StatusInternalServerError : Z := 500.

Section Handlers.

Variable config : Config.
Variable uuid_New : nat -> string.
Variable sort_Slice : forall A : Type, (A -> A -> bool) -> list A -> list A.

(** [handlers.MatchChannels]; [bound] is what [c.ShouldBindJSON] made of
    the request body: the request, or the text of its error. *)
Definition handlers_MatchChannels (bound : result MatchingRequest)
    : St Response :=
  match bound with
  | Err err =>
      st_ret {| status := StatusBadRequest;
                body := ErrorBody "Invalid request body" (Some err) |}
  | Ok request =>
      let* matched := MatchChannels config uuid_New sort_Slice request in
      match matched with
      | Err err =>
          st_ret {| status := StatusInternalServerError;
                    body := ErrorBody "Failed to match channels"
                              (Some err) |}
      | Ok matches =>
          st_ret {| status := StatusOK;
                    body := MatchesBody matches
                              (Z.of_nat (length matches)) |}
      end
  end.

(** [handlers.GetRedirect]; [id] is [c.Param("id")]. *)
Definition handlers_GetRedirect (id : string) : St Response :=
  let redirectID := id in
  let* got := GetRedirectInfo redirectID in
  match got with
  | Err _ =>
      st_ret {| status := StatusNotFound;
                body := ErrorBody "Redirect not found or expired" None |}
  | Ok redirectInfo =>
      st_ret {| status := StatusOK; body := DataBody redirectInfo |}
  end.

End Handlers.

(** ** The channel list route *)





Section ChannelList.

(** [strconv.Atoi] with its error dropped, as the handler calls it. *)
Variable strconv_Atoi : string -> Z.

(** The rows [query.Offset(offset).Limit(limit).Find] selects of the rows
    that match. *)
Variable gorm_Offset_Limit : Z -> Z -> list Channel -> list Channel.






End ChannelList.




(** ** Tracking through the API: tables, Redis hashes and the producer *)

(** An attribution event with its identifier, as [TrackEvent] receives and
    stores it.  The fields of the struct that no function reads (session,
    asset, amount, redirect, address, agent, referrer, UTM fields,
    metadata) are copied to the stored record as they are and are left
    out. *)
Module TrackedEvent.
Record t : Type := {
  ID : string;
  Event : AttributionEvent.t
}.
End TrackedEvent.

(** A conversion with its identifier, time and attribution path, as
    [TrackConversion] receives and stores it (asset, fee and conversion
    type are copied as they are and are left out). *)
Module TrackedConversion.
Record t : Type := {
  ID : string;
  Conversion : ConversionEvent.t;
  Timestamp : Z;
  AttributionPath : list string
}.
End TrackedConversion.

(** The hash [updateChannelStats] keeps per channel. *)
Record ChannelStatsHash : Type := {
  total_conversions : Z;
  total_revenue : Q;
  total_amount : Q
}.

(** The [eventData] maps handed to [kafka.PublishMessage]. *)
Inductive EventData : Type :=
| attribution_event (event : TrackedEvent.t)
| conversion_event (conversion : TrackedConversion.t)
| matching_completed (request : MatchingRequest)
    (results : list MatchingResult) (result_count : Z) (timestamp : Z).

Record KafkaMessage : Type := {
  topic : string;
  key : string;
  data : EventData
}.

(** The world of the matching service together with what tracking adds:
    the two event tables, the Redis keys that hold hashes, and the
    messages handed to the Kafka producer, latest first. *)
Record System : Type := {
  world : World;
  attribution_events : list TrackedEvent.t;
  conversion_events : list TrackedConversion.t;
  hashes : gmap string ChannelStatsHash;
  published : list KafkaMessage
}.

Definition Sy (A : Type) : Type := System -> run (A * System).

Definition sy_ret {A : Type} (a : A) : Sy A := fun s => Ret (a, s).

Definition sy_bind {A B : Type} (m : Sy A) (k : A -> Sy B) : Sy B :=
  fun s =>
    match m s with
    | Ret (a, s') => k a s'
    | Abort e => Abort e
    end.

Notation "'let+' x ':=' m 'in' k" := (sy_bind m (fun x => k))
  (at level 10, x name, m at level 100, k at level 200).

(** An operation of the Redis and clock world, run inside the system. *)
Definition on_world {A : Type} (m : St A) : Sy A :=
  fun s =>
    match m (world s) with
    | Ret (a, w') =>
        Ret (a, {| world := w';
                   attribution_events := attribution_events s;
                   conversion_events := conversion_events s;
                   hashes := hashes s;
                   published := published s |})
    | Abort e => Abort e
    end.

(** [time.Time{}.Unix()], the time for which [IsZero] holds. *)
Definition zero_time : Z := (-62135596800)%Z.

Definition IsZero (t : Z) : bool := (t =? zero_time)%Z.

Section Tracking.

Variable config : Config.
Variable uuid_New : nat -> string.

(** The text of the error the database driver gives for a second row with
    the primary key of an existing one. *)
Variable duplicate_key : string.

(** [s.db.Create] on the attribution table: the database may be failing,
    and the identifier is the primary key. *)
Definition db_Create_AttributionEvent (record : TrackedEvent.t)
    : Sy (result unit) :=
  fun s =>
    match db (world s) with
    | Err err => Ret (Err err, s)
    | Ok _ =>
        if existsb (fun r => String.eqb (TrackedEvent.ID r)
                               (TrackedEvent.ID record))
             (attribution_events s)
        then Ret (Err duplicate_key, s)
        else Ret (Ok tt,
                  {| world := world s;
                     attribution_events := record :: attribution_events s;
                     conversion_events := conversion_events s;
                     hashes := hashes s;
                     published := published s |})
    end.

Definition db_Create_ConversionEvent (record : TrackedConversion.t)
    : Sy (result unit) :=
  fun s =>
    match db (world s) with
    | Err err => Ret (Err err, s)
    | Ok _ =>
        if existsb (fun r => String.eqb (TrackedConversion.ID r)
                               (TrackedConversion.ID record))
             (conversion_events s)
        then Ret (Err duplicate_key, s)
        else Ret (Ok tt,
                  {| world := world s;
                     attribution_events := attribution_events s;
                     conversion_events := record :: conversion_events s;
                     hashes := hashes s;
                     published := published s |})
    end.

(** [s.kafka.PublishMessage]; an error of the producer is only logged. *)
Definition kafka_PublishMessage (topic key : string) (data : EventData)
    : Sy unit :=
  fun s =>
    Ret (tt,
         {| world := world s;
            attribution_events := attribution_events s;
            conversion_events := conversion_events s;
            hashes := hashes s;
            published :=
              {| topic := topic; key := key; data := data |}
              :: published s |}).

Definition publishAttributionEvent (event : TrackedEvent.t) : Sy unit :=
  kafka_PublishMessage "attribution-events"
    (AttributionEvent.UserID (TrackedEvent.Event event))
    (attribution_event event).

Definition publishConversionEvent (event : TrackedConversion.t) : Sy unit :=
  kafka_PublishMessage "attribution-events"
    (ConversionEvent.UserID (TrackedConversion.Conversion event))
    (conversion_event event).

(** The pipeline of [updateChannelStats]: three increments of the hash of
    the channel.  On a key that holds a value of another type the commands
    fail and the error is only logged. *)
Definition updateChannelStats (conversion : TrackedConversion.t) : Sy unit :=
  let statsKey :=
    "channel_stats:"
    +:+ ConversionEvent.ChannelID (TrackedConversion.Conversion conversion) in
  fun s =>
    match redis (world s) !! statsKey with
    | Some _ => Ret (tt, s)
    | None =>
        let old :=
          match hashes s !! statsKey with
          | Some h => h
          | None => {| total_conversions := 0;
                       total_revenue := 0;
                       total_amount := 0 |}
          end in
        let new :=
          {| total_conversions := total_conversions old + 1;
             total_revenue :=
               total_revenue old
               + ConversionEvent.Revenue
                   (TrackedConversion.Conversion conversion);
             total_amount :=
               total_amount old
               + ConversionEvent.Amount
                   (TrackedConversion.Conversion conversion) |} in
        Ret (tt,
             {| world := world s;
                attribution_events := attribution_events s;
                conversion_events := conversion_events s;
                hashes := <[statsKey := new]> (hashes s);
                published := published s |})
    end.

Definition TrackEvent (event : TrackedEvent.t) : Sy (result unit) :=
  let+ id :=
    if String.eqb (TrackedEvent.ID event) ""
    then on_world (uuid_New_String uuid_New)
    else sy_ret (TrackedEvent.ID event) in
  let+ timestamp :=
    if IsZero (AttributionEvent.Timestamp (TrackedEvent.Event event))
    then on_world time_Now
    else sy_ret (AttributionEvent.Timestamp (TrackedEvent.Event event)) in
  let event :=
    {| TrackedEvent.ID := id;
       TrackedEvent.Event :=
         {| AttributionEvent.UserID :=
              AttributionEvent.UserID (TrackedEvent.Event event);
            AttributionEvent.EventType :=
              AttributionEvent.EventType (TrackedEvent.Event event);
            AttributionEvent.ChannelID :=
              AttributionEvent.ChannelID (TrackedEvent.Event event);
            AttributionEvent.Timestamp := timestamp |} |} in
  if String.eqb (AttributionEvent.UserID (TrackedEvent.Event event)) ""
     || String.eqb (AttributionEvent.EventType (TrackedEvent.Event event)) ""
  then sy_ret (Err "user_id and event_type are required")
  else
    let attributionRecord := event in
    let+ created := db_Create_AttributionEvent attributionRecord in
    match created with
    | Err err =>
        sy_ret (Err ("failed to save attribution event: " +:+ err))
    | Ok _ =>
        let+ _ :=
          on_world (updateUserAttributionPath config
                      (TrackedEvent.Event event)) in
        let+ _ := publishAttributionEvent event in
        sy_ret (Ok tt)
    end.

Definition TrackConversion (conversion : TrackedConversion.t)
    : Sy (result unit) :=
  let+ id :=
    if String.eqb (TrackedConversion.ID conversion) ""
    then on_world (uuid_New_String uuid_New)
    else sy_ret (TrackedConversion.ID conversion) in
  let+ timestamp :=
    if IsZero (TrackedConversion.Timestamp conversion)
    then on_world time_Now
    else sy_ret (TrackedConversion.Timestamp conversion) in
  let+ attributionPath :=
    on_world (getUserAttributionPath
                (ConversionEvent.UserID
                   (TrackedConversion.Conversion conversion))) in
  let conversion :=
    {| TrackedConversion.ID := id;
       TrackedConversion.Conversion :=
         TrackedConversion.Conversion conversion;
       TrackedConversion.Timestamp := timestamp;
       TrackedConversion.AttributionPath := attributionPath |} in
  let conversionRecord := conversion in
  let+ created := db_Create_ConversionEvent conversionRecord in
  match created with
  | Err err => sy_ret (Err ("failed to save conversion event: " +:+ err))
  | Ok _ =>
      let+ _ := updateChannelStats conversion in
      let+ _ := publishConversionEvent conversion in
      sy_ret (Ok tt)
  end.

End Tracking.

(** A system with empty tables, no hash and nothing published. *)
Definition exampleSystem (w : World) : System :=
  {| world := w;
     attribution_events := [];
     conversion_events := [];
     hashes := ∅;
     published := [] |}.

(** An event and a conversion of user-1 that [TrackEvent] and
    [TrackConversion] complete: no identifier, no time. *)
Definition exampleTracked : TrackedEvent.t :=
  {| TrackedEvent.ID := "";
     TrackedEvent.Event :=
       {| AttributionEvent.UserID := "user-1";
          AttributionEvent.EventType := "click";
          AttributionEvent.ChannelID := "c75";
          AttributionEvent.Timestamp := zero_time |} |}.

Definition exampleTrackedConversion : TrackedConversion.t :=
  {| TrackedConversion.ID := "";
     TrackedConversion.Conversion := exampleConversion;
     TrackedConversion.Timestamp := zero_time;
     TrackedConversion.AttributionPath := [] |}.

(** An event without a user. *)
Definition exampleAnonymous : TrackedEvent.t :=
  {| TrackedEvent.ID := "";
     TrackedEvent.Event :=
       {| AttributionEvent.UserID := "";
          AttributionEvent.EventType := "click";
          AttributionEvent.ChannelID := "c75";
          AttributionEvent.Timestamp := 1700000000 |} |}.

(** ** Notions for tracking *)

(** The system with another world. *)
Definition set_world (w : World) (s : System) : System :=
  {| world := w;
     attribution_events := attribution_events s;
     conversion_events := conversion_events s;
     hashes := hashes s;
     published := published s |}.

(** The world after an identifier has been drawn. *)
Definition drawn (w : World) : World :=
  {| redis := redis w; db := db w; clock := clock w; uuids := S (uuids w) |}.

(** The event as [TrackEvent] completes it in a world: a fresh identifier
    for an empty one, the time of the call for the zero time. *)
Definition completed_event (uuid_New : nat -> string) (w : World)
    (event : TrackedEvent.t) : TrackedEvent.t :=
  {| TrackedEvent.ID :=
       if String.eqb (TrackedEvent.ID event) ""
       then uuid_New (uuids w) else TrackedEvent.ID event;
     TrackedEvent.Event :=
       {| AttributionEvent.UserID :=
            AttributionEvent.UserID (TrackedEvent.Event event);
          AttributionEvent.EventType :=
            AttributionEvent.EventType (TrackedEvent.Event event);
          AttributionEvent.ChannelID :=
            AttributionEvent.ChannelID (TrackedEvent.Event event);
          AttributionEvent.Timestamp :=
            if IsZero (AttributionEvent.Timestamp (TrackedEvent.Event event))
            then clock w
            else AttributionEvent.Timestamp (TrackedEvent.Event event) |} |}.

(** The conversion as [TrackConversion] completes it in a world: a fresh
    identifier for an empty one, the time of the call for the zero time,
    and the attribution path Redis holds for the user. *)
Definition completed_conversion (uuid_New : nat -> string) (w : World)
    (conversion : TrackedConversion.t) : TrackedConversion.t :=
  {| TrackedConversion.ID :=
       if String.eqb (TrackedConversion.ID conversion) ""
       then uuid_New (uuids w) else TrackedConversion.ID conversion;
     TrackedConversion.Conversion := TrackedConversion.Conversion conversion;
     TrackedConversion.Timestamp :=
       if IsZero (TrackedConversion.Timestamp conversion)
       then clock w else TrackedConversion.Timestamp conversion;
     TrackedConversion.AttributionPath :=
       path_of (ConversionEvent.UserID
                  (TrackedConversion.Conversion conversion)) w |}.

(** The hash of a channel, all zero when the key is free. *)
Definition stats_hash (channelID : string) (s : System) : ChannelStatsHash :=
  match hashes s !! ("channel_stats:" +:+ channelID) with
  | Some h => h
  | None => {| total_conversions := 0; total_revenue := 0;
               total_amount := 0 |}
  end.

(** ** The attribution route and the matching queue *)

Section TrackingRoutes.

Variable config : Config.
Variable uuid_New : nat -> string.
Variable sort_Slice : forall A : Type, (A -> A -> bool) -> list A -> list A.
Variable duplicate_key : string.

(** [handlers.TrackAttribution]; [bound] is what [c.ShouldBindJSON] made of
    the body.  The address, agent and referrer the handler copies from the
    request are among the fields left out of the event. *)
Definition handlers_TrackAttribution (bound : result TrackedEvent.t)
    : Sy Response :=
  match bound with
  | Err err =>
      sy_ret {| status := StatusBadRequest;
                body := ErrorBody "Invalid request body" (Some err) |}
  | Ok event =>
      let+ tracked := TrackEvent config uuid_New duplicate_key event in
      match tracked with
      | Err err =>
          sy_ret {| status := StatusInternalServerError;
                    body := ErrorBody "Failed to track attribution event"
                              (Some err) |}
      | Ok _ =>
          sy_ret {| status := StatusOK;
                    body := MessageBody
                              "Attribution event tracked successfully" |}
      end
  end.

(** [redis.BLPop(ctx, time.Second, key).Result()]: the key and the first
    element of the list, which is removed; [redis.Nil] after the wait when
    there is no list, another error when the key holds another type. *)
Definition redis_BLPop (key : string) : St (result (list string)) :=
  fun w =>
    match redis w !! key with
    | None | Some (RList []) => Ret (Err "redis: nil", w)
    | Some (RList [v]) => Ret (Ok [key; v], set_redis (delete key) w)
    | Some (RList (v :: l)) =>
        Ret (Ok [key; v], set_redis (insert key (RList l)) w)
    | Some _ => Ret (Err "WRONGTYPE", w)
    end.

(** [json.Unmarshal] of a queued message into a [MatchingRequest]. *)
Variable json_Unmarshal : string -> option MatchingRequest.

Definition publishMatchingResult (request : MatchingRequest)
    (results : list MatchingResult) : Sy unit :=
  let+ now := on_world time_Now in
  kafka_PublishMessage "matching-events" (UserID request)
    (matching_completed request results (Z.of_nat (length results)) now).

(** [processMatchingQueue]; each turn of the loop uses one unit of [fuel].
    The result tells whether the loop has ended. *)
Fixpoint processMatchingQueue (fuel : nat) : Sy bool :=
  match fuel with
  | O => sy_ret false
  | S fuel' =>
      let queueKey := "matching:queue" in
      let+ popped := on_world (redis_BLPop queueKey) in
      match popped with
      | Err _ => sy_ret true
      | Ok result =>
          match result with
          | _ :: message :: _ =>
              match json_Unmarshal message with
              | None => processMatchingQueue fuel'
              | Some request =>
                  let+ matched :=
                    on_world (MatchChannels config uuid_New sort_Slice
                                request) in
                  match matched with
                  | Err _ => processMatchingQueue fuel'
                  | Ok matches =>
                      let+ _ := publishMatchingResult request matches in
                      processMatchingQueue fuel'
                  end
              end
          | _ => processMatchingQueue fuel'
          end
      end
  end.

End TrackingRoutes.

(** ** Notions for the matching queue *)

(** The messages waiting in the matching queue. *)
Definition matching_queue (w : World) : list string :=
  match redis w !! "matching:queue" with
  | Some (RList l) => l
  | _ => []
  end.

(** The queue key is free or holds a list that is not empty (Redis removes
    a list with its last element). *)
Definition queue_key_ok (w : World) : Prop :=
  match redis w !! "matching:queue" with
  | None | Some (RList (_ :: _)) => True
  | Some _ => False
  end.

(** A message of the matching service with a count that is the number of
    its results. *)
Definition is_matching_message (m : KafkaMessage) : Prop :=
  topic m = "matching-events"
  /\ exists (request : MatchingRequest) (results : list MatchingResult)
            (timestamp : Z),
       key m = UserID request
       /\ data m
          = matching_completed request results (Z.of_nat (length results))
              timestamp.

(** For the examples: the text "request" decodes to the example request,
    any other text does not decode. *)
Definition unmarshal_example (message : string) : option MatchingRequest :=
  if String.eqb message "request" then Some exampleRequest else None.

(** A queue of three messages, the second of which does not decode, over
    the three channels of scenario C. *)
Definition queueWorld : World :=
  set_redis (insert "matching:queue" (RList ["request"; "garbage"; "request"]))
    (exampleWorld [channel75; channel55; channel90]).

(** ** Reading the conversions back *)

(** [AttributionService.GetConversions]: the rows of the conversion table
    with a time between the two dates, both included, and of the channel
    when one is given.  The query asks for no order; the rows come in the
    order of the table. *)
Definition GetConversions (channelID : string) (startDate endDate : Z)
    : Sy (result (list TrackedConversion.t)) :=
  fun s =>
    match db (world s) with
    | Err err => Ret (Err err, s)
    | Ok _ =>
        let selected (c : TrackedConversion.t) : bool :=
          (startDate <=? TrackedConversion.Timestamp c)%Z
          && (TrackedConversion.Timestamp c <=? endDate)%Z
          && (String.eqb channelID ""
              || String.eqb
                   (ConversionEvent.ChannelID
                      (TrackedConversion.Conversion c)) channelID) in
        Ret (Ok (List.filter selected (conversion_events s)), s)
    end.

(** The best channel, switched off. *)
Definition channelInactive : Channel :=
  {| ID := "off";
     Type_ := Type_ channelBest;
     Status := "inactive";
     IsActive := false;
     Website := Website channelBest;
     Compliance := Compliance channelBest;
     SupportedAssets := SupportedAssets channelBest;
     Fees := Fees channelBest;
     PaymentMethods := PaymentMethods channelBest;
     Support := Support channelBest;
     API := API channelBest;
     Security := Security channelBest |}.

(** ** Notions for the link between the event table and the paths *)

(** A call of the tracking API. *)
Inductive TrackingCall : Type :=
| track_event (event : TrackedEvent.t)
| track_conversion (conversion : TrackedConversion.t).

Section TrackingCalls.

Variable config : Config.
Variable uuid_New : nat -> string.
Variable duplicate_key : string.

Definition trackingCall (c : TrackingCall) : Sy (result unit) :=
  match c with
  | track_event event => TrackEvent config uuid_New duplicate_key event
  | track_conversion conversion =>
      TrackConversion uuid_New duplicate_key conversion
  end.

(** Calls made one after the other, whatever each returns. *)
Fixpoint trackingCalls (calls : list TrackingCall) : Sy unit :=
  match calls with
  | [] => sy_ret tt
  | c :: calls' =>
      let+ _ := trackingCall c in
      trackingCalls calls'
  end.

End TrackingCalls.

(** The touchpoints of the stored events of a user, latest first, cut to
    ten. *)
Definition stored_path (userID : string) (s : System) : list string :=
  take 10
    (map touchpoint
       (events_of userID (map TrackedEvent.Event (attribution_events s)))).

(** The path Redis holds for every user is the one the event table
    gives. *)
Definition paths_match_table (s : System) : Prop :=
  forall userID : string,
    path_key_ok userID (world s)
    /\ path_of userID (world s) = stored_path userID s.

(** A click of user-1, an event without a user, a view by user-2, a
    conversion of user-1 and a redirect of user-1. *)
Definition exampleCalls : list TrackingCall :=
  [ track_event exampleTracked;
    track_event exampleAnonymous;
    track_event
      {| TrackedEvent.ID := "event-2";
         TrackedEvent.Event :=
           {| AttributionEvent.UserID := "user-2";
              AttributionEvent.EventType := "view";
              AttributionEvent.ChannelID := "c90";
              AttributionEvent.Timestamp := 1700000005 |} |};
    track_conversion exampleTrackedConversion;
    track_event
      {| TrackedEvent.ID := "event-3";
         TrackedEvent.Event :=
           {| AttributionEvent.UserID := "user-1";
              AttributionEvent.EventType := "redirect";
              AttributionEvent.ChannelID := "c90";
              AttributionEvent.Timestamp := 1700000009 |} |} ].

(** ** [sort.Slice] of the Go library

    The sort [MatchChannels] calls, as the Go library (1.19 and later)
    has it in sort/zsortfunc.go: a pattern-defeating quicksort on the
    indices of the slice, with [less] and [swap] for the only accesses.
    Slices of at most twelve elements are sorted by insertion. *)

(** The hint [choosePivot_func] gives about the order of the slice. *)
Inductive sortedHint : Type :=
| unknownHint
| increasingHint
| decreasingHint.

(** [bits.Len]: the number of bits of a number. *)
Definition bits_Len (x : nat) : nat :=
  if (x =? 0)%nat then 0%nat else S (Nat.log2 x).

(** [xorshift.Next] on [uint64]. *)
Definition xorshift_Next (r : Z) : Z :=
  let r := Z.lxor r (Z.shiftl r 13 mod 2 ^ 64) in
  let r := Z.lxor r (Z.shiftr r 7) in
  let r := Z.lxor r (Z.shiftl r 17 mod 2 ^ 64) in
  r.

Definition nextPowerOfTwo (length : nat) : Z :=
  Z.shiftl 1 (Z.of_nat (bits_Len length)).

(** [for i <= j && test(i) { i++ }] and [for i <= j && test(j) { j-- }],
    the two scans of the partitions; [n] is [j + 1 - i], the number of
    indices from [i] to [j]. *)
Fixpoint scan_up (test : nat -> bool) (n i : nat) : nat :=
  match n with
  | 0%nat => i
  | S n' => if test i then scan_up test n' (S i) else i
  end.

Fixpoint scan_down (test : nat -> bool) (n j : nat) : nat :=
  match n with
  | 0%nat => j
  | S n' => if test j then scan_down test n' (j - 1)%nat else j
  end.

Section GoSort.

Context {A : Type}.

(** The [less] function handed to [sort.Slice], on the elements. *)
Variable less : A -> A -> bool.

(** [data.Less(i, j)] and [data.Swap(i, j)] on the slice being sorted.
    The functions below use them within the slice only. *)
Definition data_Less (data : list A) (i j : nat) : bool :=
  match data !! i, data !! j with
  | Some x, Some y => less x y
  | _, _ => false
  end.

Definition data_Swap (data : list A) (i j : nat) : list A :=
  match data !! i, data !! j with
  | Some x, Some y => <[j := x]> (<[i := y]> data)
  | _, _ => data
  end.

(** The inner loop of [insertionSort_func],
    [for j := i; j > a && data.Less(j, j-1); j--]. *)
Fixpoint insertionSort_shift (data : list A) (a j : nat) : list A :=
  match j with
  | 0%nat => data
  | S j' =>
      if (a <? j)%nat && data_Less data j j'
      then insertionSort_shift (data_Swap data j j') a j'
      else data
  end.

(** Its outer loop, [for i := a + 1; i < b; i++]; [n] is [b - i]. *)
Fixpoint insertionSort_from (n : nat) (data : list A) (a i : nat)
    : list A :=
  match n with
  | 0%nat => data
  | S n' => insertionSort_from n' (insertionSort_shift data a i) a (S i)
  end.

Definition insertionSort_func (data : list A) (a b : nat) : list A :=
  insertionSort_from (b - (a + 1)) data a (a + 1).

(** [siftDown_func], whose loop follows a path down the heap. *)
Fixpoint siftDown_func (fuel : nat) (data : list A) (lo hi first : nat)
    : option (list A) :=
  match fuel with
  | 0%nat => None
  | S fuel' =>
      let root := lo in
      let child := (2 * root + 1)%nat in
      if (hi <=? child)%nat then Some data
      else
        let child :=
          if (child + 1 <? hi)%nat
             && data_Less data (first + child) (first + child + 1)
          then (child + 1)%nat else child in
        if negb (data_Less data (first + root) (first + child))
        then Some data
        else siftDown_func fuel'
               (data_Swap data (first + root) (first + child))
               child hi first
  end.

(** The two loops of [heapSort_func], both [for i := ...; i >= 0; i--]. *)
Fixpoint heapSort_build (i : nat) (data : list A) (hi first : nat)
    : option (list A) :=
  match siftDown_func (S hi) data i hi first with
  | None => None
  | Some data =>
      match i with
      | 0%nat => Some data
      | S i' => heapSort_build i' data hi first
      end
  end.

Fixpoint heapSort_pop (i : nat) (data : list A) (first : nat)
    : option (list A) :=
  let data := data_Swap data first (first + i) in
  match siftDown_func (S i) data 0 i first with
  | None => None
  | Some data =>
      match i with
      | 0%nat => Some data
      | S i' => heapSort_pop i' data first
      end
  end.

Definition heapSort_func (data : list A) (a b : nat) : option (list A) :=
  let first := a in
  let hi := (b - a)%nat in
  match heapSort_build ((hi - 1) / 2) data hi first with
  | None => None
  | Some data =>
      if (hi =? 0)%nat then Some data
      else heapSort_pop (hi - 1) data first
  end.

(** The loop of [partition_func] after its first exchange. *)
Fixpoint partition_loop (fuel : nat) (data : list A) (a i j : nat)
    : option (list A * nat) :=
  match fuel with
  | 0%nat => None
  | S fuel' =>
      let i := scan_up (fun i => data_Less data i a) (S j - i) i in
      let j :=
        scan_down (fun j => negb (data_Less data j a)) (S j - i) j in
      if (j <? i)%nat then Some (data, j)
      else partition_loop fuel' (data_Swap data i j) a (S i) (j - 1)
  end.

Definition partition_func (data : list A) (a b pivot : nat)
    : option (list A * nat * bool) :=
  let data := data_Swap data a pivot in
  let i := (a + 1)%nat in
  let j := (b - 1)%nat in
  let i := scan_up (fun i => data_Less data i a) (S j - i) i in
  let j := scan_down (fun j => negb (data_Less data j a)) (S j - i) j in
  if (j <? i)%nat then Some (data_Swap data j a, j, true)
  else
    let data := data_Swap data i j in
    match partition_loop (S (b - a)) data a (S i) (j - 1) with
    | None => None
    | Some (data, j) => Some (data_Swap data j a, j, false)
    end.

Fixpoint partitionEqual_loop (fuel : nat) (data : list A) (a i j : nat)
    : option (list A * nat) :=
  match fuel with
  | 0%nat => None
  | S fuel' =>
      let i :=
        scan_up (fun i => negb (data_Less data a i)) (S j - i) i in
      let j := scan_down (fun j => data_Less data a j) (S j - i) j in
      if (j <? i)%nat then Some (data, i)
      else partitionEqual_loop fuel' (data_Swap data i j) a (S i) (j - 1)
  end.

Definition partitionEqual_func (data : list A) (a b pivot : nat)
    : option (list A * nat) :=
  let data := data_Swap data a pivot in
  partitionEqual_loop (S (b - a)) data a (a + 1) (b - 1).

(** The loops of [partialInsertionSort_func]: the scan
    [for i < b && !data.Less(i, i-1)], with [n] for [b - i], and the two
    shifts. *)
Fixpoint partialInsertionSort_scan (n : nat) (data : list A) (i : nat)
    : nat :=
  match n with
  | 0%nat => i
  | S n' =>
      if negb (data_Less data i (i - 1))
      then partialInsertionSort_scan n' data (S i) else i
  end.

Fixpoint shift_smaller (j : nat) (data : list A) : list A :=
  match j with
  | 0%nat => data
  | S j' =>
      if negb (data_Less data j j') then data
      else shift_smaller j' (data_Swap data j j')
  end.

Fixpoint shift_greater (n : nat) (data : list A) (j : nat) : list A :=
  match n with
  | 0%nat => data
  | S n' =>
      if negb (data_Less data j (j - 1)) then data
      else shift_greater n' (data_Swap data j (j - 1)) (S j)
  end.

Fixpoint partialInsertionSort_steps (steps : nat) (data : list A)
    (a b i : nat) : list A * bool :=
  match steps with
  | 0%nat => (data, false)
  | S steps' =>
      let i := partialInsertionSort_scan (b - i) data i in
      if (i =? b)%nat then (data, true)
      else if (b - a <? 50)%nat then (data, false)
      else
        let data := data_Swap data i (i - 1) in
        let data :=
          if (2 <=? i - a)%nat then shift_smaller (i - 1) data
          else data in
        let data :=
          if (2 <=? b - i)%nat then shift_greater (b - (i + 1)) data (i + 1)
          else data in
        partialInsertionSort_steps steps' data a b i
  end.

Definition partialInsertionSort_func (data : list A) (a b : nat)
    : list A * bool :=
  partialInsertionSort_steps 5 data a b (a + 1).

(** One round of the loop of [breakPatterns_func]. *)
Definition breakPatterns_step (a length idx : nat) (modulus : Z)
    (state : Z * list A) (i : nat) : Z * list A :=
  let random := xorshift_Next (fst state) in
  let other := Z.to_nat (Z.land random (modulus - 1)) in
  let other :=
    if (length <=? other)%nat then (other - length)%nat else other in
  (random, data_Swap (snd state) (idx - 1 + i) (a + other)).

Definition breakPatterns_func (data : list A) (a b : nat) : list A :=
  let length := (b - a)%nat in
  if (8 <=? length)%nat
  then
    let random := Z.of_nat length in
    let modulus := nextPowerOfTwo length in
    let idx := (a + length / 4 * 2 - 1)%nat in
    snd (fold_left (breakPatterns_step a length idx modulus)
           [0; 1; 2]%nat (random, data))
  else data.

(** [order2_func], [median_func] and [medianAdjacent_func]; the counter
    [swaps] is passed through. *)
Definition order2_func (data : list A) (a b swaps : nat)
    : nat * nat * nat :=
  if data_Less data b a then (b, a, S swaps) else (a, b, swaps).

Definition median_func (data : list A) (a b c swaps : nat) : nat * nat :=
  let '(a, b, swaps) := order2_func data a b swaps in
  let '(b, c, swaps) := order2_func data b c swaps in
  let '(a, b, swaps) := order2_func data a b swaps in
  (b, swaps).

Definition medianAdjacent_func (data : list A) (a swaps : nat)
    : nat * nat :=
  median_func data (a - 1) a (a + 1) swaps.

Definition choosePivot_func (data : list A) (a b : nat)
    : nat * sortedHint :=
  let shortestNinther := 50%nat in
  let maxSwaps := (4 * 3)%nat in
  let l := (b - a)%nat in
  let swaps := 0%nat in
  let i := (a + l / 4 * 1)%nat in
  let j := (a + l / 4 * 2)%nat in
  let k := (a + l / 4 * 3)%nat in
  let '(j, swaps) :=
    if (8 <=? l)%nat
    then
      let '(i, j, k, swaps) :=
        if (shortestNinther <=? l)%nat
        then
          let '(i, swaps) := medianAdjacent_func data i swaps in
          let '(j, swaps) := medianAdjacent_func data j swaps in
          let '(k, swaps) := medianAdjacent_func data k swaps in
          (i, j, k, swaps)
        else (i, j, k, swaps) in
      median_func data i j k swaps
    else (j, swaps) in
  if (swaps =? 0)%nat then (j, increasingHint)
  else if (swaps =? maxSwaps)%nat then (j, decreasingHint)
  else (j, unknownHint).

(** [reverseRange_func]: [for i < j] runs half the length of the range
    times. *)
Fixpoint reverseRange_loop (n : nat) (data : list A) (i j : nat)
    : list A :=
  match n with
  | 0%nat => data
  | S n' => reverseRange_loop n' (data_Swap data i j) (S i) (j - 1)
  end.

Definition reverseRange_func (data : list A) (a b : nat) : list A :=
  reverseRange_loop ((b - a) / 2) data a (b - 1).

(** [pdqsort_func]: its loop, and the call of itself on the smaller
    side of a partition.  Each round takes one unit of [fuel]. *)
Fixpoint pdqsort_func (fuel : nat) (data : list A) (a b limit : nat)
    (wasBalanced wasPartitioned : bool) : option (list A) :=
  match fuel with
  | 0%nat => None
  | S fuel' =>
      let maxInsertion := 12%nat in
      let length := (b - a)%nat in
      if (length <=? maxInsertion)%nat
      then Some (insertionSort_func data a b)
      else if (limit =? 0)%nat then heapSort_func data a b
      else
        let '(data, limit) :=
          if negb wasBalanced
          then (breakPatterns_func data a b, (limit - 1)%nat)
          else (data, limit) in
        let '(pivot, hint) := choosePivot_func data a b in
        let '(data, pivot, hint) :=
          match hint with
          | decreasingHint =>
              (reverseRange_func data a b, (b - 1 - (pivot - a))%nat,
               increasingHint)
          | _ => (data, pivot, hint)
          end in
        let '(data, sorted) :=
          match hint with
          | increasingHint =>
              if wasBalanced && wasPartitioned
              then partialInsertionSort_func data a b
              else (data, false)
          | _ => (data, false)
          end in
        if sorted then Some data
        else if (0 <? a)%nat && negb (data_Less data (a - 1) pivot)
        then
          match partitionEqual_func data a b pivot with
          | None => None
          | Some (data, mid) =>
              pdqsort_func fuel' data mid b limit wasBalanced
                wasPartitioned
          end
        else
          match partition_func data a b pivot with
          | None => None
          | Some (data, mid, alreadyPartitioned) =>
              let wasPartitioned := alreadyPartitioned in
              let leftLen := (mid - a)%nat in
              let rightLen := (b - mid)%nat in
              let balanceThreshold := (length / 8)%nat in
              if (leftLen <? rightLen)%nat
              then
                let wasBalanced := (balanceThreshold <=? leftLen)%nat in
                match pdqsort_func fuel' data a mid limit true true with
                | None => None
                | Some data =>
                    pdqsort_func fuel' data (mid + 1) b limit wasBalanced
                      wasPartitioned
                end
              else
                let wasBalanced := (balanceThreshold <=? rightLen)%nat in
                match
                  pdqsort_func fuel' data (mid + 1) b limit true true
                with
                | None => None
                | Some data =>
                    pdqsort_func fuel' data a mid limit wasBalanced
                      wasPartitioned
                end
          end
  end.

(** [sort.Slice]: the sorted slice, when the fuel lasts. *)
Definition Slice (data : list A) : option (list A) :=
  let length := length data in
  let limit := bits_Len length in
  pdqsort_func (S length) data 0 length limit true true.

End GoSort.

(** [sort.Slice] as [MatchChannels] calls it. *)
Definition Go_sort_Slice (A : Type) (less : A -> A -> bool) (data : list A)
    : list A :=
  match Slice less data with
  | Some sorted => sorted
  | None => data
  end.

(** [a] comes before [b] in the list. *)
Definition precedes {A : Type} (l : list A) (a b : A) : Prop :=
  exists i j : nat, l !! i = Some a /\ l !! j = Some b /\ (i < j)%nat.

(** What a result says of its channel: all of it but the redirect
    descriptor, which carries a fresh identifier at every call. *)
Definition without_redirect (r : MatchingResult)
    : string * Channel * Q * FeeEstimate * ChannelAvailability
      * ProcessingTime :=
  (ChannelID r, Channel_ r, MatchScore r, EstimatedFees r, Availability r,
   ProcessingTime_ r).

(** [byMatchScore] on what is left of the results. *)
Definition byMatchScore_without_redirect
    (ri rj : string * Channel * Q * FeeEstimate * ChannelAvailability
             * ProcessingTime) : bool :=
  Qgtb (snd (fst (fst (fst ri)))) (snd (fst (fst (fst rj)))).

(** A channel like [channel90] under another identifier. *)
Definition channel90_as (id : string) : Channel :=
  exampleChannel id "dex" false 0 0 true true "+1-555" "instant" false
    [exampleAudit].

(** Thirteen channels: one that scores 0.75, then twelve that score
    0.90. *)
Definition thirteenChannels : list Channel :=
  channel75
  :: map channel90_as
       ["d01"; "d02"; "d03"; "d04"; "d05"; "d06"; "d07"; "d08"; "d09";
        "d10"; "d11"; "d12"].

(** ** float64 as the machine has it *)

(** A decimal constant stands for the float64 nearest to it, as in Go. *)
Set Warnings "-inexact-float".

(** [calculateFeeScore] on IEEE 754 binary64, each operation rounded to
    the nearest value on its own; [taker] and [withdrawalCrypto] are the
    fields [channel.Fees.Trading.Taker] and [channel.Fees.Withdrawal.Crypto]
    the function reads. *)
Definition calculateFeeScore_float64 (taker withdrawalCrypto amount : float)
    : float :=
  let tradingFee := (amount * taker)%float in
  let withdrawalFee := withdrawalCrypto in
  let totalFee := (tradingFee + withdrawalFee)%float in
  let maxFee := (amount * 0.01)%float in
  let minFee := (amount * 0.0001)%float in
  if (totalFee <=? minFee)%float then 1%float
  else if (maxFee <=? totalFee)%float then 0%float
  else (1 - (totalFee - minFee) / (maxFee - minFee))%float.

(** The reference definition of the fee sub-score, evaluated in
    float64. *)
Definition fee_subscore_reference_float64
    (amount takerRate withdrawalFee : float) : float :=
  let total := (amount * takerRate + withdrawalFee)%float in
  let floor := (amount * 0.0001)%float in
  let ceiling := (amount * 0.01)%float in
  if (total <=? floor)%float then 1%float
  else if (ceiling <=? total)%float then 0%float
  else (1 - (total - floor) / (ceiling - floor))%float.

(** The rational number a float64 stands for, when it is finite. *)
Definition float64_value (x : float) : option Q :=
  match Prim2SF x with
  | S754_zero _ => Some 0%Q
  | S754_finite s m e =>
      Some ((if s then -1 else 1) * inject_Z (Z.pos m) * Qpower 2 e)%Q
  | S754_infinity _ | S754_nan => None
  end.


(** * Verification *)

(** ** Comparisons of rationals *)

Lemma Qle_bool_false (x y : Q) : Qle_bool x y = false <-> (y < x)%Q.
Proof.
  split; intros H.
  - apply Qnot_le_lt. intros Hle. apply Qle_bool_iff in Hle. congruence.
  - destruct (Qle_bool x y) eqn:E; [|reflexivity].
    apply Qle_bool_iff in E. apply Qlt_not_le in H. contradiction.
Qed.

Lemma Qgtb_true (x y : Q) : Qgtb x y = true <-> (y < x)%Q.
Proof.
  unfold Qgtb. rewrite negb_true_iff. apply Qle_bool_false.
Qed.

Lemma Qgtb_false (x y : Q) : Qgtb x y = false <-> (x <= y)%Q.
Proof.
  unfold Qgtb. rewrite negb_false_iff. apply Qle_bool_iff.
Qed.

Lemma Qgeb_true (x y : Q) : Qgeb x y = true <-> (y <= x)%Q.
Proof. unfold Qgeb. apply Qle_bool_iff. Qed.

Lemma Qgeb_false (x y : Q) : Qgeb x y = false <-> (x < y)%Q.
Proof. unfold Qgeb. apply Qle_bool_false. Qed.

Lemma fdiv_nonzero (x y : Q) : ~ (y == 0)%Q -> fdiv x y = Ret (x / y)%Q.
Proof.
  intros H. unfold fdiv. destruct (Qeq_bool y 0) eqn:E; [|reflexivity].
  apply Qeq_bool_eq in E. contradiction.
Qed.

Lemma fdiv_zero (x y : Q) : (y == 0)%Q -> fdiv x y = Abort FloatDivByZero.
Proof.
  intros H. unfold fdiv. now rewrite (Qeq_eq_bool _ _ H).
Qed.

Lemma Qdiv_unit_interval (a b : Q) :
  (0 <= a)%Q -> (a <= b)%Q -> (0 < b)%Q -> (0 <= a / b <= 1)%Q.
Proof.
  intros Ha Hab Hb. split.
  - apply Qle_shift_div_l; [assumption|]. lra.
  - apply Qle_shift_div_r; [assumption|]. lra.
Qed.

(** ** The fee sub-score *)

Section FeeScore.

Local Open Scope Q_scope.

Variable channel : Channel.
Variable amount : Q.

Let totalFee : Q :=
  amount * Taker (Trading (Fees channel))
  + Crypto (Withdrawal (Fees channel)).
Let maxFee : Q := amount * 0.01.
Let minFee : Q := amount * 0.0001.

Lemma calculateFeeScore_below :
  totalFee <= minFee -> calculateFeeScore channel amount = Ret 1.
Proof.
  intros H. unfold calculateFeeScore. fold totalFee minFee.
  apply Qle_bool_iff in H. now rewrite H.
Qed.

Lemma calculateFeeScore_above :
  minFee < totalFee -> maxFee <= totalFee ->
  calculateFeeScore channel amount = Ret 0.
Proof.
  intros H1 H2. unfold calculateFeeScore. fold totalFee minFee maxFee.
  apply Qle_bool_false in H1. apply Qgeb_true in H2. now rewrite H1, H2.
Qed.

Lemma calculateFeeScore_between :
  minFee < totalFee -> totalFee < maxFee ->
  calculateFeeScore channel amount
  = Ret (1 - (totalFee - minFee) / (maxFee - minFee)).
Proof.
  intros H1 H2. unfold calculateFeeScore. fold totalFee minFee maxFee.
  assert (Hd : ~ maxFee - minFee == 0) by lra.
  apply Qle_bool_false in H1. apply Qgeb_false in H2.
  rewrite H1, H2, (fdiv_nonzero _ _ Hd). reflexivity.
Qed.

(** The three cases cover every input, so the function always returns,
    and what it returns lies in the unit interval. *)
Lemma calculateFeeScore_total :
  exists v, calculateFeeScore channel amount = Ret v /\ 0 <= v <= 1.
Proof.
  destruct (Qlt_le_dec minFee totalFee) as [H1|H1].
  - destruct (Qlt_le_dec totalFee maxFee) as [H2|H2].
    + eexists. split; [now apply calculateFeeScore_between|].
      destruct (Qdiv_unit_interval (totalFee - minFee) (maxFee - minFee))
        as [Hlo Hhi]; lra.
    + exists 0. split; [now apply calculateFeeScore_above|lra].
  - exists 1. split; [now apply calculateFeeScore_below|lra].
Qed.

End FeeScore.

(** C4 as stated fails on float64.  At amount 10000 and taker rate 0 the
    floor is 1 and the ceiling 100; the withdrawal fees 1 and
    1.0000000000000002 are two different total fees between them, and both
    get the sub-score 1, so the sub-score does not strictly decrease.  At
    the smallest positive amount, 5e-324, with taker rate 0.005 and no
    withdrawal fee, the trading fee and the floor both round to 0 and the
    code answers 1, where the reference definition in exact arithmetic
    gives about 50/99 for the same inputs. *)
Lemma calculateFeeScore_float64_not_exact :
  ((10000 * 0.0001 <=? 10000 * 0 + 1)%float = true
   /\ (10000 * 0 + 1 <? 10000 * 0 + 0x1.0000000000001p0)%float = true
   /\ (10000 * 0 + 0x1.0000000000001p0 <=? 10000 * 0.01)%float = true
   /\ calculateFeeScore_float64 0 1 10000 = 1%float
   /\ calculateFeeScore_float64 0 0x1.0000000000001p0 10000 = 1%float)
  /\ (calculateFeeScore_float64 0.005 0 0x1p-1074 = 1%float
      /\ exists amount taker : Q,
           float64_value 0x1p-1074 = Some amount
           /\ float64_value 0.005 = Some taker
           /\ (0 < amount)%Q
           /\ (0.5 < fee_subscore_reference amount taker 0 < 0.51)%Q).
Proof.
  split.
  - repeat split; vm_compute; reflexivity.
  - split; [vm_compute; reflexivity|].
    eexists _, _.
    split; [vm_compute; reflexivity|]. split; [vm_compute; reflexivity|].
    split; [reflexivity|]. split; vm_compute; reflexivity.
Qed.

(** C4, amended.  On float64 the fee sub-score the code computes is the
    reference definition evaluated in float64, each operation rounded:
    with total fee = amount * taker rate + flat crypto withdrawal fee,
    floor = amount * 0.0001 and ceiling = amount * 0.01, it is 1 when the
    total fee is at most the floor, otherwise 0 when it is at least the
    ceiling, and otherwise 1 - (total - floor) / (ceiling - floor).  It
    agrees with the exact value of the reference up to rounding only: for
    amount 10000, taker rate 0.005 and withdrawal fee 5 it is
    0.45454545454545459, within 2^-54 of 1 - 54/99.  *)
Theorem calculateFeeScore_float64_reference :
  (forall taker withdrawalCrypto amount : float,
     calculateFeeScore_float64 taker withdrawalCrypto amount
     = fee_subscore_reference_float64 amount taker withdrawalCrypto)
  /\ (forall taker withdrawalCrypto amount : float,
        let total := (amount * taker + withdrawalCrypto)%float in
        let floor := (amount * 0.0001)%float in
        let ceiling := (amount * 0.01)%float in
        ((total <=? floor)%float = true ->
         calculateFeeScore_float64 taker withdrawalCrypto amount = 1%float)
        /\ ((total <=? floor)%float = false ->
            (ceiling <=? total)%float = true ->
            calculateFeeScore_float64 taker withdrawalCrypto amount
            = 0%float)
        /\ ((total <=? floor)%float = false ->
            (ceiling <=? total)%float = false ->
            calculateFeeScore_float64 taker withdrawalCrypto amount
            = (1 - (total - floor) / (ceiling - floor))%float))
  /\ calculateFeeScore_float64 0.005 5 10000 = 0.45454545454545459%float
  /\ exists v : Q,
       float64_value (calculateFeeScore_float64 0.005 5 10000) = Some v
       /\ (- (1 # 2 ^ 54) < v - (1 - 54 / 99) < 1 # 2 ^ 54)%Q.
Proof.
  split; [reflexivity|]. split.
  - intros taker withdrawalCrypto amount total floor ceiling.
    unfold calculateFeeScore_float64. fold total floor ceiling.
    repeat split.
    + now intros ->.
    + now intros -> ->.
    + now intros -> ->.
  - split; [vm_compute; reflexivity|].
    eexists. split; [vm_compute; reflexivity|].
    split; vm_compute; reflexivity.
Qed.

(** Scenario B, between floor 1 and ceiling 100. *)
Lemma calculateFeeScore_float64_reference_witness :
  calculateFeeScore_float64 0.005 5 10000
  = (1 - (10000 * 0.005 + 5 - 10000 * 0.0001)
         / (10000 * 0.01 - 10000 * 0.0001))%float.
Proof.
  apply (proj2 (proj2 (proj1 (proj2 calculateFeeScore_float64_reference)
                         0.005 5 10000)%float));
    vm_compute; reflexivity.
Defined.

(** C10. [calculateFeeScore] returns for every amount (so for every
    amount >= 0) without dividing by zero, and what it returns lies in
    [0,1].  When the amount is 0, floor and ceiling are both 0 and the
    guards answer 1 (total fee at most 0) or 0 (total fee above 0).  The
    division is reached only past both guards, where the ceiling is above
    the floor. *)
Theorem calculateFeeScore_total_no_division_by_zero :
  forall (channel : Channel) (amount : Q),
    let total := (amount * Taker (Trading (Fees channel))
                  + Crypto (Withdrawal (Fees channel)))%Q in
    let floor := (amount * 0.0001)%Q in
    let ceiling := (amount * 0.01)%Q in
    exists v,
      calculateFeeScore channel amount = Ret v
      /\ (0 <= v <= 1)%Q
      /\ ((amount == 0)%Q ->
          (floor == 0)%Q /\ (ceiling == 0)%Q
          /\ ((total <= 0)%Q -> v = 1%Q)
          /\ ((0 < total)%Q -> v = 0%Q))
      /\ ((floor < total)%Q -> (total < ceiling)%Q ->
          (floor < ceiling)%Q
          /\ fdiv (total - floor) (ceiling - floor)
             = Ret ((total - floor) / (ceiling - floor))%Q
          /\ v = (1 - (total - floor) / (ceiling - floor))%Q).
Proof.
  intros channel amount total floor ceiling.
  destruct (calculateFeeScore_total channel amount) as (v & Hv & Hrange).
  exists v. split; [assumption|]. split; [assumption|]. split.
  - intros H0.
    assert (Hf : (floor == 0)%Q) by (unfold floor; rewrite H0; reflexivity).
    assert (Hc : (ceiling == 0)%Q)
      by (unfold ceiling; rewrite H0; reflexivity).
    repeat split; try assumption.
    + intros Ht.
      rewrite (calculateFeeScore_below channel amount) in Hv
        by (fold total; fold floor; lra).
      congruence.
    + intros Ht.
      rewrite (calculateFeeScore_above channel amount) in Hv
        by (fold total; fold floor; fold ceiling; lra).
      congruence.
  - intros H1 H2.
    rewrite (calculateFeeScore_between channel amount H1 H2) in Hv.
    split; [lra|]. split; [|injection Hv as <-; reflexivity].
    apply fdiv_nonzero. lra.
Qed.

(** ** The availability sub-score and the availability object *)

Lemma supportedPayment_In (channel : Channel) (request : MatchingRequest) :
  supportedPayment channel request = true
  <-> In (PaymentMethod_ request) (map Method (PaymentMethods channel)).
Proof.
  unfold supportedPayment. rewrite existsb_exists, in_map_iff.
  split; intros (m & H1 & H2); exists m.
  - apply String.eqb_eq in H2. now split.
  - split; [assumption|]. now apply String.eqb_eq.
Qed.

Lemma availability_reference_bounds (k n p : bool) :
  (0 <= availability_subscore_reference k n p <= 1)%Q.
Proof. destruct k, n, p; vm_compute; split; discriminate. Qed.

(** C6. The availability sub-score is 1, less 0.3 when the channel requires
    KYC and the request has no KYC level, less 0.1 when the channel sets a
    positive minimum net worth, less 0.4 when the request's payment method
    is not among the channel's, floored at 0.  The availability object is
    computed on its own: when KYC is required and missing it is not
    available and its reasons contain "KYC verification required"; when the
    payment method is unsupported it is not available and its reasons
    contain "Payment method not supported". *)
Theorem availability_score_and_object :
  forall (channel : Channel) (request : MatchingRequest)
         (kycMissing minimumNetWorthSet paymentUnsupported : bool),
    (kycMissing = true
     <-> KYCRequired (Compliance channel) = true /\ KYCLevel request = "") ->
    (minimumNetWorthSet = true
     <-> (0 < MinimumNetWorth (Compliance channel))%Q) ->
    (paymentUnsupported = true
     <-> ~ In (PaymentMethod_ request)
              (map Method (PaymentMethods channel))) ->
    calculateAvailabilityScore channel request
    = availability_subscore_reference
        kycMissing minimumNetWorthSet paymentUnsupported
    /\ (0 <= calculateAvailabilityScore channel request)%Q
    /\ (kycMissing = true ->
        Available (checkChannelAvailability channel request) = false
        /\ In "KYC verification required"
              (Reasons (checkChannelAvailability channel request)))
    /\ (paymentUnsupported = true ->
        Available (checkChannelAvailability channel request) = false
        /\ In "Payment method not supported"
              (Reasons (checkChannelAvailability channel request)))
    /\ (kycMissing = false -> paymentUnsupported = false ->
        checkChannelAvailability channel request
        = {| Available := true; Reasons := [] |}).
Proof.
  intros channel request k n p Hk Hn Hp.
  assert (Ek : KYCRequired (Compliance channel)
               && String.eqb (KYCLevel request) "" = k).
  { destruct k.
    - destruct (proj1 Hk eq_refl) as [-> ->]. reflexivity.
    - destruct (KYCRequired (Compliance channel)) eqn:E1; [|reflexivity].
      destruct (String.eqb (KYCLevel request) "") eqn:E2; [|reflexivity].
      apply String.eqb_eq in E2. symmetry. apply Hk. now split. }
  assert (En : Qgtb (MinimumNetWorth (Compliance channel)) 0 = n).
  { destruct n.
    - apply Qgtb_true, Hn. reflexivity.
    - destruct (Qgtb _ 0) eqn:E; [|reflexivity].
      apply Qgtb_true in E. symmetry. now apply Hn. }
  assert (Ep : negb (supportedPayment channel request) = p).
  { destruct p.
    - apply negb_true_iff.
      destruct (supportedPayment channel request) eqn:E; [|reflexivity].
      apply supportedPayment_In in E. now destruct (proj1 Hp eq_refl).
    - apply negb_false_iff.
      destruct (supportedPayment channel request) eqn:E; [reflexivity|].
      apply Hp. intros HIn. apply supportedPayment_In in HIn.
      congruence. }
  assert (Hscore : calculateAvailabilityScore channel request
                   = availability_subscore_reference k n p).
  { unfold calculateAvailabilityScore. rewrite Ek, En, Ep.
    destruct k, n, p; reflexivity. }
  split; [assumption|]. split.
  { rewrite Hscore. apply availability_reference_bounds. }
  unfold checkChannelAvailability. rewrite Ek, Ep.
  split; [|split].
  - intros ->. destruct p; simpl; auto.
  - intros ->. destruct k; simpl; auto.
  - intros -> ->. reflexivity.
Qed.

(** Scenario A: the KYC channel and a request without a KYC level. *)
Lemma availability_score_and_object_witness :
  calculateAvailabilityScore channelKYC requestNoKYC = (1 - 0.3)%Q
  /\ Available (checkChannelAvailability channelKYC requestNoKYC) = false
  /\ In "KYC verification required"
        (Reasons (checkChannelAvailability channelKYC requestNoKYC)).
Proof.
  destruct (availability_score_and_object channelKYC requestNoKYC
              true false false) as (Hs & _ & Hk & _).
  - split; [intros _; split; reflexivity | reflexivity].
  - split; [discriminate | intros H; vm_compute in H; discriminate].
  - split; [discriminate|]. intros H. exfalso. apply H. vm_compute. auto.
  - split; [exact Hs | exact (Hk eq_refl)].
Defined.

(** ** The sub-scores and the match score *)

Lemma calculateAvailabilityScore_bounds (channel : Channel)
    (request : MatchingRequest) :
  (0 <= calculateAvailabilityScore channel request <= 1)%Q.
Proof.
  unfold calculateAvailabilityScore.
  destruct (KYCRequired (Compliance channel) && _),
    (Qgtb (MinimumNetWorth (Compliance channel)) 0),
    (negb (supportedPayment channel request));
    vm_compute; split; discriminate.
Qed.

Lemma calculateUXScore_bounds (channel : Channel) (request : MatchingRequest) :
  (0 <= calculateUXScore channel request <= 1)%Q.
Proof.
  unfold calculateUXScore.
  destruct (hasTradingAPI channel), (Chat (Support channel)),
    (negb (String.eqb (Phone (Support channel)) "")),
    (String.eqb (ResponseTime (Support channel)) "instant"),
    (String.eqb (ResponseTime (Support channel)) "1hour");
    vm_compute; split; discriminate.
Qed.

Lemma calculateSecurityScore_bounds (channel : Channel) :
  (0 <= calculateSecurityScore channel <= 1)%Q.
Proof.
  unfold calculateSecurityScore.
  destruct (Insurance_ (Security channel)) as [insurance|];
    [destruct (Qgtb (Coverage insurance) 0)|];
    destruct (Segregation (Custody (Security channel))),
      (0 <? length (Audits (Security channel)))%nat;
    vm_compute; split; discriminate.
Qed.

Lemma calculateLiquidityScore_bounds (channel : Channel) (assetID : string)
    (amount : Q) :
  (0 <= calculateLiquidityScore channel assetID amount <= 1)%Q.
Proof.
  unfold calculateLiquidityScore.
  destruct (String.eqb (Type_ channel) "exchange"),
    (String.eqb (Type_ channel) "broker"),
    (String.eqb (Type_ channel) "dex");
    vm_compute; split; discriminate.
Qed.

Lemma weights_sum :
  (weight_fee + weight_availability + weight_ux + weight_security
   + weight_liquidity == 1)%Q.
Proof. reflexivity. Qed.

Lemma weighted_score_bounds (channel : Channel) (request : MatchingRequest)
    (feeScore : Q) :
  (0 <= feeScore <= 1)%Q ->
  (0 <= weighted_score channel request feeScore <= 1)%Q.
Proof.
  intros Hfee.
  pose proof (calculateAvailabilityScore_bounds channel request).
  pose proof (calculateUXScore_bounds channel request).
  pose proof (calculateSecurityScore_bounds channel).
  pose proof (calculateLiquidityScore_bounds channel (AssetID request)
                (Amount request)).
  unfold weighted_score, weight_fee, weight_availability, weight_ux,
    weight_security, weight_liquidity.
  lra.
Qed.

Section MatchingRuns.

Variable config : Config.
Variable uuid_New : nat -> string.

Lemma generateRedirectInfo_run (channel : Channel)
    (request : MatchingRequest) (w : World) :
  exists info,
    generateRedirectInfo config uuid_New channel request w
    = Ret (info, issued uuid_New request info w)
    /\ param_redirect_id (Parameters info) = uuid_New (uuids w).
Proof.
  unfold generateRedirectInfo, cacheRedirectInfo, uuid_New_String,
    time_Now, redis_Set, st_bind, st_ret, set_redis, issued.
  cbn [redis db clock uuids].
  eexists. split; reflexivity.
Qed.

Lemma calculateChannelMatch_run (channel : Channel)
    (request : MatchingRequest) (w : World) :
  exists r,
    calculateChannelMatch config uuid_New channel request w
    = Ret (r, issued uuid_New request (RedirectInfo_ r) w)
    /\ match_of channel request (uuid_New (uuids w)) r.
Proof.
  destruct (calculateFeeScore_total channel (Amount request))
    as (fee & Hfee & _).
  destruct (generateRedirectInfo_run channel request w)
    as (info & Hinfo & Hid).
  unfold calculateChannelMatch, st_bind, lift. rewrite Hfee.
  cbn [run_bind].
  rewrite fdiv_nonzero by (intros H; vm_compute in H; discriminate).
  cbn [run_bind]. rewrite Hinfo. unfold st_ret.
  eexists (Build_MatchingResult _ _ _ _ _ _ _). split; [reflexivity|].
  repeat split; cbn [RedirectInfo_ MatchScore]; try assumption.
  exists fee. split; [assumption|].
  unfold weighted_score, weight_fee, weight_availability, weight_ux,
    weight_security, weight_liquidity.
  field.
Qed.

Lemma scoreAll_run (channels : list Channel) (request : MatchingRequest)
    (w : World) :
  exists rs,
    scoreAll config uuid_New channels request w
    = Ret (rs, issue_all uuid_New request rs w)
    /\ length rs = length channels
    /\ forall (i : nat) (channel : Channel),
         channels !! i = Some channel ->
         exists r,
           rs !! i = Some r
           /\ match_of channel request (uuid_New (uuids w + i)) r.
Proof.
  revert w. induction channels as [|channel channels IH]; intros w.
  - exists []. repeat split. intros i channel H. discriminate.
  - destruct (calculateChannelMatch_run channel request w)
      as (r & Hr & Hmatch).
    destruct (IH (issued uuid_New request (RedirectInfo_ r) w))
      as (rs & Hrs & Hlen & Hall).
    exists (r :: rs). split; [|split].
    + cbn [scoreAll]. unfold st_bind. rewrite Hr, Hrs. reflexivity.
    + simpl. now rewrite Hlen.
    + intros [|i] channel' Hi.
      * injection Hi as <-. exists r. split; [reflexivity|].
        now rewrite Nat.add_0_r.
      * destruct (Hall i channel' Hi) as (r' & Hr' & Hmatch').
        exists r'. split; [assumption|].
        cbn [issued uuids] in Hmatch'.
        now rewrite Nat.add_succ_r.
Qed.

Lemma scoreChannels_scoreAll (channels : list Channel)
    (request : MatchingRequest) (results rs : list MatchingResult)
    (w w' : World) :
  scoreAll config uuid_New channels request w = Ret (rs, w') ->
  scoreChannels config uuid_New channels request results w
  = Ret (results ++ List.filter (passes config) rs, w').
Proof.
  revert results rs w.
  induction channels as [|channel channels IH]; intros results rs w.
  - cbn. intros [= <- <-]. now rewrite app_nil_r.
  - cbn [scoreAll scoreChannels]. unfold st_bind at 1 3.
    destruct (calculateChannelMatch config uuid_New channel request w)
      as [[r w1]|e]; [|discriminate].
    unfold st_bind.
    destruct (scoreAll config uuid_New channels request w1)
      as [[rs' w2]|e] eqn:Hrs'; [|discriminate].
    intros [= <- <-].
    rewrite (IH _ _ _ Hrs'). cbn [List.filter].
    destruct (passes config r); [|reflexivity].
    now rewrite <- app_assoc.
Qed.

(** The effect of the issued descriptors on the world. *)

Lemma issue_all_uuids (request : MatchingRequest)
    (rs : list MatchingResult) (w : World) :
  uuids (issue_all uuid_New request rs w) = (uuids w + length rs)%nat.
Proof.
  revert w. induction rs as [|r rs IH]; intros w; cbn.
  - now rewrite Nat.add_0_r.
  - unfold issue_all in IH. rewrite IH. cbn. lia.
Qed.

Lemma issue_all_clock_db (request : MatchingRequest)
    (rs : list MatchingResult) (w : World) :
  clock (issue_all uuid_New request rs w) = clock w
  /\ db (issue_all uuid_New request rs w) = db w.
Proof.
  revert w. induction rs as [|r rs IH]; intros w; cbn; [now split|].
  unfold issue_all in IH. destruct (IH (issued uuid_New request
    (RedirectInfo_ r) w)) as [-> ->]. now split.
Qed.

Lemma issue_all_lookup_other (request : MatchingRequest)
    (rs : list MatchingResult) (w : World) (key : string) :
  (forall i : nat,
     (i < length rs)%nat -> key <> "redirect:" +:+ uuid_New (uuids w + i)) ->
  redis (issue_all uuid_New request rs w) !! key = redis w !! key.
Proof.
  revert w. induction rs as [|r rs IH]; intros w Hkey; [reflexivity|].
  cbn. unfold issue_all in IH. rewrite IH.
  - cbn [issued redis]. rewrite lookup_insert_ne; [reflexivity|].
    intros Heq. apply (Hkey 0%nat); [simpl; lia|].
    now rewrite Nat.add_0_r.
  - intros i Hi. cbn [issued uuids].
    replace (S (uuids w) + i)%nat with (uuids w + S i)%nat by lia.
    apply Hkey. simpl. lia.
Qed.

Lemma issue_all_lookup (request : MatchingRequest)
    (rs : list MatchingResult) (w : World) (i : nat) (r : MatchingResult) :
  Inj (=) (=) uuid_New ->
  rs !! i = Some r ->
  redis (issue_all uuid_New request rs w)
    !! ("redirect:" +:+ uuid_New (uuids w + i))
  = Some (stored_redirect request (clock w) r).
Proof.
  intros Hinj. revert w i.
  induction rs as [|r0 rs IH]; intros w i Hi; [discriminate|].
  destruct i as [|i].
  - injection Hi as ->. cbn. fold (issue_all uuid_New request rs
      (issued uuid_New request (RedirectInfo_ r) w)).
    rewrite issue_all_lookup_other.
    + rewrite Nat.add_0_r. cbn [issued redis].
      now rewrite lookup_insert_eq.
    + intros j _ Heq. apply String.app_inj, Hinj in Heq.
      cbn [issued uuids] in Heq. lia.
  - cbn. fold (issue_all uuid_New request rs
      (issued uuid_New request (RedirectInfo_ r0) w)).
    replace (uuids w + S i)%nat
      with (uuids (issued uuid_New request (RedirectInfo_ r0) w) + i)%nat
      by (cbn; lia).
    rewrite (IH _ _ Hi). reflexivity.
Qed.

End MatchingRuns.

(** ** Sorting *)

Lemma byMatchScore_strict_weak_order : strict_weak_order byMatchScore.
Proof.
  unfold byMatchScore. repeat split.
  - intros x. apply Qgtb_false, Qle_refl.
  - intros x y z H1 H2. apply Qgtb_true in H1, H2. apply Qgtb_true. lra.
  - intros x y z H1 H2. apply Qgtb_false in H1, H2. apply Qgtb_false. lra.
Qed.

Lemma byMatchScore_sorted (l : list MatchingResult) :
  StronglySorted (fun x y => byMatchScore y x = false) l
  <-> StronglySorted score_ge l.
Proof.
  induction l as [|x l IH].
  - split; constructor.
  - rewrite !StronglySorted_cons, IH. apply and_iff_compat_r.
    rewrite !Forall_forall. unfold score_ge, byMatchScore.
    split; intros H y Hy; apply Qgtb_false; now apply H.
Qed.

Lemma StronglySorted_take {A : Type} (R : A -> A -> Prop) (n : nat)
    (l : list A) :
  StronglySorted R l -> StronglySorted R (take n l).
Proof.
  intros H. rewrite <- (take_drop n l) in H.
  now apply StronglySorted_app_1_l in H.
Qed.

Section InsertionSort.

Context {A : Type}.
Variable less : A -> A -> bool.
Variable pass : A -> A -> bool.
Hypothesis less_swo : strict_weak_order less.

(** [x] only moves in front of a neighbour that is not less than it, and
    only stays behind one it is not less than. *)
Hypothesis pass_true : forall x y, pass x y = true -> less y x = false.
Hypothesis pass_false : forall x y, pass x y = false -> less x y = false.

(** The reversed prefix holds later elements first. *)
Let later_first (a b : A) : Prop := less a b = false.

Lemma insert_by_Permutation (x : A) (rp : list A) :
  Permutation (x :: rp) (insert_by pass x rp).
Proof.
  induction rp as [|y rp IH]; cbn; [reflexivity|].
  destruct (pass x y); [|reflexivity].
  rewrite <- IH. apply perm_swap.
Qed.

Lemma insert_by_sorted (x : A) (rp : list A) :
  StronglySorted later_first rp ->
  StronglySorted later_first (insert_by pass x rp).
Proof.
  destruct less_swo as (_ & _ & Hneg).
  induction rp as [|y rp IH]; intros Hs; cbn.
  - repeat constructor.
  - apply StronglySorted_cons in Hs as [Hy Hs].
    destruct (pass x y) eqn:E.
    + apply StronglySorted_cons. split; [|now apply IH].
      rewrite <- (insert_by_Permutation x rp).
      constructor; [now apply pass_true|assumption].
    + apply StronglySorted_cons. split.
      * constructor; [now apply pass_false|].
        rewrite Forall_forall in Hy |- *. intros z Hz.
        apply (Hneg x y z); [now apply pass_false|now apply Hy].
      * now apply StronglySorted_cons.
Qed.

Lemma insertion_fold (s rp : list A) :
  StronglySorted later_first rp ->
  Permutation (rev s ++ rp) (fold_left (fun rp x => insert_by pass x rp) s rp)
  /\ StronglySorted later_first
       (fold_left (fun rp x => insert_by pass x rp) s rp).
Proof.
  revert rp. induction s as [|x s IH]; intros rp Hs; cbn.
  - now split.
  - destruct (IH (insert_by pass x rp) (insert_by_sorted x rp Hs))
      as [Hperm Hsorted].
    split; [|assumption].
    rewrite <- Hperm, <- insert_by_Permutation, <- app_assoc.
    reflexivity.
Qed.

Lemma StronglySorted_rev_later_first (l : list A) :
  StronglySorted later_first l ->
  StronglySorted (fun x y => less y x = false) (rev l).
Proof.
  induction l as [|x l IH]; intros Hs; cbn; [constructor|].
  apply StronglySorted_cons in Hs as [Hx Hs].
  apply StronglySorted_app. repeat split.
  - intros y z Hy Hz. apply list_elem_of_In in Hy, Hz.
    destruct Hz as [<-|[]]. apply in_rev, list_elem_of_In in Hy.
    rewrite Forall_forall in Hx. now apply Hx.
  - now apply IH.
  - repeat constructor.
Qed.

Lemma insertion_sort_by_contract (s : list A) :
  Permutation s (insertion_sort_by pass s)
  /\ StronglySorted (fun x y => less y x = false) (insertion_sort_by pass s).
Proof.
  unfold insertion_sort_by.
  destruct (insertion_fold s []) as [Hperm Hsorted]; [constructor|].
  split.
  - rewrite <- Permutation_rev, <- Hperm, app_nil_r.
    apply Permutation_rev.
  - now apply StronglySorted_rev_later_first.
Qed.

End InsertionSort.

Lemma less_asymmetric {A : Type} (less : A -> A -> bool) (x y : A) :
  strict_weak_order less -> less x y = true -> less y x = false.
Proof.
  intros (Hirr & Htrans & _) Hxy.
  destruct (less y x) eqn:Hyx; [|reflexivity].
  rewrite <- (Hirr x). symmetry. now apply (Htrans x y x).
Qed.

Lemma insertionSort_contract : sort_Slice_contract insertionSort.
Proof.
  intros A less s Hswo. unfold insertionSort.
  apply (insertion_sort_by_contract less); [assumption| |].
  - intros x y H. now apply less_asymmetric.
  - intros x y H. exact H.
Qed.

(** ** [MatchChannels] *)

Section MatchChannelsRuns.

Variable config : Config.
Variable uuid_New : nat -> string.
Variable sort_Slice : forall A : Type, (A -> A -> bool) -> list A -> list A.

Variable request : MatchingRequest.
Variables (w w1 w2 : World) (channels : list Channel).
Variable scored : list MatchingResult.

Hypothesis eligible_channels :
  getEligibleChannels (AssetID request) (UserRegion request) w
  = Ret (Ok channels, w1).
Hypothesis some_channel : channels <> [].
Hypothesis all_scored :
  scoreAll config uuid_New channels request w1 = Ret (scored, w2).

Let sorted : list MatchingResult :=
  sort_Slice _ byMatchScore (List.filter (passes config) scored).

(** With a max-results count that is not negative the call returns the
    first candidates of the sorted slice. *)
Lemma MatchChannels_run :
  (0 <= MaxMatchingResults config)%Z ->
  MatchChannels config uuid_New sort_Slice request w
  = Ret (Ok (take (Z.to_nat (MaxMatchingResults config)) sorted), w2).
Proof.
  intros Hmax. unfold MatchChannels, st_bind at 1.
  rewrite eligible_channels.
  destruct channels as [|c cs] eqn:Hcs; [contradiction|].
  cbn [length Nat.eqb]. unfold st_bind at 1.
  rewrite (scoreChannels_scoreAll _ _ _ _ [] _ _ _ all_scored).
  cbn [app]. fold sorted.
  destruct (MaxMatchingResults config <? Z.of_nat (length sorted))%Z
    eqn:Hlen.
  - apply Z.ltb_lt in Hlen. unfold st_bind, lift, slice_to.
    replace (MaxMatchingResults config <? 0)%Z with false
      by (symmetry; apply Z.ltb_ge; lia).
    replace (Z.of_nat (length sorted) <? MaxMatchingResults config)%Z
      with false by (symmetry; apply Z.ltb_ge; lia).
    reflexivity.
  - apply Z.ltb_ge in Hlen. unfold st_ret.
    rewrite take_ge by lia. reflexivity.
Qed.

(** A negative count makes the slice expression panic. *)
Lemma MatchChannels_negative_count :
  (MaxMatchingResults config < 0)%Z ->
  MatchChannels config uuid_New sort_Slice request w
  = Abort SliceBoundsOutOfRange.
Proof.
  intros Hmax. unfold MatchChannels, st_bind at 1.
  rewrite eligible_channels.
  destruct channels as [|c cs] eqn:Hcs; [contradiction|].
  cbn [length Nat.eqb]. unfold st_bind at 1.
  rewrite (scoreChannels_scoreAll _ _ _ _ [] _ _ _ all_scored).
  cbn [app]. fold sorted.
  replace (MaxMatchingResults config <? Z.of_nat (length sorted))%Z
    with true by (symmetry; apply Z.ltb_lt; lia).
  unfold st_bind, lift, slice_to.
  replace (MaxMatchingResults config <? 0)%Z with true
    by (symmetry; apply Z.ltb_lt; lia).
  reflexivity.
Qed.

Hypothesis contract : sort_Slice_contract sort_Slice.

Lemma sorted_Permutation :
  Permutation (List.filter (passes config) scored) sorted.
Proof. apply contract, byMatchScore_strict_weak_order. Qed.

Lemma sorted_StronglySorted : StronglySorted score_ge sorted.
Proof.
  apply byMatchScore_sorted, contract, byMatchScore_strict_weak_order.
Qed.

Lemma In_sorted (r : MatchingResult) :
  In r sorted
  <-> In r scored /\ (MinMatchingScore config <= MatchScore r)%Q.
Proof.
  rewrite <- (Qgeb_true (MatchScore r)). fold (passes config r).
  rewrite <- filter_In. split; apply Permutation_in.
  - symmetry. apply sorted_Permutation.
  - apply sorted_Permutation.
Qed.

End MatchChannelsRuns.

Lemma In_take {A : Type} (n : nat) (l : list A) (x : A) :
  In x (take n l) -> In x l.
Proof.
  intros H. rewrite <- (take_drop n l). apply in_or_app. now left.
Qed.

Lemma getEligibleChannels_miss (assetID userRegion : string)
    (table : list Channel) :
  getEligibleChannels assetID userRegion (exampleWorld table)
  = Ret (Ok (List.filter (eligible assetID userRegion) table),
         set_redis
           (insert ("eligible_channels:" +:+ assetID +:+ ":" +:+ userRegion)
              (RChannels (List.filter (eligible assetID userRegion) table)))
           (exampleWorld table)).
Proof. reflexivity. Qed.

(** C2. For a request whose eligible channel set is not empty,
    [MatchChannels] returns the scored candidates with matchScore >= the
    configured minimum, sorted by non-increasing matchScore and cut to the
    configured count: the list is the first max-results elements of a
    sorted arrangement of exactly those candidates, so it is itself
    sorted, at most max-results long, holds only such candidates and holds
    all of them when they fit.  (The count is taken as configured; under a
    negative one the slice expression panics and no list is returned.)
    The defaults are 0.6 and 10.  For three channels scored 0.75, 0.55 and
    0.90 under the defaults the result is the 0.90 channel followed by the
    0.75 channel. *)
Theorem MatchChannels_filtered_sorted_truncated :
  forall sort_Slice : forall A : Type, (A -> A -> bool) -> list A -> list A,
    sort_Slice_contract sort_Slice ->
    (forall (config : Config) (uuid_New : nat -> string)
            (request : MatchingRequest) (w w1 : World)
            (channels : list Channel),
       getEligibleChannels (AssetID request) (UserRegion request) w
       = Ret (Ok channels, w1) ->
       channels <> [] ->
       ((0 <= MaxMatchingResults config)%Z ->
        exists (scored sorted results : list MatchingResult) (w' : World),
          scoreAll config uuid_New channels request w1 = Ret (scored, w')
          /\ MatchChannels config uuid_New sort_Slice request w
             = Ret (Ok results, w')
          /\ Permutation (List.filter (passes config) scored) sorted
          /\ StronglySorted score_ge sorted
          /\ results = take (Z.to_nat (MaxMatchingResults config)) sorted
          /\ StronglySorted score_ge results
          /\ (Z.of_nat (length results) <= MaxMatchingResults config)%Z
          /\ (forall r, In r results ->
                In r scored /\ (MinMatchingScore config <= MatchScore r)%Q)
          /\ ((Z.of_nat (length (List.filter (passes config) scored))
               <= MaxMatchingResults config)%Z ->
              Permutation (List.filter (passes config) scored) results))
       /\ ((MaxMatchingResults config < 0)%Z ->
           MatchChannels config uuid_New sort_Slice request w
           = Abort SliceBoundsOutOfRange))
    /\ (MinMatchingScore setDefaults == 0.6)%Q
    /\ MaxMatchingResults setDefaults = 10%Z
    /\ (exists (r75 r55 r90 : MatchingResult) (w1 w' : World),
          scoreAll setDefaults uuid_seq [channel75; channel55; channel90]
            exampleRequest w1 = Ret ([r75; r55; r90], w')
          /\ (MatchScore r75 == 0.75)%Q
          /\ (MatchScore r55 == 0.55)%Q
          /\ (MatchScore r90 == 0.90)%Q
          /\ MatchChannels setDefaults uuid_seq sort_Slice exampleRequest
               (exampleWorld [channel75; channel55; channel90])
             = Ret (Ok [r90; r75], w')).
Proof.
  intros sort_Slice contract. split; [|split; [|split]].
  - intros config uuid_New request w w1 channels Helig Hne.
    destruct (scoreAll_run config uuid_New channels request w1)
      as (scored & Hscored & _).
    set (w' := issue_all uuid_New request scored w1) in *.
    split.
    2: { now apply (MatchChannels_negative_count config uuid_New sort_Slice
                      request w w1 w' channels scored). }
    intros Hmax.
    set (sorted := sort_Slice _ byMatchScore
                     (List.filter (passes config) scored)).
    pose proof (sorted_Permutation config sort_Slice scored contract)
      as Hperm.
    pose proof (sorted_StronglySorted config sort_Slice scored contract)
      as Hsorted.
    fold sorted in Hperm, Hsorted.
    exists scored, sorted,
      (take (Z.to_nat (MaxMatchingResults config)) sorted), w'.
    split; [assumption|]. split.
    { now apply (MatchChannels_run config uuid_New sort_Slice request
                   w w1 w' channels scored). }
    split; [assumption|]. split; [assumption|]. split; [reflexivity|].
    split; [now apply StronglySorted_take|]. split.
    { rewrite length_take. lia. }
    split.
    { intros r Hr. apply In_take in Hr.
      now apply (In_sorted config sort_Slice scored contract). }
    intros Hfit. rewrite take_ge; [assumption|].
    rewrite <- (Permutation_length Hperm). lia.
  - reflexivity.
  - reflexivity.
  - pose proof (getEligibleChannels_miss "asset-1" "US"
                  [channel75; channel55; channel90]) as Helig.
    change (List.filter (eligible "asset-1" "US")
              [channel75; channel55; channel90])
      with [channel75; channel55; channel90] in Helig.
    match type of Helig with _ = Ret (_, ?w) => set (w1 := w) in * end.
    destruct (scoreAll setDefaults uuid_seq
                [channel75; channel55; channel90] exampleRequest w1)
      as [[scored w']|e] eqn:Hscored.
    2: { vm_compute in Hscored. discriminate. }
    pose proof Hscored as Hnf. vm_compute in Hnf.
    injection Hnf as Hnf _.
    destruct scored as [|r75 [|r55 [|r90 [|? ?]]]]; try discriminate.
    injection Hnf as H75 H55 H90.
    assert (Hs75 : (MatchScore r75 == 0.75)%Q) by now subst r75.
    assert (Hs55 : (MatchScore r55 == 0.55)%Q) by now subst r55.
    assert (Hs90 : (MatchScore r90 == 0.90)%Q) by now subst r90.
    exists r75, r55, r90, w1, w'.
    split; [assumption|]. do 3 (split; [assumption|]).
    rewrite (MatchChannels_run setDefaults uuid_seq sort_Slice exampleRequest
               _ w1 w' _ _ Helig ltac:(discriminate) Hscored
               ltac:(discriminate)).
    assert (Hfilter : List.filter (passes setDefaults) [r75; r55; r90]
                      = [r75; r90]).
    { cbn [List.filter]. unfold passes.
      rewrite (proj2 (Qgeb_true (MatchScore r75) _))
        by (rewrite Hs75; discriminate).
      rewrite (proj2 (Qgeb_false (MatchScore r55) _))
        by (rewrite Hs55; reflexivity).
      rewrite (proj2 (Qgeb_true (MatchScore r90) _))
        by (rewrite Hs90; discriminate).
      reflexivity. }
    rewrite Hfilter.
    destruct (contract _ byMatchScore [r75; r90]
                byMatchScore_strict_weak_order) as [Hperm Hsorted].
    apply Permutation_length_2_inv in Hperm as [Heq|Heq]; rewrite Heq in *.
    + apply StronglySorted_cons in Hsorted as [Hhead _].
      apply Forall_cons in Hhead as [Hless _].
      apply Qgtb_false in Hless. rewrite Hs75, Hs90 in Hless.
      now apply Qle_bool_iff in Hless.
    + reflexivity.
Qed.

(** The theorem at the insertion sort, the defaults and the world of the
    three channels. *)
Lemma MatchChannels_filtered_sorted_truncated_witness :
  exists (scored sorted results : list MatchingResult) (w' : World),
    scoreAll setDefaults uuid_seq [channel75; channel55; channel90]
      exampleRequest
      (set_redis
         (insert ("eligible_channels:" +:+ "asset-1" +:+ ":" +:+ "US")
            (RChannels [channel75; channel55; channel90]))
         (exampleWorld [channel75; channel55; channel90]))
    = Ret (scored, w')
    /\ MatchChannels setDefaults uuid_seq insertionSort exampleRequest
         (exampleWorld [channel75; channel55; channel90])
       = Ret (Ok results, w')
    /\ Permutation (List.filter (passes setDefaults) scored) sorted
    /\ StronglySorted score_ge sorted
    /\ results = take (Z.to_nat (MaxMatchingResults setDefaults)) sorted
    /\ StronglySorted score_ge results
    /\ (Z.of_nat (length results) <= MaxMatchingResults setDefaults)%Z
    /\ (forall r, In r results ->
          In r scored /\ (MinMatchingScore setDefaults <= MatchScore r)%Q)
    /\ ((Z.of_nat (length (List.filter (passes setDefaults) scored))
         <= MaxMatchingResults setDefaults)%Z ->
        Permutation (List.filter (passes setDefaults) scored) results).
Proof.
  apply (proj1 (MatchChannels_filtered_sorted_truncated insertionSort
                  insertionSort_contract)
           setDefaults uuid_seq exampleRequest
           (exampleWorld [channel75; channel55; channel90])
           _ [channel75; channel55; channel90]).
  - reflexivity.
  - discriminate.
  - discriminate.
Defined.

(** What a call that returns a list went through. *)

Lemma getEligibleChannels_frame (assetID userRegion : string) (w : World) :
  exists (got : result (list Channel)) (w1 : World),
    getEligibleChannels assetID userRegion w = Ret (got, w1)
    /\ clock w1 = clock w /\ uuids w1 = uuids w /\ db w1 = db w
    /\ forall key : string,
         key <> "eligible_channels:" +:+ assetID +:+ ":" +:+ userRegion ->
         redis w1 !! key = redis w !! key.
Proof.
  unfold getEligibleChannels, st_bind, redis_Get.
  destruct (redis w !! _) as [[cs|r|n|x|l]|];
    [ eexists _, _; split; [reflexivity|]; now repeat split | .. ];
    (destruct (db w) as [table|err] eqn:Hdb;
     [ eexists _, _; split; [reflexivity|]; cbn; rewrite Hdb;
       repeat split; intros key Hkey; now rewrite lookup_insert_ne
     | eexists _, _; split; [reflexivity|]; now repeat split ]).
Qed.

Lemma MatchChannels_Ok_inv (config : Config) (uuid_New : nat -> string)
    (sort_Slice : forall A : Type, (A -> A -> bool) -> list A -> list A)
    (request : MatchingRequest) (w w' : World)
    (results : list MatchingResult) :
  MatchChannels config uuid_New sort_Slice request w = Ret (Ok results, w') ->
  exists (channels : list Channel) (w1 : World)
         (scored : list MatchingResult),
    getEligibleChannels (AssetID request) (UserRegion request) w
    = Ret (Ok channels, w1)
    /\ channels <> []
    /\ scoreAll config uuid_New channels request w1 = Ret (scored, w')
    /\ w' = issue_all uuid_New request scored w1
    /\ (0 <= MaxMatchingResults config)%Z
    /\ results
       = take (Z.to_nat (MaxMatchingResults config))
           (sort_Slice _ byMatchScore (List.filter (passes config) scored)).
Proof.
  intros Hrun.
  destruct (getEligibleChannels_frame (AssetID request) (UserRegion request) w)
    as (got & w1 & Hgot & _).
  destruct got as [channels|err].
  2: { unfold MatchChannels, st_bind in Hrun. rewrite Hgot in Hrun.
       discriminate. }
  destruct channels as [|c cs].
  { unfold MatchChannels, st_bind in Hrun. rewrite Hgot in Hrun.
    discriminate. }
  destruct (scoreAll_run config uuid_New (c :: cs) request w1)
    as (scored & Hscored & _).
  exists (c :: cs), w1, scored.
  destruct (Z_lt_le_dec (MaxMatchingResults config) 0) as [Hneg|Hmax].
  - rewrite (MatchChannels_negative_count config uuid_New sort_Slice request
               w w1 _ (c :: cs) scored Hgot ltac:(discriminate) Hscored Hneg)
      in Hrun.
    discriminate.
  - rewrite (MatchChannels_run config uuid_New sort_Slice request
               w w1 _ (c :: cs) scored Hgot ltac:(discriminate) Hscored Hmax)
      in Hrun.
    injection Hrun as <- <-.
    repeat split; (assumption || discriminate || reflexivity).
Qed.

Lemma In_scored_match_of (config : Config) (uuid_New : nat -> string)
    (channels : list Channel) (request : MatchingRequest) (w w' : World)
    (scored : list MatchingResult) (r : MatchingResult) :
  scoreAll config uuid_New channels request w = Ret (scored, w') ->
  In r scored ->
  exists (i : nat) (channel : Channel),
    channels !! i = Some channel
    /\ scored !! i = Some r
    /\ match_of channel request (uuid_New (uuids w + i)) r.
Proof.
  intros Hscored Hr.
  destruct (scoreAll_run config uuid_New channels request w)
    as (rs & Hrs & Hlen & Hall).
  rewrite Hrs in Hscored. injection Hscored as -> _.
  apply list_elem_of_In, list_elem_of_lookup in Hr as [i Hi].
  assert (Hlt : (i < length channels)%nat).
  { rewrite <- Hlen. now apply lookup_lt_Some in Hi. }
  apply lookup_lt_is_Some in Hlt as [channel Hc].
  destruct (Hall i channel Hc) as (r' & Hr' & Hmatch).
  rewrite Hi in Hr'. injection Hr' as <-.
  now exists i, channel.
Qed.

(** ** Availability and the returned list *)

(** The KYC channel, asked by a user without a KYC level, is scored above
    the default minimum and returned, marked unavailable. *)
Lemma KYC_channel_run :
  exists (r : MatchingResult) (w' : World),
    MatchChannels setDefaults uuid_seq insertionSort requestNoKYC
      (exampleWorld [channelKYC])
    = Ret (Ok [r], w')
    /\ Channel_ r = channelKYC
    /\ (MinMatchingScore setDefaults <= MatchScore r)%Q
    /\ Available (Availability r) = false
    /\ Reasons (Availability r) = ["KYC verification required"].
Proof.
  eexists _, _. split; [vm_compute; reflexivity|].
  repeat split. vm_compute. discriminate.
Qed.

(** C1 as stated fails: a result with availability.available == false is
    in the list [MatchChannels] returns. *)
Lemma MatchChannels_returns_unavailable_result :
  exists (r : MatchingResult) (w' : World),
    MatchChannels setDefaults uuid_seq insertionSort requestNoKYC
      (exampleWorld [channelKYC])
    = Ret (Ok [r], w')
    /\ Channel_ r = channelKYC
    /\ (MinMatchingScore setDefaults <= MatchScore r)%Q
    /\ Available (Availability r) = false
    /\ Reasons (Availability r) = ["KYC verification required"].
Proof. exact KYC_channel_run. Qed.

(** C1, amended.  Every element of the list [MatchChannels] returns has
    matchScore >= the configured minimum and carries the availability
    object [checkChannelAvailability] computes for its channel.
    Availability is reported, not filtered on: a scored candidate whose
    score passes the minimum is returned, whatever its availability,
    whenever the passing candidates fit within max-results. *)
Theorem MatchChannels_filters_on_score_only :
  forall (sort_Slice : forall A : Type, (A -> A -> bool) -> list A -> list A)
         (config : Config) (uuid_New : nat -> string)
         (request : MatchingRequest) (w w' : World)
         (results : list MatchingResult),
    sort_Slice_contract sort_Slice ->
    MatchChannels config uuid_New sort_Slice request w
    = Ret (Ok results, w') ->
    (forall r, In r results ->
       (MinMatchingScore config <= MatchScore r)%Q
       /\ Availability r = checkChannelAvailability (Channel_ r) request)
    /\ exists (channels : list Channel) (w1 : World)
              (scored : list MatchingResult),
         getEligibleChannels (AssetID request) (UserRegion request) w
         = Ret (Ok channels, w1)
         /\ scoreAll config uuid_New channels request w1 = Ret (scored, w')
         /\ forall r,
              In r scored ->
              (MinMatchingScore config <= MatchScore r)%Q ->
              (Z.of_nat (length (List.filter (passes config) scored))
               <= MaxMatchingResults config)%Z ->
              In r results.
Proof.
  intros sort_Slice config uuid_New request w w' results contract Hrun.
  destruct (MatchChannels_Ok_inv _ _ _ _ _ _ _ Hrun)
    as (channels & w1 & scored & Hgot & Hne & Hscored & _ & Hmax & ->).
  pose proof (sorted_Permutation config sort_Slice scored contract) as Hperm.
  split.
  - intros r Hr. apply In_take in Hr.
    apply (In_sorted config sort_Slice scored contract) in Hr as [Hr Hmin].
    split; [assumption|].
    destruct (In_scored_match_of _ _ _ _ _ _ _ _ Hscored Hr)
      as (i & channel & _ & _ & Hmatch).
    destruct Hmatch as (_ & -> & -> & _). reflexivity.
  - exists channels, w1, scored. split; [assumption|]. split; [assumption|].
    intros r Hr Hmin Hfit.
    rewrite take_ge by (rewrite <- (Permutation_length Hperm); lia).
    now apply (In_sorted config sort_Slice scored contract).
Qed.

(** The amended statement at the run of the KYC channel. *)
Lemma MatchChannels_filters_on_score_only_witness :
  exists (r : MatchingResult) (w' : World),
    MatchChannels setDefaults uuid_seq insertionSort requestNoKYC
      (exampleWorld [channelKYC])
    = Ret (Ok [r], w')
    /\ (MinMatchingScore setDefaults <= MatchScore r)%Q
    /\ Availability r = checkChannelAvailability (Channel_ r) requestNoKYC.
Proof.
  destruct KYC_channel_run as (r & w' & Hrun & _).
  exists r, w'. split; [assumption|].
  apply (proj1 (MatchChannels_filters_on_score_only insertionSort
                  setDefaults uuid_seq requestNoKYC _ w' [r]
                  insertionSort_contract Hrun)).
  now left.
Defined.

(** C5. The five weights sum to exactly 1, every sub-score lies in [0,1]
    (the user-experience sub-score too, though nothing clamps it), and for
    every channel and request the scorer returns a result whose match
    score, the weighted sum of the sub-scores, lies in [0,1]. *)
Theorem match_score_in_unit_interval :
  (weight_fee + weight_availability + weight_ux + weight_security
   + weight_liquidity == 1)%Q
  /\ [weight_fee; weight_availability; weight_ux; weight_security;
      weight_liquidity] = [0.3; 0.25; 0.2; 0.15; 0.1]%Q
  /\ forall (config : Config) (uuid_New : nat -> string)
            (channel : Channel) (request : MatchingRequest) (w : World),
       (0 <= calculateAvailabilityScore channel request <= 1)%Q
       /\ (0 <= calculateUXScore channel request <= 1)%Q
       /\ (0 <= calculateSecurityScore channel <= 1)%Q
       /\ (0 <= calculateLiquidityScore channel (AssetID request)
                  (Amount request) <= 1)%Q
       /\ exists (feeScore : Q) (r : MatchingResult) (w' : World),
            calculateFeeScore channel (Amount request) = Ret feeScore
            /\ (0 <= feeScore <= 1)%Q
            /\ calculateChannelMatch config uuid_New channel request w
               = Ret (r, w')
            /\ (MatchScore r == weighted_score channel request feeScore)%Q
            /\ (0 <= MatchScore r <= 1)%Q.
Proof.
  split; [reflexivity|]. split; [reflexivity|].
  intros config uuid_New channel request w.
  split; [apply calculateAvailabilityScore_bounds|].
  split; [apply calculateUXScore_bounds|].
  split; [apply calculateSecurityScore_bounds|].
  split; [apply calculateLiquidityScore_bounds|].
  destruct (calculateChannelMatch_run config uuid_New channel request w)
    as (r & Hrun & Hmatch).
  destruct Hmatch as (_ & _ & _ & _ & _ & fee & Hfee & Hscore).
  destruct (calculateFeeScore_total channel (Amount request))
    as (fee' & Hfee' & Hbounds).
  rewrite Hfee in Hfee'. injection Hfee' as <-.
  eexists fee, r, _. split; [assumption|]. split; [assumption|].
  split; [exact Hrun|]. split; [assumption|].
  rewrite Hscore. now apply weighted_score_bounds.
Qed.

(** ** The order of results with equal scores *)

(** *** The eligibility cache after a call *)

Lemma getEligibleChannels_hit (assetID userRegion : string) (w : World)
    (channels : list Channel) :
  redis w !! eligibility_key assetID userRegion = Some (RChannels channels) ->
  getEligibleChannels assetID userRegion w = Ret (Ok channels, w).
Proof.
  intros H. unfold getEligibleChannels, st_bind, redis_Get.
  fold (eligibility_key assetID userRegion). now rewrite H.
Qed.

Lemma getEligibleChannels_miss_ok (assetID userRegion : string) (w : World)
    (table : list Channel) :
  cache_miss assetID userRegion w ->
  db w = Ok table ->
  getEligibleChannels assetID userRegion w
  = Ret (Ok (List.filter (eligible assetID userRegion) table),
         set_redis
           (insert (eligibility_key assetID userRegion)
              (RChannels (List.filter (eligible assetID userRegion) table)))
           w).
Proof.
  intros Hmiss Hdb. unfold cache_miss in Hmiss.
  unfold getEligibleChannels, st_bind, redis_Get.
  fold (eligibility_key assetID userRegion).
  destruct (redis w !! eligibility_key assetID userRegion)
    as [[cs|r|n|x|l]|]; try (now destruct Hmiss); now rewrite Hdb.
Qed.

Lemma getEligibleChannels_miss_err (assetID userRegion : string) (w : World)
    (err : string) :
  cache_miss assetID userRegion w ->
  db w = Err err ->
  getEligibleChannels assetID userRegion w = Ret (Err err, w).
Proof.
  intros Hmiss Hdb. unfold cache_miss in Hmiss.
  unfold getEligibleChannels, st_bind, redis_Get.
  fold (eligibility_key assetID userRegion).
  destruct (redis w !! eligibility_key assetID userRegion)
    as [[cs|r|n|x|l]|]; try (now destruct Hmiss); now rewrite Hdb.
Qed.

Lemma cache_miss_dec (assetID userRegion : string) (w : World) :
  cache_miss assetID userRegion w
  \/ exists channels,
       redis w !! eligibility_key assetID userRegion
       = Some (RChannels channels).
Proof.
  unfold cache_miss.
  destruct (redis w !! eligibility_key assetID userRegion)
    as [[cs|r|n|x|l]|]; eauto.
Qed.

Lemma getEligibleChannels_Ok_cached (assetID userRegion : string)
    (w w1 : World) (channels : list Channel) :
  getEligibleChannels assetID userRegion w = Ret (Ok channels, w1) ->
  redis w1 !! eligibility_key assetID userRegion = Some (RChannels channels).
Proof.
  intros Hrun.
  destruct (cache_miss_dec assetID userRegion w) as [Hmiss|[cs Hhit]].
  - destruct (db w) as [table|err] eqn:Hdb.
    + rewrite (getEligibleChannels_miss_ok _ _ _ _ Hmiss Hdb) in Hrun.
      injection Hrun as <- <-. cbn [set_redis redis].
      apply lookup_insert_eq.
    + rewrite (getEligibleChannels_miss_err _ _ _ _ Hmiss Hdb) in Hrun.
      discriminate.
  - rewrite (getEligibleChannels_hit _ _ _ _ Hhit) in Hrun.
    now injection Hrun as <- <-.
Qed.

(** *** [sort.Slice] returns *)

Lemma scan_up_spec (test : nat -> bool) (n i : nat) :
  (i <= scan_up test n i <= i + n)%nat
  /\ ((scan_up test n i < i + n)%nat -> test (scan_up test n i) = false).
Proof.
  revert i. induction n as [|n IH]; intros i; cbn [scan_up].
  - split; lia.
  - destruct (test i) eqn:Ht.
    + destruct (IH (S i)) as [Hb Hs]. split; [lia|].
      intros H. apply Hs. lia.
    + split; [lia|]. intros _. exact Ht.
Qed.

Lemma scan_down_spec (test : nat -> bool) (n j : nat) :
  (n <= j)%nat ->
  (j - n <= scan_down test n j <= j)%nat
  /\ ((j < scan_down test n j + n)%nat ->
      test (scan_down test n j) = false).
Proof.
  revert j. induction n as [|n IH]; intros j Hn; cbn [scan_down].
  - split; lia.
  - destruct (test j) eqn:Ht.
    + destruct (IH (j - 1)%nat ltac:(lia)) as [Hb Hs]. split; [lia|].
      intros H. apply Hs. lia.
    + split; [lia|]. intros _. exact Ht.
Qed.

Section Total.

Context {A : Type}.
Variable less : A -> A -> bool.

Lemma siftDown_func_total (fuel : nat) (data : list A) (lo hi first : nat) :
  (hi - lo < fuel)%nat ->
  is_Some (siftDown_func less fuel data lo hi first).
Proof.
  revert data lo. induction fuel as [|fuel IH]; intros data lo Hfuel;
    [lia|].
  cbn. destruct (Nat.leb_spec hi (lo + (lo + 0) + 1)); [eauto|].
  match goal with |- context [negb ?c] => destruct c end; cbn; [|eauto].
  apply IH.
  match goal with |- context [if ?c then _ else _] => destruct c end; lia.
Qed.

Lemma heapSort_build_total (i : nat) (data : list A) (hi first : nat) :
  is_Some (heapSort_build less i data hi first).
Proof.
  revert data. induction i as [|i IH]; intros data; cbn [heapSort_build].
  - destruct (siftDown_func_total (S hi) data 0 hi first ltac:(lia))
      as [data' ->]. eauto.
  - destruct (siftDown_func_total (S hi) data (S i) hi first ltac:(lia))
      as [data' ->]. apply IH.
Qed.

Lemma heapSort_pop_total (i : nat) (data : list A) (first : nat) :
  is_Some (heapSort_pop less i data first).
Proof.
  revert data. induction i as [|i IH]; intros data; cbn [heapSort_pop].
  - destruct (siftDown_func_total 1 (data_Swap data first (first + 0))
                0 0 first ltac:(lia)) as [data' ->]. eauto.
  - destruct (siftDown_func_total (S (S i))
                (data_Swap data first (first + S i)) 0 (S i) first
                ltac:(lia)) as [data' ->]. apply IH.
Qed.

Lemma heapSort_func_total (data : list A) (a b : nat) :
  is_Some (heapSort_func less data a b).
Proof.
  unfold heapSort_func.
  destruct (heapSort_build_total ((b - a - 1) / 2) data (b - a) a)
    as [data' ->].
  destruct (b - a =? 0)%nat; [eauto|]. apply heapSort_pop_total.
Qed.

(** The scans of a partition stop at different indices: the element one
    stops at fails its test, which is the negation of the other. *)
Lemma partition_loop_bounds (fuel : nat) (data : list A) (a i j : nat) :
  (S j - i < fuel)%nat -> (0 < i)%nat -> (i <= S j)%nat ->
  exists (data' : list A) (j' : nat),
    partition_loop less fuel data a i j = Some (data', j')
    /\ (i - 1 <= j' <= j)%nat.
Proof.
  revert data i j. induction fuel as [|fuel IH]; intros data i j Hfuel Hi Hij;
    [lia|].
  cbn [partition_loop].
  set (test_i := fun i => data_Less less data i a).
  destruct (scan_up_spec test_i (S j - i) i) as [Hub Hus].
  set (i' := scan_up test_i (S j - i) i) in *.
  destruct (scan_down_spec (fun j => negb (test_i j)) (S j - i') j
              ltac:(lia)) as [Hdb Hds].
  set (j' := scan_down _ (S j - i') j) in *.
  destruct (Nat.ltb_spec j' i') as [Hlt|Hge].
  - eexists _, _. split; [reflexivity|]. lia.
  - assert (Hne : i' <> j').
    { intros Heq. specialize (Hus ltac:(lia)). specialize (Hds ltac:(lia)).
      rewrite <- Heq in Hds. rewrite Hus in Hds. discriminate. }
    destruct (IH (data_Swap data i' j') (S i') (j' - 1)%nat)
      as (data' & j'' & -> & Hb); [lia|lia|lia|].
    eexists _, _. split; [reflexivity|]. lia.
Qed.

Lemma partitionEqual_loop_bounds (fuel : nat) (data : list A)
    (a i j : nat) :
  (S j - i < fuel)%nat -> (0 < i)%nat -> (i <= S j)%nat ->
  exists (data' : list A) (i' : nat),
    partitionEqual_loop less fuel data a i j = Some (data', i')
    /\ (i <= i' <= S j)%nat.
Proof.
  revert data i j. induction fuel as [|fuel IH]; intros data i j Hfuel Hi Hij;
    [lia|].
  cbn [partitionEqual_loop].
  set (test_j := fun j => data_Less less data a j).
  destruct (scan_up_spec (fun i => negb (test_j i)) (S j - i) i)
    as [Hub Hus].
  set (i' := scan_up _ (S j - i) i) in *.
  destruct (scan_down_spec test_j (S j - i') j ltac:(lia)) as [Hdb Hds].
  set (j' := scan_down _ (S j - i') j) in *.
  destruct (Nat.ltb_spec j' i') as [Hlt|Hge].
  - eexists _, _. split; [reflexivity|]. lia.
  - assert (Hne : i' <> j').
    { intros Heq. specialize (Hus ltac:(lia)). specialize (Hds ltac:(lia)).
      rewrite <- Heq in Hds. rewrite Hds in Hus. discriminate. }
    destruct (IH (data_Swap data i' j') (S i') (j' - 1)%nat)
      as (data' & i'' & -> & Hb); [lia|lia|lia|].
    eexists _, _. split; [reflexivity|]. lia.
Qed.

Lemma partition_func_bounds (data : list A) (a b pivot : nat) :
  (a < b)%nat ->
  exists (data' : list A) (mid : nat) (alreadyPartitioned : bool),
    partition_func less data a b pivot
    = Some (data', mid, alreadyPartitioned)
    /\ (a <= mid < b)%nat.
Proof.
  intros Hab. unfold partition_func.
  set (data0 := data_Swap data a pivot).
  set (test_i := fun i => data_Less less data0 i a).
  destruct (scan_up_spec test_i (S (b - 1) - (a + 1)) (a + 1)) as [Hub _].
  set (i' := scan_up test_i _ (a + 1)) in *.
  destruct (scan_down_spec (fun j => negb (test_i j)) (S (b - 1) - i')
              (b - 1) ltac:(lia)) as [Hdb Hds].
  set (j' := scan_down _ (S (b - 1) - i') (b - 1)) in *.
  destruct (Nat.ltb_spec j' i') as [Hlt|Hge].
  - eexists _, _, _. split; [reflexivity|]. lia.
  - destruct (scan_up_spec test_i (S (b - 1) - (a + 1)) (a + 1))
      as [_ Hus]. fold i' in Hus.
    assert (Hne : i' <> j').
    { intros Heq. specialize (Hus ltac:(lia)). specialize (Hds ltac:(lia)).
      rewrite <- Heq in Hds. rewrite Hus in Hds. discriminate. }
    destruct (partition_loop_bounds (S (b - a)) (data_Swap data0 i' j')
                a (S i') (j' - 1)) as (data' & j'' & -> & Hb);
      [lia|lia|lia|].
    eexists _, _, _. split; [reflexivity|]. lia.
Qed.

Lemma partitionEqual_func_bounds (data : list A) (a b pivot : nat) :
  (a < b)%nat ->
  exists (data' : list A) (mid : nat),
    partitionEqual_func less data a b pivot = Some (data', mid)
    /\ (a < mid <= b)%nat.
Proof.
  intros Hab. unfold partitionEqual_func.
  destruct (partitionEqual_loop_bounds (S (b - a))
              (data_Swap data a pivot) a (a + 1) (b - 1))
    as (data' & mid & -> & Hb); [lia|lia|lia|].
  eexists _, _. split; [reflexivity|]. lia.
Qed.

Lemma pdqsort_func_total (fuel : nat) (data : list A) (a b limit : nat)
    (wasBalanced wasPartitioned : bool) :
  (b - a < fuel)%nat ->
  is_Some (pdqsort_func less fuel data a b limit wasBalanced
             wasPartitioned).
Proof.
  revert data a b limit wasBalanced wasPartitioned.
  induction fuel as [|fuel IH];
    intros data a b limit wasBalanced wasPartitioned Hfuel; [lia|].
  cbn [pdqsort_func].
  destruct (Nat.leb_spec (b - a) 12) as [Hshort|Hlong]; [eauto|].
  destruct (limit =? 0)%nat; [apply heapSort_func_total|].
  destruct (if negb wasBalanced then _ else _) as [data1 limit1].
  destruct (choosePivot_func less data1 a b) as [pivot hint].
  destruct (match hint with decreasingHint => _ | _ => _ end)
    as [[data2 pivot2] hint2].
  destruct (match hint2 with increasingHint => _ | _ => _ end)
    as [data3 sorted].
  destruct sorted; [eauto|].
  destruct (_ && _).
  - destruct (partitionEqual_func_bounds data3 a b pivot2 ltac:(lia))
      as (data4 & mid & -> & Hmid).
    apply IH. lia.
  - destruct (partition_func_bounds data3 a b pivot2 ltac:(lia))
      as (data4 & mid & already & -> & Hmid).
    destruct (mid - a <? b - mid)%nat.
    + destruct (IH data4 a mid limit1 true true ltac:(lia)) as [data5 ->].
      apply IH. lia.
    + destruct (IH data4 (mid + 1)%nat b limit1 true true ltac:(lia))
        as [data5 ->].
      apply IH. lia.
Qed.

(** [sort.Slice] returns: the fuel it starts with lasts. *)
Lemma Slice_total (data : list A) :
  Slice less data = Some (Go_sort_Slice A less data).
Proof.
  unfold Go_sort_Slice.
  destruct (pdqsort_func_total (S (length data)) data 0 (length data)
              (bits_Len (length data)) true true ltac:(lia)) as [sorted H].
  unfold Slice. now rewrite H.
Qed.

End Total.

(** *** [sort.Slice] decides by comparisons *)

Lemma scan_up_ext (test1 test2 : nat -> bool) (n i : nat) :
  (forall k, test1 k = test2 k) ->
  scan_up test1 n i = scan_up test2 n i.
Proof.
  intros Hext. revert i. induction n as [|n IH]; intros i; cbn [scan_up];
    [reflexivity|].
  rewrite Hext, IH. reflexivity.
Qed.

Lemma scan_down_ext (test1 test2 : nat -> bool) (n j : nat) :
  (forall k, test1 k = test2 k) ->
  scan_down test1 n j = scan_down test2 n j.
Proof.
  intros Hext. revert j. induction n as [|n IH]; intros j; cbn [scan_down];
    [reflexivity|].
  rewrite Hext, IH. reflexivity.
Qed.

(** [sort.Slice] decides by comparisons only: sorting commutes with a
    function on the elements that keeps [less]. *)
Section ComparisonBased.

Context {A B : Type}.
Variable lessA : A -> A -> bool.
Variable lessB : B -> B -> bool.
Variable f : A -> B.
Hypothesis less_f : forall x y : A, lessB (f x) (f y) = lessA x y.

Lemma data_Less_fmap (data : list A) (i j : nat) :
  data_Less lessB (f <$> data) i j = data_Less lessA data i j.
Proof.
  unfold data_Less. rewrite !list_lookup_fmap.
  destruct (data !! i), (data !! j); cbn; auto.
Qed.

Lemma data_Swap_fmap (data : list A) (i j : nat) :
  data_Swap (f <$> data) i j = f <$> data_Swap data i j.
Proof.
  unfold data_Swap. rewrite !list_lookup_fmap.
  destruct (data !! i), (data !! j); cbn; [|reflexivity..].
  now rewrite !list_fmap_insert.
Qed.

Lemma insertionSort_shift_fmap (data : list A) (a j : nat) :
  insertionSort_shift lessB (f <$> data) a j
  = f <$> insertionSort_shift lessA data a j.
Proof.
  revert data. induction j as [|j IH]; intros data;
    cbn [insertionSort_shift]; [reflexivity|].
  rewrite data_Less_fmap, data_Swap_fmap, IH.
  now destruct (_ && _).
Qed.

Lemma insertionSort_from_fmap (n : nat) (data : list A) (a i : nat) :
  insertionSort_from lessB n (f <$> data) a i
  = f <$> insertionSort_from lessA n data a i.
Proof.
  revert data i. induction n as [|n IH]; intros data i;
    cbn [insertionSort_from]; [reflexivity|].
  now rewrite insertionSort_shift_fmap, IH.
Qed.

Lemma insertionSort_func_fmap (data : list A) (a b : nat) :
  insertionSort_func lessB (f <$> data) a b
  = f <$> insertionSort_func lessA data a b.
Proof. apply insertionSort_from_fmap. Qed.

Lemma siftDown_func_fmap (fuel : nat) (data : list A) (lo hi first : nat) :
  siftDown_func lessB fuel (f <$> data) lo hi first
  = (fmap f : list A -> list B) <$> siftDown_func lessA fuel data lo hi first.
Proof.
  revert data lo. induction fuel as [|fuel IH]; intros data lo;
    cbn [siftDown_func]; [reflexivity|].
  rewrite !data_Less_fmap.
  destruct (hi <=? _)%nat; [reflexivity|].
  destruct (negb _); [reflexivity|].
  rewrite data_Swap_fmap. apply IH.
Qed.

Lemma heapSort_build_fmap (i : nat) (data : list A) (hi first : nat) :
  heapSort_build lessB i (f <$> data) hi first
  = (fmap f : list A -> list B) <$> heapSort_build lessA i data hi first.
Proof.
  revert data. induction i as [|i IH]; intros data; cbn [heapSort_build];
    rewrite siftDown_func_fmap;
    destruct (siftDown_func lessA _ data _ hi first); cbn; auto.
Qed.

Lemma heapSort_pop_fmap (i : nat) (data : list A) (first : nat) :
  heapSort_pop lessB i (f <$> data) first
  = (fmap f : list A -> list B) <$> heapSort_pop lessA i data first.
Proof.
  revert data. induction i as [|i IH]; intros data; cbn [heapSort_pop];
    rewrite data_Swap_fmap, siftDown_func_fmap;
    destruct (siftDown_func lessA _ _ _ _ first); cbn; auto.
Qed.

Lemma heapSort_func_fmap (data : list A) (a b : nat) :
  heapSort_func lessB (f <$> data) a b
  = (fmap f : list A -> list B) <$> heapSort_func lessA data a b.
Proof.
  unfold heapSort_func. rewrite heapSort_build_fmap.
  destruct (heapSort_build lessA _ data _ a); cbn; [|reflexivity].
  destruct (_ =? 0)%nat; [reflexivity|]. apply heapSort_pop_fmap.
Qed.

Lemma partition_loop_fmap (fuel : nat) (data : list A) (a i j : nat) :
  partition_loop lessB fuel (f <$> data) a i j
  = prod_map (fmap f : list A -> list B) id
      <$> partition_loop lessA fuel data a i j.
Proof.
  revert data i j. induction fuel as [|fuel IH]; intros data i j;
    cbn [partition_loop]; [reflexivity|].
  rewrite (scan_up_ext _ (fun i => data_Less lessA data i a))
    by (intros k; apply data_Less_fmap).
  rewrite (scan_down_ext _ (fun j => negb (data_Less lessA data j a)))
    by (intros k; now rewrite data_Less_fmap).
  destruct (_ <? _)%nat; [reflexivity|].
  rewrite data_Swap_fmap. apply IH.
Qed.

Lemma partition_func_fmap (data : list A) (a b pivot : nat) :
  partition_func lessB (f <$> data) a b pivot
  = prod_map (prod_map (fmap f : list A -> list B) id) id
      <$> partition_func lessA data a b pivot.
Proof.
  unfold partition_func. rewrite data_Swap_fmap.
  rewrite (scan_up_ext _ (fun i => data_Less lessA
                                     (data_Swap data a pivot) i a))
    by (intros k; apply data_Less_fmap).
  rewrite (scan_down_ext _ (fun j => negb (data_Less lessA
                                         (data_Swap data a pivot) j a)))
    by (intros k; now rewrite data_Less_fmap).
  destruct (_ <? _)%nat; [now rewrite data_Swap_fmap|].
  rewrite data_Swap_fmap, partition_loop_fmap.
  destruct (partition_loop lessA _ _ a _ _) as [[data' j']|]; cbn;
    [|reflexivity].
  now rewrite data_Swap_fmap.
Qed.

Lemma partitionEqual_loop_fmap (fuel : nat) (data : list A) (a i j : nat) :
  partitionEqual_loop lessB fuel (f <$> data) a i j
  = prod_map (fmap f : list A -> list B) id
      <$> partitionEqual_loop lessA fuel data a i j.
Proof.
  revert data i j. induction fuel as [|fuel IH]; intros data i j;
    cbn [partitionEqual_loop]; [reflexivity|].
  rewrite (scan_up_ext _ (fun i => negb (data_Less lessA data a i)))
    by (intros k; now rewrite data_Less_fmap).
  rewrite (scan_down_ext _ (fun j => data_Less lessA data a j))
    by (intros k; apply data_Less_fmap).
  destruct (_ <? _)%nat; [reflexivity|].
  rewrite data_Swap_fmap. apply IH.
Qed.

Lemma partitionEqual_func_fmap (data : list A) (a b pivot : nat) :
  partitionEqual_func lessB (f <$> data) a b pivot
  = prod_map (fmap f : list A -> list B) id
      <$> partitionEqual_func lessA data a b pivot.
Proof.
  unfold partitionEqual_func. rewrite data_Swap_fmap.
  apply partitionEqual_loop_fmap.
Qed.

Lemma partialInsertionSort_scan_fmap (n : nat) (data : list A) (i : nat) :
  partialInsertionSort_scan lessB n (f <$> data) i
  = partialInsertionSort_scan lessA n data i.
Proof.
  revert i. induction n as [|n IH]; intros i;
    cbn [partialInsertionSort_scan]; [reflexivity|].
  now rewrite data_Less_fmap, IH.
Qed.

Lemma shift_smaller_fmap (j : nat) (data : list A) :
  shift_smaller lessB j (f <$> data) = f <$> shift_smaller lessA j data.
Proof.
  revert data. induction j as [|j IH]; intros data; cbn [shift_smaller];
    [reflexivity|].
  rewrite data_Less_fmap, data_Swap_fmap, IH. now destruct (negb _).
Qed.

Lemma shift_greater_fmap (n : nat) (data : list A) (j : nat) :
  shift_greater lessB n (f <$> data) j
  = f <$> shift_greater lessA n data j.
Proof.
  revert data j. induction n as [|n IH]; intros data j;
    cbn [shift_greater]; [reflexivity|].
  rewrite data_Less_fmap, data_Swap_fmap, IH. now destruct (negb _).
Qed.

Lemma partialInsertionSort_steps_fmap (steps : nat) (data : list A)
    (a b i : nat) :
  partialInsertionSort_steps lessB steps (f <$> data) a b i
  = prod_map (fmap f) id (partialInsertionSort_steps lessA steps data a b i).
Proof.
  revert data i. induction steps as [|steps IH]; intros data i;
    cbn [partialInsertionSort_steps]; [reflexivity|].
  rewrite partialInsertionSort_scan_fmap.
  destruct (_ =? b)%nat; [reflexivity|].
  destruct (_ <? 50)%nat; [reflexivity|].
  rewrite data_Swap_fmap.
  destruct (2 <=? _ - a)%nat, (2 <=? b - _)%nat;
    rewrite ?shift_smaller_fmap, ?shift_greater_fmap; apply IH.
Qed.

Lemma partialInsertionSort_func_fmap (data : list A) (a b : nat) :
  partialInsertionSort_func lessB (f <$> data) a b
  = prod_map (fmap f) id (partialInsertionSort_func lessA data a b).
Proof. apply partialInsertionSort_steps_fmap. Qed.

Lemma breakPatterns_func_fmap (data : list A) (a b : nat) :
  breakPatterns_func (f <$> data) a b = f <$> breakPatterns_func data a b.
Proof.
  unfold breakPatterns_func. destruct (8 <=? _)%nat; [|reflexivity].
  cbn [fold_left]. unfold breakPatterns_step. cbn [fst snd].
  now rewrite !data_Swap_fmap.
Qed.

Lemma order2_func_fmap (data : list A) (a b swaps : nat) :
  order2_func lessB (f <$> data) a b swaps
  = order2_func lessA data a b swaps.
Proof. unfold order2_func. now rewrite data_Less_fmap. Qed.

Lemma median_func_fmap (data : list A) (a b c swaps : nat) :
  median_func lessB (f <$> data) a b c swaps
  = median_func lessA data a b c swaps.
Proof.
  unfold median_func. rewrite order2_func_fmap.
  destruct (order2_func lessA data a b swaps) as [[a1 b1] swaps1].
  rewrite order2_func_fmap.
  destruct (order2_func lessA data b1 c swaps1) as [[b2 c2] swaps2].
  now rewrite order2_func_fmap.
Qed.

Lemma choosePivot_func_fmap (data : list A) (a b : nat) :
  choosePivot_func lessB (f <$> data) a b = choosePivot_func lessA data a b.
Proof.
  unfold choosePivot_func, medianAdjacent_func.
  destruct (8 <=? b - a)%nat; [|reflexivity].
  destruct (50 <=? b - a)%nat; [|now rewrite median_func_fmap].
  rewrite median_func_fmap.
  destruct (median_func lessA data _ _ _ 0) as [i swaps].
  rewrite median_func_fmap.
  destruct (median_func lessA data _ _ _ swaps) as [j swaps0].
  rewrite median_func_fmap.
  destruct (median_func lessA data _ _ _ swaps0) as [k swaps1].
  now rewrite median_func_fmap.
Qed.

Lemma reverseRange_loop_fmap (n : nat) (data : list A) (i j : nat) :
  reverseRange_loop n (f <$> data) i j = f <$> reverseRange_loop n data i j.
Proof.
  revert data i j. induction n as [|n IH]; intros data i j;
    cbn [reverseRange_loop]; [reflexivity|].
  now rewrite data_Swap_fmap, IH.
Qed.

Lemma reverseRange_func_fmap (data : list A) (a b : nat) :
  reverseRange_func (f <$> data) a b = f <$> reverseRange_func data a b.
Proof. apply reverseRange_loop_fmap. Qed.

Lemma pdqsort_func_fmap (fuel : nat) (data : list A) (a b limit : nat)
    (wasBalanced wasPartitioned : bool) :
  pdqsort_func lessB fuel (f <$> data) a b limit wasBalanced wasPartitioned
  = (fmap f : list A -> list B)
      <$> pdqsort_func lessA fuel data a b limit wasBalanced wasPartitioned.
Proof.
  revert data a b limit wasBalanced wasPartitioned.
  induction fuel as [|fuel IH];
    intros data a b limit wasBalanced wasPartitioned;
    cbn [pdqsort_func]; [reflexivity|].
  destruct (_ <=? 12)%nat; [now rewrite insertionSort_func_fmap|].
  destruct (limit =? 0)%nat; [apply heapSort_func_fmap|].
  rewrite breakPatterns_func_fmap.
  set (data1 := if negb wasBalanced then breakPatterns_func data a b
                else data).
  set (limit1 := if negb wasBalanced then (limit - 1)%nat else limit).
  replace (if negb wasBalanced
           then (f <$> breakPatterns_func data a b, (limit - 1)%nat)
           else (f <$> data, limit)) with (f <$> data1, limit1)
    by (unfold data1, limit1; now destruct wasBalanced).
  replace (if negb wasBalanced
           then (breakPatterns_func data a b, (limit - 1)%nat)
           else (data, limit)) with (data1, limit1)
    by (unfold data1, limit1; now destruct wasBalanced).
  rewrite choosePivot_func_fmap.
  destruct (choosePivot_func lessA data1 a b) as [pivot hint].
  rewrite reverseRange_func_fmap.
  set (data2 := match hint with
                | decreasingHint => reverseRange_func data1 a b
                | _ => data1
                end).
  set (pivot2 := match hint with
                 | decreasingHint => (b - 1 - (pivot - a))%nat
                 | _ => pivot
                 end).
  set (hint2 := match hint with
                | decreasingHint => increasingHint
                | _ => hint
                end).
  replace (match hint with
           | decreasingHint =>
               (f <$> reverseRange_func data1 a b,
                (b - 1 - (pivot - a))%nat, increasingHint)
           | _ => (f <$> data1, pivot, hint)
           end) with (f <$> data2, pivot2, hint2)
    by (unfold data2, pivot2, hint2; now destruct hint).
  replace (match hint with
           | decreasingHint =>
               (reverseRange_func data1 a b,
                (b - 1 - (pivot - a))%nat, increasingHint)
           | _ => (data1, pivot, hint)
           end) with (data2, pivot2, hint2)
    by (unfold data2, pivot2, hint2; now destruct hint).
  rewrite partialInsertionSort_func_fmap.
  set (step3 := match hint2 with
                | increasingHint =>
                    if wasBalanced && wasPartitioned
                    then partialInsertionSort_func lessA data2 a b
                    else (data2, false)
                | _ => (data2, false)
                end).
  replace (match hint2 with
           | increasingHint =>
               if wasBalanced && wasPartitioned
               then prod_map (fmap f) id
                      (partialInsertionSort_func lessA data2 a b)
               else (f <$> data2, false)
           | _ => (f <$> data2, false)
           end) with (prod_map (fmap f) id step3)
    by (unfold step3; destruct hint2; try reflexivity;
        now destruct (wasBalanced && wasPartitioned)).
  destruct step3 as [data3 sorted]. cbn [prod_map fst snd id].
  destruct sorted; [reflexivity|].
  rewrite data_Less_fmap.
  destruct (_ && _).
  - rewrite partitionEqual_func_fmap.
    destruct (partitionEqual_func lessA data3 a b pivot2)
      as [[data4 mid]|];
      cbn [fmap option_fmap option_map prod_map fst snd id]; [|reflexivity].
    apply IH.
  - rewrite partition_func_fmap.
    destruct (partition_func lessA data3 a b pivot2)
      as [[[data4 mid] already]|];
      cbn [fmap option_fmap option_map prod_map fst snd id]; [|reflexivity].
    destruct (mid - a <? b - mid)%nat.
    + rewrite IH.
      destruct (pdqsort_func lessA fuel data4 a mid limit1 true true);
        cbn [fmap option_fmap option_map]; [|reflexivity].
      apply IH.
    + rewrite IH.
      destruct (pdqsort_func lessA fuel data4 (mid + 1) b limit1 true
                  true);
        cbn [fmap option_fmap option_map]; [|reflexivity].
      apply IH.
Qed.

Lemma Slice_fmap (data : list A) :
  Slice lessB (f <$> data) = (fmap f : list A -> list B) <$> Slice lessA data.
Proof.
  unfold Slice. rewrite length_fmap. apply pdqsort_func_fmap.
Qed.

Lemma Go_sort_Slice_fmap (data : list A) :
  Go_sort_Slice B lessB (f <$> data) = f <$> Go_sort_Slice A lessA data.
Proof.
  unfold Go_sort_Slice. rewrite Slice_fmap.
  now destruct (Slice lessA data).
Qed.

End ComparisonBased.

(** *** Up to twelve elements: sorted by insertion, in fetch order *)

Lemma precedes_cons {A : Type} (x : A) (l : list A) (a b : A) :
  precedes (x :: l) a b <-> (a = x /\ In b l) \/ precedes l a b.
Proof.
  split.
  - intros (i & j & Hi & Hj & Hlt).
    destruct j as [|j]; [lia|]. cbn in Hj.
    destruct i as [|i].
    + injection Hi as <-. left. split; [reflexivity|].
      apply list_elem_of_In, list_elem_of_lookup. eauto.
    + right. exists i, j. cbn in Hi. repeat split; [assumption..|lia].
  - intros [[-> Hb]|(i & j & Hi & Hj & Hlt)].
    + apply list_elem_of_In, list_elem_of_lookup in Hb as [j Hj].
      exists 0%nat, (S j). repeat split; [assumption|lia].
    + exists (S i), (S j). repeat split; [assumption..|lia].
Qed.

Lemma precedes_app {A : Type} (l1 l2 : list A) (a b : A) :
  precedes (l1 ++ l2) a b
  <-> precedes l1 a b \/ precedes l2 a b \/ (In a l1 /\ In b l2).
Proof.
  induction l1 as [|x l1 IH]; cbn [app].
  - split; [auto|]. intros [(i & j & Hi & _)|[H|[[] _]]]; [discriminate|auto].
  - rewrite !precedes_cons, IH, in_app_iff. cbn [In]. intuition (subst; auto).
Qed.

Lemma precedes_singleton {A : Type} (x a b : A) : ~ precedes [x] a b.
Proof.
  intros (i & j & Hi & Hj & Hlt).
  destruct i as [|i], j as [|[|j]]; try lia; discriminate.
Qed.

Lemma precedes_filter {A : Type} (p : A -> bool) (l : list A) (a b : A) :
  precedes (List.filter p l) a b -> precedes l a b.
Proof.
  induction l as [|x l IH]; cbn [List.filter]; [auto|].
  rewrite precedes_cons. destruct (p x).
  - rewrite precedes_cons. intros [[-> Hb]|H]; [|auto].
    left. split; [reflexivity|]. now apply filter_In in Hb as [Hb _].
  - auto.
Qed.

Lemma precedes_take {A : Type} (n : nat) (l : list A) (a b : A) :
  precedes (take n l) a b -> precedes l a b.
Proof.
  intros (i & j & Hi & Hj & Hlt).
  apply lookup_take_Some in Hi as [Hi _].
  apply lookup_take_Some in Hj as [Hj _].
  exists i, j. auto.
Qed.

Section InsertionStable.

Context {A : Type}.
Variable pass : A -> A -> bool.

Lemma insert_by_In (x : A) (rp : list A) (a : A) :
  In a (insert_by pass x rp) <-> a = x \/ In a rp.
Proof.
  induction rp as [|y rp IH]; cbn [insert_by In]; [intuition auto|].
  destruct (pass x y); cbn [In]; rewrite ?IH; intuition auto.
Qed.

Lemma insert_by_length (x : A) (rp : list A) :
  length (insert_by pass x rp) = S (length rp).
Proof.
  induction rp as [|y rp IH]; cbn [insert_by length]; [reflexivity|].
  destruct (pass x y); cbn [length]; now rewrite ?IH.
Qed.

Lemma insert_by_precedes (x : A) (rp : list A) (a b : A) :
  precedes (rev (insert_by pass x rp)) a b ->
  precedes (rev rp ++ [x]) a b \/ pass a b = true.
Proof.
  induction rp as [|y rp IH]; cbn [insert_by]; [auto|].
  destruct (pass x y) eqn:Hpass; [|auto].
  cbn [rev]. intros H.
  apply precedes_app in H as [H|[H|[Ha Hb]]].
  - destruct (IH H) as [H'|H']; [|auto]. left.
    apply precedes_app in H' as [H'|[H'|[Ha Hb]]].
    + apply precedes_app. left. apply precedes_app. now left.
    + now apply precedes_singleton in H'.
    + apply precedes_app. right. right.
      split; [apply in_or_app; auto|assumption].
  - now apply precedes_singleton in H.
  - destruct Hb as [<-|[]].
    apply in_rev, insert_by_In in Ha as [->|Ha]; [auto|].
    left. apply precedes_app. left. apply precedes_app. right. right.
    split; [now apply in_rev in Ha|now left].
Qed.

Lemma insertion_sort_by_precedes (s rp : list A) (a b : A) :
  precedes (rev (fold_left (fun rp x => insert_by pass x rp) s rp)) a b ->
  precedes (rev rp ++ s) a b \/ pass a b = true.
Proof.
  revert rp. induction s as [|x s IH]; intros rp; cbn [fold_left].
  - rewrite app_nil_r. auto.
  - intros H. destruct (IH _ H) as [H'|H']; [|auto].
    replace (rev rp ++ x :: s) with ((rev rp ++ [x]) ++ s)
      by now rewrite <- app_assoc.
    apply precedes_app in H' as [H'|[H'|[Ha Hb]]].
    + destruct (insert_by_precedes _ _ _ _ H') as [H''|H'']; [|auto].
      left. apply precedes_app. auto.
    + left. apply precedes_app. auto.
    + left. apply precedes_app. right. right. split; [|assumption].
      apply in_rev, insert_by_In in Ha. apply in_or_app.
      destruct Ha as [->|Ha]; [right; now left|left; now apply in_rev in Ha].
Qed.

End InsertionStable.

(** Sorting by insertion keeps the order of the elements neither of which
    is less than the other. *)
Lemma insertionSort_stable {A : Type} (less : A -> A -> bool) (s : list A)
    (a b : A) :
  precedes (insertionSort A less s) a b -> less a b = false ->
  precedes s a b.
Proof.
  intros H Hless. unfold insertionSort, insertion_sort_by in H.
  apply insertion_sort_by_precedes in H as [H|H]; [exact H|congruence].
Qed.

Section InsertionSortFunc.

Context {A : Type}.
Variable less : A -> A -> bool.

Lemma insertionSort_shift_insert_by (rp rest : list A) (x : A) :
  insertionSort_shift less (rev rp ++ x :: rest) 0 (length rp)
  = rev (insert_by (fun x y => less x y) x rp) ++ rest.
Proof.
  revert rest. induction rp as [|y rp IH]; intros rest;
    cbn [length insertionSort_shift insert_by]; [reflexivity|].
  assert (Hx : (rev (y :: rp) ++ x :: rest) !! S (length rp) = Some x).
  { replace (S (length rp)) with (length (rev (y :: rp)))
      by (rewrite length_rev; reflexivity).
    apply list_lookup_middle. reflexivity. }
  assert (Hy : (rev (y :: rp) ++ x :: rest) !! length rp = Some y).
  { cbn [rev]. rewrite <- app_assoc. cbn [app].
    apply list_lookup_middle. now rewrite length_rev. }
  unfold data_Less, data_Swap. rewrite Hx, Hy. cbn [Nat.ltb Nat.leb andb].
  destruct (less x y);
    [|cbn [rev]; rewrite <- !app_assoc; reflexivity].
  cbn [rev]. rewrite <- !app_assoc. cbn [app].
  replace (<[length rp:=x]> (<[S (length rp):=y]>
             (rev rp ++ y :: x :: rest)))
    with (rev rp ++ x :: y :: rest).
  - apply IH.
  - replace (S (length rp)) with (length (rev rp) + 1)%nat
      by (rewrite length_rev; lia).
    rewrite insert_app_r. cbn [insert list_insert].
    replace (length rp) with (length (rev rp) + 0)%nat
      by (rewrite length_rev; lia).
    rewrite insert_app_r. reflexivity.
Qed.

Lemma insertionSort_from_fold (rest rp : list A) :
  insertionSort_from less (length rest) (rev rp ++ rest) 0 (length rp)
  = rev (fold_left (fun rp x => insert_by (fun x y => less x y) x rp)
           rest rp).
Proof.
  revert rp. induction rest as [|x rest IH]; intros rp;
    cbn [length insertionSort_from fold_left].
  - now rewrite app_nil_r.
  - rewrite insertionSort_shift_insert_by.
    replace (S (length rp))
      with (length (insert_by (fun x y => less x y) x rp)).
    + apply IH.
    + apply insert_by_length.
Qed.

(** On a whole slice [insertionSort_func] is the sort by insertion of
    lists. *)
Lemma insertionSort_func_insertionSort (data : list A) :
  insertionSort_func less data 0 (length data) = insertionSort A less data.
Proof.
  unfold insertionSort_func, insertionSort, insertion_sort_by.
  destruct data as [|x rest]; [reflexivity|].
  cbn [length fold_left insert_by Nat.add Nat.sub].
  rewrite Nat.sub_0_r.
  apply (insertionSort_from_fold rest [x]).
Qed.

(** Up to twelve elements [sort.Slice] sorts by insertion. *)
Lemma Go_sort_Slice_short (data : list A) :
  (length data <= 12)%nat ->
  Go_sort_Slice A less data = insertionSort A less data.
Proof.
  intros Hshort. unfold Go_sort_Slice, Slice. cbn [pdqsort_func].
  rewrite Nat.sub_0_r.
  destruct (Nat.leb_spec (length data) 12) as [_|H]; [|lia].
  apply insertionSort_func_insertionSort.
Qed.

End InsertionSortFunc.

(** *** Two calls on the same channels *)

Section SameMatch.

Variable config : Config.
Variable request : MatchingRequest.

Lemma calculateChannelMatch_without_redirect (uuid1 uuid2 : nat -> string)
    (channel : Channel) (w v w' v' : World) (r1 r2 : MatchingResult) :
  calculateChannelMatch config uuid1 channel request w = Ret (r1, w') ->
  calculateChannelMatch config uuid2 channel request v = Ret (r2, v') ->
  without_redirect r1 = without_redirect r2.
Proof.
  unfold calculateChannelMatch, st_bind, lift.
  destruct (calculateFeeScore channel (Amount request)) as [fee|e];
    cbn [run_bind]; [|discriminate].
  destruct (fdiv _ _) as [score|e]; cbn [run_bind]; [|discriminate].
  destruct (generateRedirectInfo config uuid1 channel request w)
    as [[info1 w1]|e]; [|discriminate].
  destruct (generateRedirectInfo config uuid2 channel request v)
    as [[info2 v1]|e]; [|discriminate].
  unfold st_ret. intros [= <- _] [= <- _]. reflexivity.
Qed.

Lemma scoreAll_without_redirect (uuid1 uuid2 : nat -> string)
    (channels : list Channel) (w v w' v' : World)
    (scored1 scored2 : list MatchingResult) :
  scoreAll config uuid1 channels request w = Ret (scored1, w') ->
  scoreAll config uuid2 channels request v = Ret (scored2, v') ->
  map without_redirect scored1 = map without_redirect scored2.
Proof.
  revert w v w' v' scored1 scored2.
  induction channels as [|channel channels IH];
    intros w v w' v' scored1 scored2; cbn [scoreAll].
  - unfold st_ret. now intros [= <- _] [= <- _].
  - unfold st_bind at 1 3.
    destruct (calculateChannelMatch config uuid1 channel request w)
      as [[r1 w1]|e] eqn:Hr1; [|discriminate].
    destruct (calculateChannelMatch config uuid2 channel request v)
      as [[r2 v1]|e] eqn:Hr2; [|discriminate].
    unfold st_bind.
    destruct (scoreAll config uuid1 channels request w1)
      as [[rs1 w2]|e] eqn:Hrs1; [|discriminate].
    destruct (scoreAll config uuid2 channels request v1)
      as [[rs2 v2]|e] eqn:Hrs2; [|discriminate].
    unfold st_ret. intros [= <- _] [= <- _]. cbn [map].
    f_equal; [exact (calculateChannelMatch_without_redirect _ _ _ _ _ _ _ _ _
                       Hr1 Hr2)|].
    exact (IH _ _ _ _ _ _ Hrs1 Hrs2).
Qed.

Lemma passes_without_redirect (scored : list MatchingResult) :
  map without_redirect (List.filter (passes config) scored)
  = List.filter
      (fun r => Qgeb (snd (fst (fst (fst r)))) (MinMatchingScore config))
      (map without_redirect scored).
Proof.
  induction scored as [|r scored IH]; [reflexivity|].
  cbn [map List.filter]. unfold passes at 1.
  cbn [without_redirect fst snd].
  destruct (Qgeb _ _); cbn [map]; now rewrite IH.
Qed.

(** The results of a call, without their redirect descriptors, are a
    function of the scored candidates without theirs. *)
Lemma sorted_without_redirect (scored : list MatchingResult) :
  map without_redirect
    (take (Z.to_nat (MaxMatchingResults config))
       (Go_sort_Slice _ byMatchScore (List.filter (passes config) scored)))
  = take (Z.to_nat (MaxMatchingResults config))
      (Go_sort_Slice _ byMatchScore_without_redirect
         (List.filter
            (fun r =>
               Qgeb (snd (fst (fst (fst r)))) (MinMatchingScore config))
            (map without_redirect scored))).
Proof.
  rewrite <- passes_without_redirect.
  change (map without_redirect) with (fmap (M:=list) without_redirect).
  rewrite fmap_take. f_equal. symmetry.
  apply Go_sort_Slice_fmap. reflexivity.
Qed.

End SameMatch.

Lemma thirteen_run :
  exists (scored results : list MatchingResult) (w1 w' : World),
    getEligibleChannels "asset-1" "US" (exampleWorld thirteenChannels)
    = Ret (Ok thirteenChannels, w1)
    /\ scoreAll setDefaults uuid_seq thirteenChannels exampleRequest w1
       = Ret (scored, w')
    /\ MatchChannels setDefaults uuid_seq Go_sort_Slice exampleRequest
         (exampleWorld thirteenChannels)
       = Ret (Ok results, w')
    /\ map ChannelID scored
       = ["c75"; "d01"; "d02"; "d03"; "d04"; "d05"; "d06"; "d07"; "d08";
          "d09"; "d10"; "d11"; "d12"]
    /\ map ChannelID results
       = ["d06"; "d01"; "d02"; "d03"; "d04"; "d05"; "d07"; "d08"; "d09";
          "d10"]
    /\ Forall (fun r => MatchScore r == 0.9)%Q results.
Proof.
  eexists _, _, _, _.
  split; [vm_compute; reflexivity|].
  split; [vm_compute; reflexivity|].
  split; [vm_compute; reflexivity|].
  split; [reflexivity|]. split; [reflexivity|].
  repeat constructor.
Qed.

Lemma no_ties_unique (l : list MatchingResult) (a b : MatchingResult) :
  no_ties l -> In a l -> In b l ->
  (MatchScore a == MatchScore b)%Q -> a = b.
Proof.
  intros Hties Ha Hb Heq.
  apply list_elem_of_In, list_elem_of_lookup in Ha as [i Hi].
  apply list_elem_of_In, list_elem_of_lookup in Hb as [j Hj].
  pose proof (Hties i j a b Hi Hj Heq) as ->. congruence.
Qed.

(** Two calls that score the same channels return the same results but
    for the redirect descriptors. *)
Lemma MatchChannels_same_channels (config : Config)
    (uuid1 uuid2 : nat -> string) (request : MatchingRequest)
    (w v w1 v1 : World) (channels : list Channel) :
  getEligibleChannels (AssetID request) (UserRegion request) w
  = Ret (Ok channels, w1) ->
  getEligibleChannels (AssetID request) (UserRegion request) v
  = Ret (Ok channels, v1) ->
  channels <> [] ->
  (0 <= MaxMatchingResults config)%Z ->
  exists (results1 results2 : list MatchingResult) (w' v' : World),
    MatchChannels config uuid1 Go_sort_Slice request w
    = Ret (Ok results1, w')
    /\ MatchChannels config uuid2 Go_sort_Slice request v
       = Ret (Ok results2, v')
    /\ map without_redirect results1 = map without_redirect results2.
Proof.
  intros Hw Hv Hne Hmax.
  destruct (scoreAll_run config uuid1 channels request w1)
    as (scored1 & Hscored1 & _).
  destruct (scoreAll_run config uuid2 channels request v1)
    as (scored2 & Hscored2 & _).
  eexists _, _, _, _.
  split; [exact (MatchChannels_run config uuid1 Go_sort_Slice request w w1 _
                   channels scored1 Hw Hne Hscored1 Hmax)|].
  split; [exact (MatchChannels_run config uuid2 Go_sort_Slice request v v1 _
                   channels scored2 Hv Hne Hscored2 Hmax)|].
  rewrite !sorted_without_redirect.
  now rewrite (scoreAll_without_redirect config request uuid1 uuid2 channels
                 _ _ _ _ _ _ Hscored1 Hscored2).
Qed.

(** After a call that returned results, the channels it scored are in the
    cache. *)
Lemma MatchChannels_leaves_channels_cached (config : Config)
    (uuid_New : nat -> string)
    (sort_Slice : forall A : Type, (A -> A -> bool) -> list A -> list A)
    (request : MatchingRequest) (w w' : World)
    (results : list MatchingResult) :
  MatchChannels config uuid_New sort_Slice request w = Ret (Ok results, w') ->
  exists (channels : list Channel) (w1 : World),
    getEligibleChannels (AssetID request) (UserRegion request) w
    = Ret (Ok channels, w1)
    /\ channels <> []
    /\ (0 <= MaxMatchingResults config)%Z
    /\ getEligibleChannels (AssetID request) (UserRegion request) w'
       = Ret (Ok channels, w').
Proof.
  intros Hrun.
  destruct (MatchChannels_Ok_inv _ _ _ _ _ _ _ Hrun)
    as (channels & w1 & scored & Hgot & Hne & _ & -> & Hmax & _).
  exists channels, w1. repeat split; try assumption.
  apply getEligibleChannels_hit.
  rewrite issue_all_lookup_other.
  - exact (getEligibleChannels_Ok_cached _ _ _ _ _ Hgot).
  - intros i _. unfold eligibility_key. discriminate.
Qed.

(** C3, amended.  [MatchChannels] sorts with [sort.Slice], which is not a
    stable sort.  Whatever sort meets the contract of [sort.Slice], the
    returned list is in non-increasing matchScore order, and when no two
    candidates that pass the minimum share a score it is the same list for
    every such sort.  With the [sort.Slice] of the Go library the order is
    deterministic also when scores are shared: two calls that score the
    same channels, such as a call and its repetition, return the same
    channels in the same order with the same scores, fees and
    availability, and differ in the redirect descriptors only.  When at
    most twelve candidates pass the minimum, results with equal
    matchScore keep their fetch order, because [sort.Slice] sorts up to
    twelve elements by insertion; from thirteen on they need not. *)
Theorem MatchChannels_order :
  (forall (sort1 sort2 : forall A : Type, (A -> A -> bool) -> list A -> list A)
          (config : Config) (uuid_New : nat -> string)
          (request : MatchingRequest) (w w1 w' : World)
          (channels : list Channel) (scored : list MatchingResult),
     sort_Slice_contract sort1 ->
     sort_Slice_contract sort2 ->
     getEligibleChannels (AssetID request) (UserRegion request) w
     = Ret (Ok channels, w1) ->
     channels <> [] ->
     (0 <= MaxMatchingResults config)%Z ->
     scoreAll config uuid_New channels request w1 = Ret (scored, w') ->
     exists results1 results2 : list MatchingResult,
       MatchChannels config uuid_New sort1 request w = Ret (Ok results1, w')
       /\ MatchChannels config uuid_New sort2 request w
          = Ret (Ok results2, w')
       /\ StronglySorted score_ge results1
       /\ StronglySorted score_ge results2
       /\ (no_ties (List.filter (passes config) scored) ->
           results1 = results2))
  /\ (forall (config : Config) (uuid1 uuid2 : nat -> string)
             (request : MatchingRequest) (w v w1 v1 : World)
             (channels : list Channel),
        getEligibleChannels (AssetID request) (UserRegion request) w
        = Ret (Ok channels, w1) ->
        getEligibleChannels (AssetID request) (UserRegion request) v
        = Ret (Ok channels, v1) ->
        channels <> [] ->
        (0 <= MaxMatchingResults config)%Z ->
        exists (results1 results2 : list MatchingResult) (w' v' : World),
          MatchChannels config uuid1 Go_sort_Slice request w
          = Ret (Ok results1, w')
          /\ MatchChannels config uuid2 Go_sort_Slice request v
             = Ret (Ok results2, v')
          /\ map without_redirect results1
             = map without_redirect results2)
  /\ (forall (config : Config) (uuid_New : nat -> string)
             (request : MatchingRequest) (w w' : World)
             (results : list MatchingResult),
        MatchChannels config uuid_New Go_sort_Slice request w
        = Ret (Ok results, w') ->
        exists (again : list MatchingResult) (w'' : World),
          MatchChannels config uuid_New Go_sort_Slice request w'
          = Ret (Ok again, w'')
          /\ map without_redirect again = map without_redirect results)
  /\ (forall (config : Config) (uuid_New : nat -> string)
             (request : MatchingRequest) (w w1 w' : World)
             (channels : list Channel) (scored : list MatchingResult),
        getEligibleChannels (AssetID request) (UserRegion request) w
        = Ret (Ok channels, w1) ->
        channels <> [] ->
        (0 <= MaxMatchingResults config)%Z ->
        scoreAll config uuid_New channels request w1 = Ret (scored, w') ->
        (length (List.filter (passes config) scored) <= 12)%nat ->
        exists results : list MatchingResult,
          MatchChannels config uuid_New Go_sort_Slice request w
          = Ret (Ok results, w')
          /\ StronglySorted score_ge results
          /\ keeps_fetch_order scored results).
Proof.
  split; [|split; [|split]].
  - intros sort1 sort2 config uuid_New request w w1 w' channels scored
      contract1 contract2 Hgot Hne Hmax Hscored.
    pose proof (MatchChannels_run config uuid_New sort1 request w w1 w'
                  channels scored Hgot Hne Hscored Hmax) as Hrun1.
    pose proof (MatchChannels_run config uuid_New sort2 request w w1 w'
                  channels scored Hgot Hne Hscored Hmax) as Hrun2.
    pose proof (sorted_Permutation config sort1 scored contract1) as Hperm1.
    pose proof (sorted_Permutation config sort2 scored contract2) as Hperm2.
    pose proof (sorted_StronglySorted config sort1 scored contract1) as Hs1.
    pose proof (sorted_StronglySorted config sort2 scored contract2) as Hs2.
    eexists _, _. split; [exact Hrun1|]. split; [exact Hrun2|].
    split; [now apply StronglySorted_take|].
    split; [now apply StronglySorted_take|].
    intros Hties. f_equal.
    apply (StronglySorted_unique_strong score_ge); try assumption.
    + intros x1 x2 Hx1 Hx2 H12 H21.
      apply (no_ties_unique (List.filter (passes config) scored));
        [assumption| | |].
      * apply list_elem_of_In in Hx1.
        now apply (Permutation_in _ (Permutation_sym Hperm1)).
      * apply list_elem_of_In in Hx2.
        now apply (Permutation_in _ (Permutation_sym Hperm2)).
      * unfold score_ge in *. lra.
    + now rewrite <- Hperm1, <- Hperm2.
  - intros config uuid1 uuid2 request w v w1 v1 channels.
    apply MatchChannels_same_channels.
  - intros config uuid_New request w w' results Hrun.
    destruct (MatchChannels_leaves_channels_cached _ _ _ _ _ _ _ Hrun)
      as (channels & w1 & Hgot & Hne & Hmax & Hagain).
    destruct (MatchChannels_same_channels config uuid_New uuid_New request
                w' w w' w1 channels Hagain Hgot Hne Hmax)
      as (again & results' & w'' & w2 & Hrun2 & Hrun1 & Hsame).
    rewrite Hrun in Hrun1. injection Hrun1 as <- _.
    now exists again, w''.
  - intros config uuid_New request w w1 w' channels scored Hgot Hne Hmax
      Hscored Hshort.
    eexists. split; [exact (MatchChannels_run config uuid_New Go_sort_Slice
                              request w w1 w' channels scored Hgot Hne
                              Hscored Hmax)|].
    rewrite (Go_sort_Slice_short byMatchScore _ Hshort).
    split.
    + apply StronglySorted_take, byMatchScore_sorted.
      apply insertionSort_contract, byMatchScore_strict_weak_order.
    + intros i j a b Hi Hj Hlt Heq.
      apply (precedes_filter (passes config)).
      apply (insertionSort_stable byMatchScore).
      * apply (precedes_take (Z.to_nat (MaxMatchingResults config))).
        now exists i, j.
      * apply Qgtb_false. rewrite Heq. apply Qle_refl.
Qed.

(** C3 as stated fails.  Thirteen eligible channels, the first scoring
    0.75 and the twelve after it 0.90 each: [sort.Slice] takes the
    seventh as its pivot and moves it to the front, so the call returns
    d06 before d01, ..., d05, which were fetched before it and have the
    same matchScore. *)
Lemma MatchChannels_sort_not_stable :
  exists (scored results : list MatchingResult) (w1 w' : World)
         (a b : MatchingResult),
    getEligibleChannels "asset-1" "US" (exampleWorld thirteenChannels)
    = Ret (Ok thirteenChannels, w1)
    /\ scoreAll setDefaults uuid_seq thirteenChannels exampleRequest w1
       = Ret (scored, w')
    /\ MatchChannels setDefaults uuid_seq Go_sort_Slice exampleRequest
         (exampleWorld thirteenChannels)
       = Ret (Ok results, w')
    /\ map ChannelID scored
       = ["c75"; "d01"; "d02"; "d03"; "d04"; "d05"; "d06"; "d07"; "d08";
          "d09"; "d10"; "d11"; "d12"]
    /\ map ChannelID results
       = ["d06"; "d01"; "d02"; "d03"; "d04"; "d05"; "d07"; "d08"; "d09";
          "d10"]
    /\ results !! 0%nat = Some a
    /\ results !! 1%nat = Some b
    /\ (MatchScore a == MatchScore b)%Q
    /\ ~ keeps_fetch_order scored results.
Proof.
  destruct thirteen_run
    as (scored & results & w1 & w' & Hgot & Hscored & Hrun & Hfetched
        & Hreturned & Hscores).
  destruct results as [|a [|b results]]; [discriminate..|].
  exists scored, (a :: b :: results), w1, w', a, b.
  repeat (split; [assumption || reflexivity|]).
  assert (Htie : (MatchScore a == MatchScore b)%Q).
  { apply Forall_cons in Hscores as [Ha Hscores].
    apply Forall_cons in Hscores as [Hb _]. now rewrite Ha, Hb. }
  split; [exact Htie|].
  intros Hkeeps.
  destruct (Hkeeps 0%nat 1%nat a b eq_refl eq_refl ltac:(lia) Htie)
    as (i & j & Hi & Hj & Hlt).
  injection Hreturned as Ha Hb _.
  apply (f_equal (fmap ChannelID)) in Hi, Hj.
  rewrite <- list_lookup_fmap in Hi, Hj.
  change (fmap ChannelID scored) with (map ChannelID scored) in Hi, Hj.
  rewrite Hfetched in Hi, Hj. cbn [fmap option_fmap option_map] in Hi, Hj.
  rewrite Ha in Hi. rewrite Hb in Hj.
  clear - Hi Hj Hlt.
  assert (i = 6%nat)
    by (do 13 (destruct i as [|i];
               [first [discriminate Hi | reflexivity]|]);
        discriminate Hi).
  assert (j = 1%nat)
    by (do 13 (destruct j as [|j];
               [first [discriminate Hj | reflexivity]|]);
        discriminate Hj).
  lia.
Qed.

Lemma scenario_scored :
  exists (r75 r55 r90 : MatchingResult) (w' : World),
    scoreAll setDefaults uuid_seq [channel75; channel55; channel90]
      exampleRequest
      (set_redis
         (insert ("eligible_channels:" +:+ "asset-1" +:+ ":" +:+ "US")
            (RChannels [channel75; channel55; channel90]))
         (exampleWorld [channel75; channel55; channel90]))
    = Ret ([r75; r55; r90], w')
    /\ (MatchScore r75 == 0.75)%Q
    /\ (MatchScore r55 == 0.55)%Q
    /\ (MatchScore r90 == 0.9)%Q
    /\ map redirectID [r75; r55; r90] = [uuid_seq 0; uuid_seq 1; uuid_seq 2]
    /\ map Channel_ [r75; r55; r90] = [channel75; channel55; channel90].
Proof.
  eexists _, _, _, _. split; [vm_compute; reflexivity|].
  repeat split.
Qed.

(** The amended statement at scenario C, whose three scores differ, and
    at the thirteen channels: the call and its repetition return d06
    first both times. *)
Lemma MatchChannels_order_witness :
  (exists (results : list MatchingResult) (w' : World),
     MatchChannels setDefaults uuid_seq insertionSort exampleRequest
       (exampleWorld [channel75; channel55; channel90])
     = Ret (Ok results, w')
     /\ StronglySorted score_ge results)
  /\ (exists (results1 results2 : list MatchingResult) (w' v' : World),
        MatchChannels setDefaults uuid_seq Go_sort_Slice exampleRequest
          (exampleWorld thirteenChannels)
        = Ret (Ok results1, w')
        /\ MatchChannels setDefaults uuid_seq Go_sort_Slice
             exampleRequest (exampleWorld thirteenChannels)
           = Ret (Ok results2, v')
        /\ map without_redirect results1 = map without_redirect results2)
  /\ (exists (results again : list MatchingResult) (w' w'' : World),
        MatchChannels setDefaults uuid_seq Go_sort_Slice exampleRequest
          (exampleWorld thirteenChannels)
        = Ret (Ok results, w')
        /\ MatchChannels setDefaults uuid_seq Go_sort_Slice exampleRequest w'
           = Ret (Ok again, w'')
        /\ map without_redirect again = map without_redirect results)
  /\ (exists (scored results : list MatchingResult) (w' : World),
        MatchChannels setDefaults uuid_seq Go_sort_Slice exampleRequest
          (exampleWorld [channel75; channel55; channel90])
        = Ret (Ok results, w')
        /\ StronglySorted score_ge results
        /\ keeps_fetch_order scored results).
Proof.
  destruct scenario_scored as (r75 & r55 & r90 & w' & Hscored & _).
  split; [|split; [|split]].
  - destruct (proj1 MatchChannels_order
                insertionSort insertionSort setDefaults uuid_seq
                exampleRequest
                (exampleWorld [channel75; channel55; channel90]) _ w'
                [channel75; channel55; channel90] [r75; r55; r90]
                insertionSort_contract insertionSort_contract
                eq_refl ltac:(discriminate) ltac:(discriminate) Hscored)
      as (results1 & _ & Hrun1 & _ & Hs1 & _).
    exists results1, w'. split; [exact Hrun1|exact Hs1].
  - exact (proj1 (proj2 MatchChannels_order)
             setDefaults uuid_seq uuid_seq exampleRequest
             (exampleWorld thirteenChannels)
             (exampleWorld thirteenChannels) _ _ thirteenChannels
             eq_refl eq_refl ltac:(discriminate) ltac:(discriminate)).
  - destruct thirteen_run as (_ & results & _ & w13 & _ & _ & Hrun & _).
    destruct (proj1 (proj2 (proj2 MatchChannels_order))
                setDefaults uuid_seq exampleRequest
                (exampleWorld thirteenChannels) w13 results Hrun)
      as (again & w'' & Hagain & Hsame).
    exists results, again, w13, w''.
    split; [exact Hrun|]. split; [exact Hagain|exact Hsame].
  - destruct (proj2 (proj2 (proj2 MatchChannels_order))
                setDefaults uuid_seq exampleRequest
                (exampleWorld [channel75; channel55; channel90]) _ w'
                [channel75; channel55; channel90] [r75; r55; r90]
                eq_refl ltac:(discriminate) ltac:(discriminate) Hscored)
      as (results & Hrun & Hsorted & Hkeeps).
    + transitivity (length [r75; r55; r90]); [|cbn; lia].
      apply List.filter_length_le.
    + exists [r75; r55; r90], results, w'.
      split; [exact Hrun|]. split; [exact Hsorted|exact Hkeeps].
Defined.

(** ** Redirect tokens *)

Lemma uuid_seq_inj : Inj (=) (=) uuid_seq.
Proof.
  intros m n H. unfold uuid_seq in H.
  apply String.app_inj in H. now apply pretty_nat_inj in H.
Qed.

(** Scenario C under the insertion sort: the channel scored 0.55 is dropped,
    yet the descriptor issued for it is in Redis. *)
Lemma scenario_run :
  exists (results : list MatchingResult) (w' : World)
         (record : RedirectRecord),
    MatchChannels setDefaults uuid_seq insertionSort exampleRequest
      (exampleWorld [channel75; channel55; channel90])
    = Ret (Ok results, w')
    /\ map Channel_ results = [channel90; channel75]
    /\ map redirectID results = [uuid_seq 2; uuid_seq 0]
    /\ redis (exampleWorld [channel75; channel55; channel90])
         !! ("redirect:" +:+ uuid_seq 1) = None
    /\ redis w' !! ("redirect:" +:+ uuid_seq 1) = Some (RRedirect record)
    /\ URL (redirect_info record) = "https://c55.example?redirect_id=uuid-1".
Proof.
  eexists _, _, _. split; [vm_compute; reflexivity|].
  repeat split.
Qed.

(** C9 as stated fails: a token is written for a candidate that is scored
    and then dropped by the minimum-score filter. *)
Lemma MatchChannels_stores_token_of_dropped_candidate :
  exists (results : list MatchingResult) (w' : World)
         (record : RedirectRecord),
    MatchChannels setDefaults uuid_seq insertionSort exampleRequest
      (exampleWorld [channel75; channel55; channel90])
    = Ret (Ok results, w')
    /\ map Channel_ results = [channel90; channel75]
    /\ map redirectID results = [uuid_seq 2; uuid_seq 0]
    /\ redis (exampleWorld [channel75; channel55; channel90])
         !! ("redirect:" +:+ uuid_seq 1) = None
    /\ redis w' !! ("redirect:" +:+ uuid_seq 1) = Some (RRedirect record)
    /\ URL (redirect_info record) = "https://c55.example?redirect_id=uuid-1".
Proof. exact scenario_run. Qed.

(** C9, amended.  Within one [MatchChannels] call a redirect token is
    generated and written to the token store for every scored candidate,
    that is for every eligible channel, at scoring time, before the
    minimum-score filter and the truncation: as many identifiers are drawn
    as there are eligible channels, and the descriptor of every scored
    candidate is in the store under its identifier when the call returns.
    Every returned result is one of them and so carries a stored
    descriptor; the tokens of the candidates that were dropped are stored
    as well. *)
Theorem MatchChannels_issues_token_per_candidate :
  forall (sort_Slice : forall A : Type, (A -> A -> bool) -> list A -> list A)
         (config : Config) (uuid_New : nat -> string)
         (request : MatchingRequest) (w w' : World)
         (results : list MatchingResult),
    sort_Slice_contract sort_Slice ->
    Inj (=) (=) uuid_New ->
    MatchChannels config uuid_New sort_Slice request w
    = Ret (Ok results, w') ->
    exists (channels : list Channel) (w1 : World)
           (scored : list MatchingResult),
      getEligibleChannels (AssetID request) (UserRegion request) w
      = Ret (Ok channels, w1)
      /\ scoreAll config uuid_New channels request w1 = Ret (scored, w')
      /\ length scored = length channels
      /\ uuids w' = (uuids w + length channels)%nat
      /\ (forall r, In r scored ->
            redis w' !! ("redirect:" +:+ redirectID r)
            = Some (stored_redirect request (clock w) r))
      /\ (forall r, In r results -> In r scored)
      /\ (forall r, In r results ->
            GetRedirectInfo (redirectID r) w'
            = Ret (Ok {| redirect_info := RedirectInfo_ r;
                         request := request;
                         created_at := clock w |}, w')).
Proof.
  intros sort_Slice config uuid_New request w w' results contract Hinj Hrun.
  destruct (MatchChannels_Ok_inv _ _ _ _ _ _ _ Hrun)
    as (channels & w1 & scored & Hgot & Hne & Hscored & Hw' & Hmax & ->).
  destruct (getEligibleChannels_frame (AssetID request) (UserRegion request) w)
    as (got & w1' & Hgot' & Hclock & Huuids & _).
  rewrite Hgot in Hgot'. injection Hgot' as <- <-.
  destruct (scoreAll_run config uuid_New channels request w1)
    as (rs & Hrs & Hlen & _).
  rewrite Hscored in Hrs. injection Hrs as <- _.
  assert (Hstored : forall r, In r scored ->
            redis w' !! ("redirect:" +:+ redirectID r)
            = Some (stored_redirect request (clock w) r)).
  { intros r Hr.
    destruct (In_scored_match_of _ _ _ _ _ _ _ _ Hscored Hr)
      as (i & channel & _ & Hi & Hmatch).
    destruct Hmatch as (_ & _ & _ & _ & -> & _).
    rewrite Hw', <- Hclock. now apply issue_all_lookup. }
  assert (Hsub : forall r,
            In r (take (Z.to_nat (MaxMatchingResults config))
                    (sort_Slice _ byMatchScore
                       (List.filter (passes config) scored))) ->
            In r scored).
  { intros r Hr. apply In_take in Hr.
    now apply (In_sorted config sort_Slice scored contract) in Hr. }
  exists channels, w1, scored.
  split; [assumption|]. split; [assumption|]. split; [assumption|].
  split; [rewrite Hw', issue_all_uuids; lia|].
  split; [assumption|]. split; [assumption|].
  intros r Hr. unfold GetRedirectInfo, st_bind, redis_Get.
  rewrite (Hstored r (Hsub r Hr)). reflexivity.
Qed.

(** The amended statement at scenario C: three identifiers drawn for
    three eligible channels, two results returned. *)
Lemma MatchChannels_issues_token_per_candidate_witness :
  exists (results : list MatchingResult) (w' : World)
         (scored : list MatchingResult),
    MatchChannels setDefaults uuid_seq insertionSort exampleRequest
      (exampleWorld [channel75; channel55; channel90])
    = Ret (Ok results, w')
    /\ length results = 2%nat
    /\ length scored = 3%nat
    /\ uuids w' = 3%nat
    /\ (forall r, In r scored ->
          redis w' !! ("redirect:" +:+ redirectID r)
          = Some (stored_redirect exampleRequest 1700000000 r))
    /\ (forall r, In r results -> In r scored).
Proof.
  destruct scenario_run as (results & w' & record & Hrun & Hmap & _).
  destruct (MatchChannels_issues_token_per_candidate insertionSort
              setDefaults uuid_seq exampleRequest _ w' results
              insertionSort_contract uuid_seq_inj Hrun)
    as (channels & w1 & scored & Hgot & _ & Hlen & Huuids & Hstored
        & Hsub & _).
  rewrite getEligibleChannels_miss in Hgot. injection Hgot as <- _.
  exists results, w', scored. split; [assumption|].
  split; [now rewrite <- (length_map Channel_), Hmap|].
  split; [assumption|]. split; [assumption|]. split; assumption.
Defined.

(** ** The attribution path *)

Lemma redis_range_all (l : list string) : redis_range l 0 (-1) = l.
Proof.
  unfold redis_range. cbn [Z.ltb Z.compare].
  replace (Z.to_nat (Z.of_nat (length l) + -1 + 1 - 0)) with (length l)
    by lia.
  cbn [Z.to_nat drop]. apply firstn_all.
Qed.

Lemma redis_range_first_ten (l : list string) :
  redis_range l 0 9 = take 10 l.
Proof. reflexivity. Qed.

Lemma take_app_take {A : Type} (n : nat) (l k : list A) :
  take n (l ++ take n k) = take n (l ++ k).
Proof.
  rewrite !take_app, take_take. f_equal. f_equal. lia.
Qed.

Lemma path_key_inj (u v : string) :
  "attribution_path:" +:+ u = "attribution_path:" +:+ v -> u = v.
Proof. apply String.app_inj. Qed.

Section AttributionPath.

Variable config : Config.

Lemma getUserAttributionPath_run (userID : string) (w : World) :
  getUserAttributionPath userID w = Ret (path_of userID w, w).
Proof.
  unfold getUserAttributionPath, path_of, st_bind, redis_LRange.
  destruct (redis w !! _) as [[cs|r|n|x|l]|]; try reflexivity.
  now rewrite redis_range_all.
Qed.

(** One update, when the key of the user is free or holds a list: the
    touchpoint goes to the front and the path is cut to ten. *)
Lemma updateUserAttributionPath_ok (event : AttributionEvent.t)
    (w : World) :
  path_key_ok (AttributionEvent.UserID event) w ->
  updateUserAttributionPath config event w
  = Ret (tt,
         set_redis
           (insert ("attribution_path:" +:+ AttributionEvent.UserID event)
              (RList (take 10
                        (touchpoint event
                           :: path_of (AttributionEvent.UserID event) w))))
           w).
Proof.
  unfold updateUserAttributionPath, path_key_ok, path_of, st_bind,
    redis_LRange, redis_LPush, redis_LTrim, redis_Expire.
  fold (touchpoint event).
  set (key := "attribution_path:" +:+ AttributionEvent.UserID event).
  destruct (redis w !! key) as [[cs|r|n|x|l]|] eqn:Hkey;
    intros Hok; try (now destruct Hok); clear Hok; rewrite ?Hkey;
    cbn [set_redis redis]; rewrite lookup_insert_eq;
    rewrite redis_range_first_ten; cbn [take];
    unfold set_redis; cbn [redis db clock uuids];
    now rewrite insert_insert_eq.
Qed.

(** A key of another type makes every list command fail; the service
    drops the errors and the world stays as it is. *)
Lemma updateUserAttributionPath_wrong_type (event : AttributionEvent.t)
    (w : World) :
  ~ path_key_ok (AttributionEvent.UserID event) w ->
  updateUserAttributionPath config event w = Ret (tt, w).
Proof.
  unfold updateUserAttributionPath, path_key_ok, path_of, st_bind,
    redis_LRange, redis_LPush, redis_LTrim, redis_Expire.
  destruct (redis w !! _) as [[cs|r|n|x|l]|] eqn:Hkey;
    intros H; try (now destruct H); now rewrite ?Hkey.
Qed.

Lemma path_key_ok_dec (userID : string) (w : World) :
  path_key_ok userID w \/ ~ path_key_ok userID w.
Proof.
  unfold path_key_ok. destruct (redis w !! _) as [[cs|r|n|x|l]|]; tauto.
Qed.

Lemma updateUserAttributionPath_run (event : AttributionEvent.t)
    (w : World) :
  exists w',
    updateUserAttributionPath config event w = Ret (tt, w')
    /\ (path_key_ok (AttributionEvent.UserID event) w ->
        path_key_ok (AttributionEvent.UserID event) w'
        /\ path_of (AttributionEvent.UserID event) w'
           = take 10 (touchpoint event
                        :: path_of (AttributionEvent.UserID event) w))
    /\ (~ path_key_ok (AttributionEvent.UserID event) w -> w' = w)
    /\ (forall u, u <> AttributionEvent.UserID event ->
          path_of u w' = path_of u w).
Proof.
  destruct (path_key_ok_dec (AttributionEvent.UserID event) w) as [Hok|Hbad].
  - eexists. split; [now apply updateUserAttributionPath_ok|].
    split; [|split; [intros H; contradiction|]].
    + intros _. unfold path_key_ok, path_of. cbn [set_redis redis].
      now rewrite lookup_insert_eq.
    + intros u Hu. unfold path_of. cbn [set_redis redis].
      rewrite lookup_insert_ne; [reflexivity|].
      intros Heq. apply path_key_inj in Heq. congruence.
  - exists w. split; [now apply updateUserAttributionPath_wrong_type|].
    split; [intros H; contradiction|]. now split.
Qed.

Lemma updateUserAttributionPath_length (event : AttributionEvent.t)
    (w w' : World) :
  (length (path_of (AttributionEvent.UserID event) w) <= 10)%nat ->
  updateUserAttributionPath config event w = Ret (tt, w') ->
  (length (path_of (AttributionEvent.UserID event) w') <= 10)%nat.
Proof.
  intros Hlen Hrun.
  destruct (updateUserAttributionPath_run event w)
    as (w'' & Hrun' & Hok & Hbad & _).
  rewrite Hrun in Hrun'. injection Hrun' as <-.
  destruct (path_key_ok_dec (AttributionEvent.UserID event) w) as [H|H].
  - destruct (Hok H) as [_ ->]. rewrite length_take. lia.
  - now rewrite (Hbad H).
Qed.

Lemma appendTouchpoints_run (userID : string)
    (events : list AttributionEvent.t) (event : AttributionEvent.t)
    (w : World) :
  Forall (fun event => AttributionEvent.UserID event = userID)
    (event :: events) ->
  path_key_ok userID w ->
  exists w',
    appendTouchpoints config (event :: events) w = Ret (tt, w')
    /\ path_key_ok userID w'
    /\ path_of userID w'
       = take 10 (rev (map touchpoint (event :: events))
                  ++ path_of userID w).
Proof.
  revert event w.
  induction events as [|event' events IH]; intros event w Huser Hok;
    apply Forall_cons in Huser as [<- Huser];
    destruct (updateUserAttributionPath_run event w)
      as (w1 & Hrun & Hpath & _);
    destruct (Hpath Hok) as [Hok1 Hpath1].
  - exists w1. split; [|split; assumption].
    cbn [appendTouchpoints]. unfold st_bind. now rewrite Hrun.
  - destruct (IH event' w1 Huser Hok1) as (w' & Hrun' & Hok' & Hpath').
    exists w'. split; [|split; [assumption|]].
    + cbn [appendTouchpoints] in *. unfold st_bind at 1. now rewrite Hrun.
    + rewrite Hpath', Hpath1, take_app_take.
      cbn [map rev]. now rewrite <- !app_assoc.
Qed.

End AttributionPath.

(** C7. The path [updateUserAttributionPath] keeps for a user never grows
    beyond ten entries, holds the most recent touchpoint first, and loses
    its oldest entries when the cap is exceeded: after any update the path
    of the user of the event has at most ten entries; touchpoints appended
    to a path leave its ten most recent entries, the last appended first;
    and after fifteen touchpoints of one user the path is exactly the last
    ten of them, most recent first, which is what
    [getUserAttributionPath] reads. *)
Theorem attribution_path_capped :
  forall config : Config,
    (forall (event : AttributionEvent.t) (w : World),
       exists w',
         updateUserAttributionPath config event w = Ret (tt, w')
         /\ (length (path_of (AttributionEvent.UserID event) w') <= 10)%nat
         /\ (path_key_ok (AttributionEvent.UserID event) w ->
             path_of (AttributionEvent.UserID event) w'
             = take 10 (touchpoint event
                          :: path_of (AttributionEvent.UserID event) w)))
    /\ (forall (userID : string) (event : AttributionEvent.t)
               (events : list AttributionEvent.t) (w : World),
          Forall (fun event => AttributionEvent.UserID event = userID)
            (event :: events) ->
          path_key_ok userID w ->
          exists w',
            appendTouchpoints config (event :: events) w = Ret (tt, w')
            /\ path_of userID w'
               = take 10 (rev (map touchpoint (event :: events))
                          ++ path_of userID w)
            /\ (length (path_of userID w') <= 10)%nat)
    /\ (forall (userID : string) (events : list AttributionEvent.t)
               (w : World),
          length events = 15%nat ->
          Forall (fun event => AttributionEvent.UserID event = userID)
            events ->
          path_key_ok userID w ->
          exists w',
            appendTouchpoints config events w = Ret (tt, w')
            /\ path_of userID w' = rev (map touchpoint (drop 5 events))
            /\ length (path_of userID w') = 10%nat
            /\ getUserAttributionPath userID w'
               = Ret (rev (map touchpoint (drop 5 events)), w')).
Proof.
  intros config. split; [|split].
  - intros event w.
    destruct (updateUserAttributionPath_run config event w)
      as (w' & Hrun & Hok & Hbad & _).
    exists w'. split; [assumption|]. split.
    + destruct (path_key_ok_dec (AttributionEvent.UserID event) w) as [H|H].
      * destruct (Hok H) as [_ ->]. rewrite length_take. lia.
      * rewrite (Hbad H). unfold path_key_ok in H. unfold path_of.
        destruct (redis w !! _) as [[cs|r|n|x|l]|]; cbn; try lia;
          now destruct H.
    + intros H. now destruct (Hok H).
  - intros userID event events w Huser Hok.
    destruct (appendTouchpoints_run config userID events event w Huser Hok)
      as (w' & Hrun & _ & Hpath).
    exists w'. split; [assumption|]. split; [assumption|].
    rewrite Hpath, length_take. lia.
  - intros userID events w Hlen Huser Hok.
    destruct events as [|event events]; [discriminate|].
    destruct (appendTouchpoints_run config userID events event w Huser Hok)
      as (w' & Hrun & _ & Hpath).
    assert (Hten : path_of userID w'
                   = rev (map touchpoint (drop 5 (event :: events)))).
    { rewrite Hpath, take_app_le
        by (rewrite length_rev, length_map, Hlen; lia).
      rewrite firstn_rev, length_map, Hlen, skipn_map. reflexivity. }
    exists w'. split; [assumption|]. split; [assumption|]. split.
    + rewrite Hten, length_rev, length_map, length_drop, Hlen. reflexivity.
    + rewrite getUserAttributionPath_run. now rewrite Hten.
Qed.

(** Fifteen clicks of one user on an empty Redis: the path holds the
    touchpoints of the seconds 15 down to 6. *)
Lemma attribution_path_capped_witness :
  exists w',
    appendTouchpoints setDefaults exampleEvents (exampleWorld [])
    = Ret (tt, w')
    /\ path_of "user-1" w'
       = ["a:click:15"; "b:click:14"; "a:click:13"; "b:click:12";
          "a:click:11"; "b:click:10"; "a:click:9"; "b:click:8";
          "a:click:7"; "b:click:6"]
    /\ length (path_of "user-1" w') = 10%nat.
Proof.
  destruct (proj2 (proj2 (attribution_path_capped setDefaults))
              "user-1" exampleEvents (exampleWorld []))
    as (w' & Hrun & Hpath & Hlen & _).
  - reflexivity.
  - repeat constructor.
  - exact I.
  - exists w'. split; [assumption|]. split; [|assumption].
    rewrite Hpath. reflexivity.
Defined.

(** ** The daily statistics of a channel *)

(** After four clicks and one conversion worth 50 the conversion rate the
    service computes is 25, a percentage, where conversions / clicks is
    1/4. *)
Lemma exampleStats_run :
  exists (stats : AttributionStats.t) (w' : World),
    exampleStats (exampleWorld []) = Ret (stats, w')
    /\ AttributionStats.TotalClicks stats = 4%Z
    /\ AttributionStats.TotalConversions stats = 1%Z
    /\ (AttributionStats.TotalRevenue stats == 50)%Q
    /\ (AttributionStats.ConversionRate stats == 25)%Q
    /\ ~ (AttributionStats.ConversionRate stats == 1 / 4)%Q
    /\ (AttributionStats.AverageOrderValue stats == 50)%Q.
Proof.
  eexists _, _. split; [vm_compute; reflexivity|].
  repeat split. discriminate.
Qed.

(** C8 as stated fails: the conversion rate is not the ratio
    conversions / clicks. *)
Lemma calculateChannelStats_rate_is_not_the_ratio :
  exists (stats : AttributionStats.t) (w' : World),
    exampleStats (exampleWorld []) = Ret (stats, w')
    /\ AttributionStats.TotalClicks stats = 4%Z
    /\ AttributionStats.TotalConversions stats = 1%Z
    /\ (AttributionStats.TotalRevenue stats == 50)%Q
    /\ (AttributionStats.ConversionRate stats == 25)%Q
    /\ ~ (AttributionStats.ConversionRate stats == 1 / 4)%Q
    /\ (AttributionStats.AverageOrderValue stats == 50)%Q.
Proof. exact exampleStats_run. Qed.

Lemma redis_Get_Int64_run (key : string) (w : World) :
  exists n, redis_Get_Int64 key w = Ret (n, w).
Proof.
  unfold redis_Get_Int64.
  destruct (redis w !! key) as [[cs|r|n|x|l]|]; eexists; reflexivity.
Qed.

Lemma redis_Get_Float64_run (key : string) (w : World) :
  exists x, redis_Get_Float64 key w = Ret (x, w).
Proof.
  unfold redis_Get_Float64.
  destruct (redis w !! key) as [[cs|r|n|x|l]|]; eexists; reflexivity.
Qed.

(** C8, amended.  For every channel and day [calculateChannelStats]
    returns, from the click, conversion and revenue counters of the day:
    conversion rate = conversions / clicks * 100, a percentage, and 0 when
    there are no clicks; average order value = revenue / conversions, and
    0 when there are no conversions. *)
Theorem calculateChannelStats_rates :
  forall (time_Format : Z -> string) (channelID : string) (w : World),
    let today := time_Format (clock w) in
    exists (clicks conversions : Z) (revenue : Q)
           (stats : AttributionStats.t),
      redis_Get_Int64 ("clicks:" +:+ channelID +:+ ":" +:+ today) w
      = Ret (clicks, w)
      /\ redis_Get_Int64 ("conversions:" +:+ channelID +:+ ":" +:+ today) w
         = Ret (conversions, w)
      /\ redis_Get_Float64 ("revenue:" +:+ channelID +:+ ":" +:+ today) w
         = Ret (revenue, w)
      /\ calculateChannelStats time_Format channelID w = Ret (stats, w)
      /\ AttributionStats.ChannelID stats = channelID
      /\ AttributionStats.Period stats = today
      /\ AttributionStats.TotalClicks stats = clicks
      /\ AttributionStats.TotalConversions stats = conversions
      /\ AttributionStats.TotalRevenue stats = revenue
      /\ ((0 < clicks)%Z ->
          AttributionStats.ConversionRate stats
          = (inject_Z conversions / inject_Z clicks * 100)%Q)
      /\ ((clicks <= 0)%Z -> AttributionStats.ConversionRate stats = 0%Q)
      /\ ((0 < conversions)%Z ->
          AttributionStats.AverageOrderValue stats
          = (revenue / inject_Z conversions)%Q)
      /\ ((conversions <= 0)%Z ->
          AttributionStats.AverageOrderValue stats = 0%Q).
Proof.
  intros time_Format channelID w today.
  destruct (redis_Get_Int64_run
              ("clicks:" +:+ channelID +:+ ":" +:+ today) w)
    as [clicks Hclicks].
  destruct (redis_Get_Int64_run
              ("conversions:" +:+ channelID +:+ ":" +:+ today) w)
    as [conversions Hconversions].
  destruct (redis_Get_Float64_run
              ("revenue:" +:+ channelID +:+ ":" +:+ today) w)
    as [revenue Hrevenue].
  exists clicks, conversions, revenue.
  unfold calculateChannelStats, st_bind at 1 2 3 4, time_Now.
  fold today. rewrite Hclicks, Hconversions, Hrevenue.
  assert (Hnz : forall n : Z, (0 < n)%Z -> ~ (inject_Z n == 0)%Q).
  { intros n Hn H. unfold Qeq, inject_Z in H. cbn in H. lia. }
  destruct (0 <? clicks)%Z eqn:Hc; destruct (0 <? conversions)%Z eqn:Hv;
    [apply Z.ltb_lt in Hc | apply Z.ltb_lt in Hc | apply Z.ltb_ge in Hc
     | apply Z.ltb_ge in Hc];
    [apply Z.ltb_lt in Hv | apply Z.ltb_ge in Hv | apply Z.ltb_lt in Hv
     | apply Z.ltb_ge in Hv];
    unfold st_bind, lift, st_ret;
    rewrite ?(fdiv_nonzero _ _ (Hnz _ Hc)), ?(fdiv_nonzero _ _ (Hnz _ Hv));
    cbn [run_bind];
    rewrite ?(fdiv_nonzero _ _ (Hnz _ Hc)), ?(fdiv_nonzero _ _ (Hnz _ Hv));
    cbn [run_bind];
    eexists; repeat (split; [reflexivity|]); cbn;
    repeat split; intros; (reflexivity || lia).
Qed.

(** The amended statement at the counters of the example: 1 conversion
    for 4 clicks is a rate of 25. *)
Lemma calculateChannelStats_rates_witness :
  exists stats : AttributionStats.t,
    calculateChannelStats day_of "c75" statsWorld = Ret (stats, statsWorld)
    /\ AttributionStats.TotalClicks stats = 4%Z
    /\ AttributionStats.TotalConversions stats = 1%Z
    /\ AttributionStats.ConversionRate stats
       = (inject_Z 1 / inject_Z 4 * 100)%Q
    /\ (AttributionStats.ConversionRate stats == 25)%Q.
Proof.
  destruct (calculateChannelStats_rates day_of "c75" statsWorld)
    as (clicks & conversions & revenue & stats & Hclicks & Hconversions
        & _ & Hrun & _ & _ & Hc & Hv & _ & Hrate & _).
  vm_compute in Hclicks. injection Hclicks as <-.
  vm_compute in Hconversions. injection Hconversions as <-.
  exists stats. split; [assumption|]. split; [assumption|].
  split; [assumption|].
  assert (H := Hrate eq_refl).
  split; [assumption|]. rewrite H. reflexivity.
Defined.

(** * Further properties of the two services *)

(** ** The eligibility cache *)

(** X1. Once [getEligibleChannels] has answered for an asset and a region,
    the answer is served from the cache: a later call for the same pair, in
    any world whose cache entry is the one the first call left, returns the
    same channels without changing anything, whatever has become of the
    channel table in the meantime (rows added, removed, or the database
    failing). *)
Theorem getEligibleChannels_served_from_cache :
  forall (assetID userRegion : string) (w w1 w2 : World)
         (channels : list Channel),
    getEligibleChannels assetID userRegion w = Ret (Ok channels, w1) ->
    redis w2 !! eligibility_key assetID userRegion
    = redis w1 !! eligibility_key assetID userRegion ->
    getEligibleChannels assetID userRegion w2 = Ret (Ok channels, w2)
    /\ forall table : result (list Channel),
         getEligibleChannels assetID userRegion (set_db table w1)
         = Ret (Ok channels, set_db table w1).
Proof.
  intros assetID userRegion w w1 w2 channels Hrun Hsame.
  pose proof (getEligibleChannels_Ok_cached _ _ _ _ _ Hrun) as Hcached.
  split.
  - apply getEligibleChannels_hit. now rewrite Hsame.
  - intros table. now apply getEligibleChannels_hit.
Qed.

(** A table with one eligible channel, then the database failing: the
    cached answer is still served. *)
Lemma getEligibleChannels_served_from_cache_witness :
  exists w1 : World,
    getEligibleChannels "asset-1" "US" (exampleWorld [channelB])
    = Ret (Ok [channelB], w1)
    /\ getEligibleChannels "asset-1" "US" (set_db (Err "connection lost") w1)
       = Ret (Ok [channelB], set_db (Err "connection lost") w1).
Proof.
  eexists. split; [apply getEligibleChannels_miss|].
  apply (getEligibleChannels_served_from_cache "asset-1" "US"
           (exampleWorld [channelB]) _ _ [channelB]
           (getEligibleChannels_miss "asset-1" "US" [channelB]) eq_refl).
Defined.

(** ** The outcomes of [MatchChannels] *)

Section MatchChannelsOutcomes.

Variable config : Config.
Variable uuid_New : nat -> string.
Variable sort_Slice : forall A : Type, (A -> A -> bool) -> list A -> list A.
Variable request : MatchingRequest.

Lemma MatchChannels_store_error (w w1 : World) (err : string) :
  getEligibleChannels (AssetID request) (UserRegion request) w
  = Ret (Err err, w1) ->
  MatchChannels config uuid_New sort_Slice request w
  = Ret (Err ("failed to get eligible channels: " +:+ err), w1).
Proof.
  intros H. unfold MatchChannels, st_bind. now rewrite H.
Qed.

Lemma MatchChannels_no_channel (w w1 : World) :
  getEligibleChannels (AssetID request) (UserRegion request) w
  = Ret (Ok [], w1) ->
  MatchChannels config uuid_New sort_Slice request w
  = Ret (Err ("no eligible channels found for asset "
              +:+ AssetID request +:+ " in region "
              +:+ UserRegion request), w1).
Proof.
  intros H. unfold MatchChannels, st_bind. now rewrite H.
Qed.

(** What a call leaves alone, whatever it returns: the channel table, the
    clock, and every Redis key but the cache entry of the request and the
    keys of the redirect identifiers it draws. *)
Lemma MatchChannels_frame (w w' : World)
    (res : result (list MatchingResult)) :
  MatchChannels config uuid_New sort_Slice request w = Ret (res, w') ->
  db w' = db w /\ clock w' = clock w /\ (uuids w <= uuids w')%nat
  /\ forall key : string,
       key <> eligibility_key (AssetID request) (UserRegion request) ->
       (forall i : nat, key <> "redirect:" +:+ uuid_New (uuids w + i)) ->
       redis w' !! key = redis w !! key.
Proof.
  intros Hrun.
  destruct (getEligibleChannels_frame (AssetID request) (UserRegion request) w)
    as (got & w1 & Hgot & Hclock & Huuids & Hdb & Hkeys).
  destruct got as [[|c cs]|err].
  - rewrite (MatchChannels_no_channel _ _ Hgot) in Hrun.
    injection Hrun as _ <-. rewrite Huuids. repeat split; auto.
  - destruct (scoreAll_run config uuid_New (c :: cs) request w1)
      as (scored & Hscored & Hlen & _).
    destruct (Z_lt_le_dec (MaxMatchingResults config) 0) as [Hneg|Hmax].
    + rewrite (MatchChannels_negative_count config uuid_New sort_Slice
                 request w w1 _ (c :: cs) scored Hgot ltac:(discriminate)
                 Hscored Hneg) in Hrun.
      discriminate.
    + rewrite (MatchChannels_run config uuid_New sort_Slice request
                 w w1 _ (c :: cs) scored Hgot ltac:(discriminate)
                 Hscored Hmax) in Hrun.
      injection Hrun as _ <-.
      destruct (issue_all_clock_db uuid_New request scored w1) as [-> ->].
      rewrite issue_all_uuids. repeat split; auto; try lia.
      intros key Hkey Hfresh. rewrite issue_all_lookup_other.
      * now apply Hkeys.
      * intros i _. rewrite Huuids. apply Hfresh.
  - rewrite (MatchChannels_store_error _ _ _ Hgot) in Hrun.
    injection Hrun as _ <-. rewrite Huuids. repeat split; auto.
Qed.

End MatchChannelsOutcomes.

(** X2. When the cache has no channel list for the request and the
    channel query fails, [MatchChannels] returns the error of the query
    behind "failed to get eligible channels: " and leaves the world as it
    was: nothing is cached and no redirect identifier is drawn. *)
Theorem MatchChannels_query_failure :
  forall (sort_Slice : forall A : Type, (A -> A -> bool) -> list A -> list A)
         (config : Config) (uuid_New : nat -> string)
         (request : MatchingRequest) (w : World) (err : string),
    cache_miss (AssetID request) (UserRegion request) w ->
    db w = Err err ->
    MatchChannels config uuid_New sort_Slice request w
    = Ret (Err ("failed to get eligible channels: " +:+ err), w).
Proof.
  intros sort_Slice config uuid_New request w err Hmiss Hdb.
  apply MatchChannels_store_error.
  now apply getEligibleChannels_miss_err.
Qed.

(** The query failing on an empty Redis. *)
Lemma MatchChannels_query_failure_witness :
  MatchChannels setDefaults uuid_seq insertionSort exampleRequest
    (set_db (Err "connection refused") (exampleWorld []))
  = Ret (Err "failed to get eligible channels: connection refused",
         set_db (Err "connection refused") (exampleWorld [])).
Proof.
  apply (MatchChannels_query_failure insertionSort setDefaults uuid_seq
           exampleRequest (set_db (Err "connection refused")
                             (exampleWorld [])) "connection refused").
  - exact I.
  - reflexivity.
Defined.

(** X3. When no row of the channel table is eligible, [MatchChannels]
    returns the error "no eligible channels found for asset A in region
    R" without drawing a redirect identifier, and the empty answer is
    cached: the same request keeps failing the same way after an eligible
    channel has been added to the table, for as long as the cache entry
    lives. *)
Theorem MatchChannels_no_eligible_channel :
  forall (sort_Slice : forall A : Type, (A -> A -> bool) -> list A -> list A)
         (config : Config) (uuid_New : nat -> string)
         (request : MatchingRequest) (w : World) (table : list Channel),
    cache_miss (AssetID request) (UserRegion request) w ->
    db w = Ok table ->
    List.filter (eligible (AssetID request) (UserRegion request)) table = [] ->
    let message :=
      "no eligible channels found for asset " +:+ AssetID request
      +:+ " in region " +:+ UserRegion request in
    exists w1 : World,
      MatchChannels config uuid_New sort_Slice request w
      = Ret (Err message, w1)
      /\ uuids w1 = uuids w
      /\ redis w1 !! eligibility_key (AssetID request) (UserRegion request)
         = Some (RChannels [])
      /\ forall table' : result (list Channel),
           MatchChannels config uuid_New sort_Slice request (set_db table' w1)
           = Ret (Err message, set_db table' w1).
Proof.
  intros sort_Slice config uuid_New request w table Hmiss Hdb Hnone message.
  pose proof (getEligibleChannels_miss_ok _ _ _ _ Hmiss Hdb) as Hgot.
  rewrite Hnone in Hgot.
  eexists. split; [apply MatchChannels_no_channel; exact Hgot|].
  split; [reflexivity|]. split; [apply lookup_insert_eq|].
  intros table'. apply MatchChannels_no_channel.
  apply getEligibleChannels_hit. cbn [set_db set_redis redis].
  apply lookup_insert_eq.
Qed.

(** An empty table, then a table with an eligible channel: the request
    fails both times. *)
Lemma MatchChannels_no_eligible_channel_witness :
  exists w1 : World,
    MatchChannels setDefaults uuid_seq insertionSort exampleRequest
      (exampleWorld [])
    = Ret (Err "no eligible channels found for asset asset-1 in region US",
           w1)
    /\ MatchChannels setDefaults uuid_seq insertionSort exampleRequest
         (set_db (Ok [channelB]) w1)
       = Ret (Err "no eligible channels found for asset asset-1 in region US",
              set_db (Ok [channelB]) w1).
Proof.
  destruct (MatchChannels_no_eligible_channel insertionSort setDefaults
              uuid_seq exampleRequest (exampleWorld []) [] I eq_refl eq_refl)
    as (w1 & Hrun & _ & _ & Hlater).
  exists w1. split; [exact Hrun|]. apply Hlater.
Defined.

(** ** The range of the match score *)

Lemma calculateAvailabilityScore_range (channel : Channel)
    (request : MatchingRequest) :
  (0.2 <= calculateAvailabilityScore channel request <= 1)%Q
  /\ (Available (checkChannelAvailability channel request) = false ->
      (calculateAvailabilityScore channel request <= 0.7)%Q)
  /\ (Available (checkChannelAvailability channel request) = true ->
      (0.9 <= calculateAvailabilityScore channel request)%Q).
Proof.
  unfold calculateAvailabilityScore, checkChannelAvailability.
  destruct (KYCRequired (Compliance channel) && _),
    (Qgtb (MinimumNetWorth (Compliance channel)) 0),
    (negb (supportedPayment channel request));
    cbn [Available]; repeat split; intros; try discriminate;
    vm_compute; discriminate.
Qed.

Lemma calculateUXScore_lower (channel : Channel) (request : MatchingRequest) :
  (0.1 <= calculateUXScore channel request)%Q.
Proof.
  unfold calculateUXScore.
  destruct (hasTradingAPI channel), (Chat (Support channel)),
    (negb (String.eqb (Phone (Support channel)) "")),
    (String.eqb (ResponseTime (Support channel)) "instant"),
    (String.eqb (ResponseTime (Support channel)) "1hour");
    vm_compute; discriminate.
Qed.

Lemma calculateLiquidityScore_range (channel : Channel) (assetID : string)
    (amount : Q) :
  (0.5 <= calculateLiquidityScore channel assetID amount <= 0.9)%Q.
Proof.
  unfold calculateLiquidityScore.
  destruct (String.eqb (Type_ channel) "exchange"),
    (String.eqb (Type_ channel) "broker"),
    (String.eqb (Type_ channel) "dex");
    vm_compute; split; discriminate.
Qed.

Lemma weighted_score_range (channel : Channel) (request : MatchingRequest)
    (feeScore : Q) :
  (0 <= feeScore <= 1)%Q ->
  (0.12 <= weighted_score channel request feeScore <= 0.99)%Q
  /\ (Available (checkChannelAvailability channel request) = false ->
      (weighted_score channel request feeScore <= 0.915)%Q).
Proof.
  intros Hfee.
  destruct (calculateAvailabilityScore_range channel request)
    as (Havail & Hunavailable & _).
  pose proof (calculateUXScore_lower channel request).
  pose proof (calculateUXScore_bounds channel request).
  pose proof (calculateSecurityScore_bounds channel).
  pose proof (calculateLiquidityScore_range channel (AssetID request)
                (Amount request)).
  unfold weighted_score, weight_fee, weight_availability, weight_ux,
    weight_security, weight_liquidity.
  split; [lra|]. intros Hfalse. specialize (Hunavailable Hfalse). lra.
Qed.

Lemma match_of_score_range (channel : Channel) (request : MatchingRequest)
    (id : string) (r : MatchingResult) :
  match_of channel request id r ->
  (0.12 <= MatchScore r <= 0.99)%Q
  /\ (Available (Availability r) = false -> (MatchScore r <= 0.915)%Q).
Proof.
  intros (_ & _ & Havail & _ & _ & fee & Hfee & Hscore).
  destruct (calculateFeeScore_total channel (Amount request))
    as (fee' & Hfee' & Hbounds).
  rewrite Hfee in Hfee'. injection Hfee' as <-.
  rewrite Hscore, Havail. now apply weighted_score_range.
Qed.

Lemma In_scored_score_range (config : Config) (uuid_New : nat -> string)
    (channels : list Channel) (request : MatchingRequest) (w w' : World)
    (scored : list MatchingResult) (r : MatchingResult) :
  scoreAll config uuid_New channels request w = Ret (scored, w') ->
  In r scored ->
  (0.12 <= MatchScore r <= 0.99)%Q
  /\ (Available (Availability r) = false -> (MatchScore r <= 0.915)%Q).
Proof.
  intros Hscored Hr.
  destruct (In_scored_match_of _ _ _ _ _ _ _ _ Hscored Hr)
    as (i & channel & _ & _ & Hmatch).
  exact (match_of_score_range _ _ _ _ Hmatch).
Qed.

Lemma filter_all {A : Type} (f : A -> bool) (l : list A) :
  (forall x, In x l -> f x = true) -> List.filter f l = l.
Proof.
  induction l as [|x l IH]; intros H; cbn; [reflexivity|].
  rewrite (H x (or_introl eq_refl)). f_equal. apply IH.
  intros y Hy. apply H. now right.
Qed.

Lemma filter_none {A : Type} (f : A -> bool) (l : list A) :
  (forall x, In x l -> f x = false) -> List.filter f l = [].
Proof.
  induction l as [|x l IH]; intros H; cbn; [reflexivity|].
  rewrite (H x (or_introl eq_refl)). apply IH.
  intros y Hy. apply H. now right.
Qed.

(** X4. Whatever the channel and the request, the match score lies
    between 0.12 and 0.99, and both ends are reached: the response-time
    bonus, the liquidity table and the availability penalties keep it off
    0, the liquidity table keeps it off 1.  So a configured minimum score
    above 0.99 makes [MatchChannels] answer every request that has
    eligible channels with an empty list and no error (the redirect
    identifiers are drawn all the same), and a minimum of at most 0.12
    drops no candidate. *)
Theorem match_score_range :
  (forall (config : Config) (uuid_New : nat -> string) (channel : Channel)
          (request : MatchingRequest) (w : World),
     exists (r : MatchingResult) (w' : World),
       calculateChannelMatch config uuid_New channel request w = Ret (r, w')
       /\ (0.12 <= MatchScore r <= 0.99)%Q)
  /\ (exists (r : MatchingResult) (w' : World),
        calculateChannelMatch setDefaults uuid_seq channelBare requestNoKYC
          (exampleWorld []) = Ret (r, w')
        /\ (MatchScore r == 0.12)%Q)
  /\ (exists (r : MatchingResult) (w' : World),
        calculateChannelMatch setDefaults uuid_seq channelBest exampleRequest
          (exampleWorld []) = Ret (r, w')
        /\ (MatchScore r == 0.99)%Q)
  /\ (forall (sort_Slice :
                forall A : Type, (A -> A -> bool) -> list A -> list A)
             (config : Config) (uuid_New : nat -> string)
             (request : MatchingRequest) (w w1 : World)
             (channels : list Channel),
        sort_Slice_contract sort_Slice ->
        getEligibleChannels (AssetID request) (UserRegion request) w
        = Ret (Ok channels, w1) ->
        channels <> [] ->
        (0 <= MaxMatchingResults config)%Z ->
        ((0.99 < MinMatchingScore config)%Q ->
         exists w' : World,
           MatchChannels config uuid_New sort_Slice request w
           = Ret (Ok [], w')
           /\ uuids w' = (uuids w + length channels)%nat)
        /\ ((MinMatchingScore config <= 0.12)%Q ->
            exists (results : list MatchingResult) (w' : World),
              MatchChannels config uuid_New sort_Slice request w
              = Ret (Ok results, w')
              /\ length results
                 = Nat.min (Z.to_nat (MaxMatchingResults config))
                     (length channels))).
Proof.
  split; [|split; [|split]].
  - intros config uuid_New channel request w.
    destruct (calculateChannelMatch_run config uuid_New channel request w)
      as (r & Hrun & Hmatch).
    eexists r, _. split; [exact Hrun|].
    exact (proj1 (match_of_score_range _ _ _ _ Hmatch)).
  - eexists _, _. split; [vm_compute; reflexivity|vm_compute; reflexivity].
  - eexists _, _. split; [vm_compute; reflexivity|vm_compute; reflexivity].
  - intros sort_Slice config uuid_New request w w1 channels contract Hgot
      Hne Hmax.
    destruct (scoreAll_run config uuid_New channels request w1)
      as (scored & Hscored & Hlen & _).
    pose proof (MatchChannels_run config uuid_New sort_Slice request w w1 _
                  channels scored Hgot Hne Hscored Hmax) as Hrun.
    destruct (getEligibleChannels_frame (AssetID request)
                (UserRegion request) w)
      as (got & w1' & Hgot' & _ & Huuids & _).
    rewrite Hgot in Hgot'. injection Hgot' as <- <-.
    split.
    + intros Hmin. exists (issue_all uuid_New request scored w1).
      split; [|rewrite issue_all_uuids; lia].
      rewrite Hrun. do 2 f_equal.
      rewrite filter_none.
      * destruct (contract _ byMatchScore []
                    byMatchScore_strict_weak_order) as [Hperm _].
        apply Permutation_nil in Hperm. now rewrite Hperm, take_nil.
      * intros r Hr. apply Qgeb_false.
        destruct (In_scored_score_range _ _ _ _ _ _ _ _ Hscored Hr)
          as [[_ Hhi] _].
        lra.
    + intros Hmin. eexists _, _. split; [exact Hrun|].
      rewrite filter_all.
      * destruct (contract _ byMatchScore scored
                    byMatchScore_strict_weak_order) as [Hperm _].
        rewrite length_take, <- (Permutation_length Hperm), Hlen.
        reflexivity.
      * intros r Hr. apply Qgeb_true.
        destruct (In_scored_score_range _ _ _ _ _ _ _ _ Hscored Hr)
          as [[Hlo _] _].
        lra.
Qed.

(** The best channel under a minimum of 0.995: an empty list, one
    identifier drawn. *)
Lemma match_score_range_witness :
  exists w' : World,
    MatchChannels configStrict uuid_seq insertionSort exampleRequest
      (exampleWorld [channelBest])
    = Ret (Ok [], w')
    /\ uuids w' = 1%nat.
Proof.
  apply (proj1 (proj2 (proj2 (proj2 match_score_range)) insertionSort
                  configStrict uuid_seq exampleRequest
                  (exampleWorld [channelBest]) _ [channelBest]
                  insertionSort_contract
                  (getEligibleChannels_miss "asset-1" "US" [channelBest])
                  ltac:(discriminate) ltac:(discriminate))).
  reflexivity.
Defined.

(** ** Availability and the minimum score *)

Lemma MatchChannels_result_passes (config : Config)
    (uuid_New : nat -> string)
    (sort_Slice : forall A : Type, (A -> A -> bool) -> list A -> list A)
    (request : MatchingRequest) (w w' : World)
    (results : list MatchingResult) (r : MatchingResult) :
  sort_Slice_contract sort_Slice ->
  MatchChannels config uuid_New sort_Slice request w = Ret (Ok results, w') ->
  In r results ->
  (MinMatchingScore config <= MatchScore r)%Q
  /\ exists (channel : Channel) (id : string), match_of channel request id r.
Proof.
  intros contract Hrun Hr.
  destruct (MatchChannels_Ok_inv _ _ _ _ _ _ _ Hrun)
    as (channels & w1 & scored & _ & _ & Hscored & _ & _ & ->).
  apply In_take in Hr.
  destruct (contract _ byMatchScore (List.filter (passes config) scored)
              byMatchScore_strict_weak_order) as [Hperm _].
  apply (Permutation_in _ (Permutation_sym Hperm)) in Hr.
  apply filter_In in Hr as [Hr Hpass].
  split; [now apply Qgeb_true|].
  destruct (In_scored_match_of _ _ _ _ _ _ _ _ Hscored Hr)
    as (i & channel & _ & _ & Hmatch).
  now exists channel, (uuid_New (uuids w1 + i)%nat).
Qed.

(** X5. A result that is not available scores at most 0.915 (its
    availability sub-score is at most 0.7).  So under a configured minimum
    above 0.915 every result [MatchChannels] returns is available, although
    the function never reads the availability flag; at a minimum of exactly
    0.915 an unavailable result is still returned. *)
Theorem MatchChannels_high_minimum_returns_available_only
    (config : Config) (uuid_New : nat -> string)
    (sort_Slice : forall A : Type, (A -> A -> bool) -> list A -> list A)
    (request : MatchingRequest) (w w' : World)
    (results : list MatchingResult) :
  sort_Slice_contract sort_Slice ->
  MatchChannels config uuid_New sort_Slice request w = Ret (Ok results, w') ->
  (forall r : MatchingResult,
     In r results ->
     Available (Availability r) = false -> (MatchScore r <= 0.915)%Q)
  /\ ((0.915 < MinMatchingScore config)%Q ->
      forall r : MatchingResult,
        In r results -> Available (Availability r) = true)
  /\ exists (r : MatchingResult) (w'' : World),
       MatchChannels configAtUnavailableBest uuid_seq sort_Slice requestNoKYC
         (exampleWorld [channelBestKYC])
       = Ret (Ok [r], w'')
       /\ Available (Availability r) = false.
Proof.
  intros contract Hrun.
  assert (Hunavailable : forall r : MatchingResult,
             In r results ->
             Available (Availability r) = false ->
             (MatchScore r <= 0.915)%Q).
  { intros r Hr Hfalse.
    destruct (MatchChannels_result_passes _ _ _ _ _ _ _ _ contract Hrun Hr)
      as (_ & channel & id & Hmatch).
    exact (proj2 (match_of_score_range _ _ _ _ Hmatch) Hfalse). }
  split; [exact Hunavailable|split].
  - intros Hmin r Hr.
    destruct (Available (Availability r)) eqn:Havailable; [reflexivity|].
    pose proof (Hunavailable r Hr Havailable).
    destruct (MatchChannels_result_passes _ _ _ _ _ _ _ _ contract Hrun Hr)
      as (Hpass & _).
    lra.
  - pose proof (getEligibleChannels_miss "asset-1" "US" [channelBestKYC])
      as Hgot.
    match type of Hgot with
    | _ = Ret (_, ?w1) =>
        destruct (scoreAll_run configAtUnavailableBest uuid_seq
                    [channelBestKYC] requestNoKYC w1)
          as (scored & Hscored & _ & _)
    end.
    assert (Hscored' := Hscored).
    vm_compute in Hscored'. injection Hscored' as Hs _.
    rewrite (MatchChannels_run configAtUnavailableBest uuid_seq sort_Slice
               requestNoKYC _ _ _ [channelBestKYC] scored
               Hgot ltac:(discriminate) Hscored ltac:(discriminate)).
    clear Hscored Hgot. rewrite <- Hs.
    match goal with
    | |- context [List.filter ?f [?r]] =>
        change (List.filter f [r]) with [r];
        destruct (contract _ byMatchScore [r]
                    byMatchScore_strict_weak_order) as [Hperm _];
        apply Permutation_singleton_l in Hperm; rewrite <- Hperm;
        exists r
    end.
    eexists. split; reflexivity.
Qed.

(** A KYC channel and the best channel under a minimum of 0.92, asked by a
    user without a KYC level: only the best channel is returned. *)
Lemma MatchChannels_high_minimum_returns_available_only_witness :
  exists (results : list MatchingResult) (w' : World),
    MatchChannels configAvailableOnly uuid_seq insertionSort requestNoKYC
      (exampleWorld [channelKYC; channelBest])
    = Ret (Ok results, w')
    /\ map ChannelID results = ["best"]
    /\ forall r : MatchingResult,
         In r results -> Available (Availability r) = true.
Proof.
  eexists _, _. split; [vm_compute; reflexivity|].
  split; [reflexivity|].
  refine (proj1 (proj2 (MatchChannels_high_minimum_returns_available_only
             configAvailableOnly uuid_seq insertionSort requestNoKYC
             (exampleWorld [channelKYC; channelBest]) _ _
             insertionSort_contract _)) _);
    vm_compute; reflexivity.
Defined.

(** ** The fee sub-score as a function of the fee and of the amount *)

Lemma Qdiv_le_cross (x y z t : Q) :
  (0 < y)%Q -> (0 < t)%Q -> (x * t <= z * y)%Q -> (x / y <= z / t)%Q.
Proof.
  intros Hy Ht H.
  apply Qle_shift_div_l; [exact Ht|].
  unfold Qdiv. rewrite <- Qmult_assoc, (Qmult_comm (/ y)), Qmult_assoc.
  apply Qle_shift_div_r; [exact Hy|exact H].
Qed.

Lemma calculateFeeScore_cases (channel : Channel) (amount : Q) :
  let totalFee := TotalFee (calculateFeeEstimate channel amount) in
  let minFee := (amount * 0.0001)%Q in
  let maxFee := (amount * 0.01)%Q in
  ((totalFee <= minFee)%Q /\ calculateFeeScore channel amount = Ret 1%Q)
  \/ ((minFee < totalFee)%Q /\ (maxFee <= totalFee)%Q
      /\ calculateFeeScore channel amount = Ret 0%Q)
  \/ ((minFee < totalFee)%Q /\ (totalFee < maxFee)%Q
      /\ calculateFeeScore channel amount
         = Ret (1 - (totalFee - minFee) / (maxFee - minFee))%Q).
Proof.
  cbn [TotalFee calculateFeeEstimate]. cbv zeta.
  destruct (Qlt_le_dec (amount * 0.0001)
              (amount * Taker (Trading (Fees channel))
               + Crypto (Withdrawal (Fees channel)))) as [H1|H1].
  - destruct (Qlt_le_dec
                (amount * Taker (Trading (Fees channel))
                 + Crypto (Withdrawal (Fees channel)))
                (amount * 0.01)) as [H2|H2].
    + right; right. repeat split; try assumption.
      now apply calculateFeeScore_between.
    + right; left. repeat split; try assumption.
      now apply calculateFeeScore_above.
  - left. split; [assumption|]. now apply calculateFeeScore_below.
Qed.

(** X6. For one and the same amount, whatever its sign, a channel whose
    estimated total fee ([calculateFeeEstimate]) is not higher gets a fee
    sub-score that is not lower: the sub-score never ranks a dearer channel
    above a cheaper one. *)
Theorem calculateFeeScore_monotone_in_fee
    (cheap dear : Channel) (amount scoreCheap scoreDear : Q) :
  (TotalFee (calculateFeeEstimate cheap amount)
   <= TotalFee (calculateFeeEstimate dear amount))%Q ->
  calculateFeeScore cheap amount = Ret scoreCheap ->
  calculateFeeScore dear amount = Ret scoreDear ->
  (scoreDear <= scoreCheap)%Q.
Proof.
  intros Hfee Hcheap Hdear.
  destruct (calculateFeeScore_total cheap amount) as (v1 & Hv1 & Hb1).
  destruct (calculateFeeScore_total dear amount) as (v2 & Hv2 & Hb2).
  rewrite Hcheap in Hv1. injection Hv1 as <-.
  rewrite Hdear in Hv2. injection Hv2 as <-.
  destruct (calculateFeeScore_cases cheap amount)
    as [[Hc Ec]|[(Hc1 & Hc2 & Ec)|(Hc1 & Hc2 & Ec)]];
    rewrite Hcheap in Ec; injection Ec as Ec;
    destruct (calculateFeeScore_cases dear amount)
      as [[Hd Ed]|[(Hd1 & Hd2 & Ed)|(Hd1 & Hd2 & Ed)]];
    rewrite Hdear in Ed; injection Ed as Ed;
    subst scoreCheap scoreDear; try lra.
  cbn [TotalFee calculateFeeEstimate] in Hfee, Hc1, Hc2.
  assert (Hdiv : ((amount * Taker (Trading (Fees cheap))
                   + Crypto (Withdrawal (Fees cheap)) - amount * 0.0001)
                  / (amount * 0.01 - amount * 0.0001)
                  <= (amount * Taker (Trading (Fees dear))
                      + Crypto (Withdrawal (Fees dear)) - amount * 0.0001)
                     / (amount * 0.01 - amount * 0.0001))%Q).
  { apply Qdiv_le_cross; try lra.
    apply Qmult_le_compat_r; lra. }
  lra.
Qed.

(** Scenario B's channel against the same channel with a withdrawal fee of
    75 at amount 10000. *)
Lemma calculateFeeScore_monotone_in_fee_witness :
  exists scoreCheap scoreDear : Q,
    calculateFeeScore channelB 10000 = Ret scoreCheap
    /\ calculateFeeScore channel75 10000 = Ret scoreDear
    /\ (scoreDear <= scoreCheap)%Q.
Proof.
  eexists _, _. split; [reflexivity|]. split; [reflexivity|].
  apply (calculateFeeScore_monotone_in_fee channelB channel75 10000);
    [vm_compute; discriminate|reflexivity|reflexivity].
Defined.

(** X7. On float64 the fee sub-score is not monotone in the amount.  For
    a channel with taker rate 0.005 and no withdrawal fee, whose sub-score
    in exact arithmetic is the same at every positive amount, the code
    computes 0.50505050505050508 at the amounts 2 and 4 and the smaller
    0.50505050505050497 at the amount 3 between them. *)
Theorem calculateFeeScore_float64_amount :
  calculateFeeScore_float64 0.005 0 2 = 0.50505050505050508%float
  /\ calculateFeeScore_float64 0.005 0 3 = 0.50505050505050497%float
  /\ calculateFeeScore_float64 0.005 0 4 = 0.50505050505050508%float
  /\ (calculateFeeScore_float64 0.005 0 3
      <? calculateFeeScore_float64 0.005 0 2)%float = true
  /\ (calculateFeeScore_float64 0.005 0 3
      <? calculateFeeScore_float64 0.005 0 4)%float = true.
Proof. repeat split; vm_compute; reflexivity. Qed.

(** ** Redirect descriptors: issue and redeem *)

Lemma GetRedirectInfo_lookup (id : string) (w w' : World) :
  redis w' !! ("redirect:" +:+ id) = redis w !! ("redirect:" +:+ id) ->
  forall res : result RedirectRecord,
    GetRedirectInfo id w = Ret (res, w) ->
    GetRedirectInfo id w' = Ret (res, w').
Proof.
  unfold GetRedirectInfo, redis_Get, st_bind, st_ret. intros ->.
  destruct (redis w !! _) as [[cs|r|n|x|l]|]; intros res H;
    injection H as <-; reflexivity.
Qed.

Lemma GetRedirectInfo_world (id : string) (w w' : World)
    (res : result RedirectRecord) :
  GetRedirectInfo id w = Ret (res, w') -> w' = w.
Proof.
  unfold GetRedirectInfo, redis_Get, st_bind, st_ret.
  destruct (redis w !! _) as [[cs|r|n|x|l]|]; intros H;
    now injection H as _ <-.
Qed.

Lemma wrap64_small (z : Z) :
  (- 2 ^ 63 <= z < 2 ^ 63)%Z -> wrap64 z = z.
Proof.
  intros H. unfold wrap64. rewrite Z.mod_small; lia.
Qed.

Lemma time_Add_Seconds (t seconds : Z) :
  (0 <= seconds <= 9223372036)%Z ->
  time_Add t (time_Seconds seconds) = (t + seconds)%Z.
Proof.
  intros H. unfold time_Add, time_Seconds.
  rewrite (wrap64_small seconds) by lia.
  rewrite wrap64_small by lia.
  now rewrite Z.div_mul by lia.
Qed.

(** X8. [generateRedirectInfo] followed by [GetRedirectInfo] is a round
    trip: the descriptor just issued is read back under its identifier,
    with the request and the time of issue, and reading leaves the
    world as it is, so a descriptor can be read again and again.  The URL
    is the channel's website (with "/api/redirect" when the channel has a
    trading API) followed by "?redirect_id=" and the identifier.  The
    descriptor expires at the time of issue plus [RedirectExpiration]
    seconds taken as nanoseconds in [int64]: for a [RedirectExpiration]
    from 0 to 9223372036 seconds, that is [RedirectExpiration] seconds
    after the issue (beyond that the nanoseconds wrap around).  What
    [GetRedirectInfo] answers for any other identifier is what it answered
    before; for an identifier with no entry that is the error "redirect
    not found or expired". *)
Theorem redirect_round_trip :
  forall (config : Config) (uuid_New : nat -> string) (channel : Channel)
         (request : MatchingRequest) (w : World),
  exists (info : RedirectInfo) (w' : World),
    generateRedirectInfo config uuid_New channel request w = Ret (info, w')
    /\ URL info
       = (if hasTradingAPI channel
          then Website channel +:+ "/api/redirect" else Website channel)
         +:+ "?redirect_id=" +:+ uuid_New (uuids w)
    /\ ExpiresAt info
       = time_Add (clock w) (time_Seconds (RedirectExpiration config))
    /\ ((0 <= RedirectExpiration config <= 9223372036)%Z ->
        ExpiresAt info = (clock w + RedirectExpiration config)%Z)
    /\ GetRedirectInfo (uuid_New (uuids w)) w'
       = Ret (Ok {| redirect_info := info; request := request;
                    created_at := clock w |}, w')
    /\ (forall (id : string) (res : result RedirectRecord),
          id <> uuid_New (uuids w) ->
          GetRedirectInfo id w = Ret (res, w) ->
          GetRedirectInfo id w' = Ret (res, w'))
    /\ (forall id : string,
          redis w' !! ("redirect:" +:+ id) = None ->
          GetRedirectInfo id w'
          = Ret (Err "redirect not found or expired", w')).
Proof.
  intros config uuid_New channel request w.
  unfold generateRedirectInfo, cacheRedirectInfo, uuid_New_String,
    time_Now, redis_Set, st_bind, st_ret, set_redis.
  cbn [redis db clock uuids].
  eexists _, _. split; [reflexivity|].
  split; [reflexivity|]. split; [reflexivity|].
  split; [intros Hsmall; cbn [ExpiresAt]; now apply time_Add_Seconds|].
  split; [|split].
  - unfold GetRedirectInfo, redis_Get, st_bind, st_ret. cbn [redis].
    now rewrite lookup_insert_eq.
  - intros id res Hid. apply GetRedirectInfo_lookup. cbn [redis].
    apply lookup_insert_ne. intros Heq. apply Hid.
    now apply String.app_inj in Heq.
  - intros id Hnone. unfold GetRedirectInfo, redis_Get, st_bind, st_ret.
    now rewrite Hnone.
Qed.

(** The default configuration, an hour: a descriptor issued at 1700000000
    expires at 1700003600 and is read back. *)
Lemma redirect_round_trip_witness :
  exists (info : RedirectInfo) (w' : World),
    generateRedirectInfo setDefaults uuid_seq channel75 exampleRequest
      (exampleWorld [channel75]) = Ret (info, w')
    /\ ExpiresAt info = 1700003600%Z
    /\ GetRedirectInfo (uuid_seq 0) w'
       = Ret (Ok {| redirect_info := info; request := exampleRequest;
                    created_at := 1700000000 |}, w').
Proof.
  destruct (redirect_round_trip setDefaults uuid_seq channel75
              exampleRequest (exampleWorld [channel75]))
    as (info & w' & Hrun & _ & _ & Hexpires & Hread & _).
  exists info, w'. split; [exact Hrun|].
  split; [|exact Hread].
  apply Hexpires. vm_compute. split; discriminate.
Defined.

Lemma redirect_key_not_eligibility_key (id assetID userRegion : string) :
  "redirect:" +:+ id <> eligibility_key assetID userRegion.
Proof. unfold eligibility_key. discriminate. Qed.

(** X9. Redirect descriptors outlive later matching calls: when [uuid.New]
    never repeats an identifier, what [GetRedirectInfo] answers for an
    identifier drawn before a [MatchChannels] call is what it answers after
    the call, whatever the call returns.  A later request cannot overwrite
    or remove the descriptors of an earlier one. *)
Theorem redirect_survives_MatchChannels
    (config : Config) (uuid_New : nat -> string)
    (sort_Slice : forall A : Type, (A -> A -> bool) -> list A -> list A)
    (request : MatchingRequest) (w w' : World)
    (res : result (list MatchingResult)) (n : nat)
    (got : result RedirectRecord) :
  Inj (=) (=) uuid_New ->
  (n < uuids w)%nat ->
  MatchChannels config uuid_New sort_Slice request w = Ret (res, w') ->
  GetRedirectInfo (uuid_New n) w = Ret (got, w) ->
  GetRedirectInfo (uuid_New n) w' = Ret (got, w').
Proof.
  intros Hinj Hn Hrun. apply GetRedirectInfo_lookup.
  destruct (MatchChannels_frame config uuid_New sort_Slice request w w' res
              Hrun) as (_ & _ & _ & Hkeys).
  apply Hkeys.
  - apply redirect_key_not_eligibility_key.
  - intros i Heq. apply String.app_inj, Hinj in Heq. lia.
Qed.

(** Two requests in a row: the descriptor of the first is read back after
    the second. *)
Lemma redirect_survives_MatchChannels_witness :
  exists (w1 w2 : World) (res1 res2 : result (list MatchingResult))
         (got : RedirectRecord),
    MatchChannels setDefaults uuid_seq insertionSort exampleRequest
      (exampleWorld [channelB]) = Ret (res1, w1)
    /\ MatchChannels setDefaults uuid_seq insertionSort requestNoKYC w1
       = Ret (res2, w2)
    /\ GetRedirectInfo (uuid_seq 0) w2 = Ret (Ok got, w2)
    /\ request got = exampleRequest.
Proof.
  eexists _, _, _, _, _. split; [vm_compute; reflexivity|].
  match goal with
  | |- MatchChannels _ _ _ _ ?w1 = _ /\ _ =>
      split; [vm_compute; reflexivity|];
      split;
        [eapply (redirect_survives_MatchChannels setDefaults uuid_seq
                   insertionSort requestNoKYC w1 _ _ 0%nat _ uuid_seq_inj);
         [vm_compute; lia|vm_compute; reflexivity|vm_compute; reflexivity]
        |reflexivity]
  end.
Defined.

(** ** The daily counters of the attribution service *)

Lemma string_length_app (s1 s2 : string) :
  String.length (s1 +:+ s2) = (String.length s1 + String.length s2)%nat.
Proof.
  induction s1 as [|a s1 IH]; [reflexivity|].
  change (String a s1 +:+ s2) with (String a (s1 +:+ s2)).
  cbn [String.length]. now rewrite IH.
Qed.

Lemma string_app_inj_r (s1 s2 s : string) :
  s1 +:+ s = s2 +:+ s -> s1 = s2.
Proof.
  revert s2. induction s1 as [|a s1 IH]; intros [|b s2] H.
  - reflexivity.
  - apply (f_equal String.length) in H.
    rewrite !string_length_app in H. cbn [String.length] in H. lia.
  - apply (f_equal String.length) in H.
    rewrite !string_length_app in H. cbn [String.length] in H. lia.
  - change (String a (s1 +:+ s) = String b (s2 +:+ s)) in H.
    injection H as -> H. f_equal. now apply IH.
Qed.

(** Two channels never share a counter of one kind and day. *)
Lemma daily_key_inj (kind c1 c2 day : string) :
  kind +:+ c1 +:+ ":" +:+ day = kind +:+ c2 +:+ ":" +:+ day -> c1 = c2.
Proof.
  intros H. apply String.app_inj in H. now apply string_app_inj_r in H.
Qed.

Lemma counter_holds_same (key : string) (n : Z) (w w' : World) :
  redis w' !! key = redis w !! key ->
  counter_holds key n w -> counter_holds key n w'.
Proof. unfold counter_holds. now intros ->. Qed.

Lemma revenue_holds_same (key : string) (x : Q) (w w' : World) :
  redis w' !! key = redis w !! key ->
  revenue_holds key x w -> revenue_holds key x w'.
Proof. unfold revenue_holds. now intros ->. Qed.

Lemma redis_Incr_run (key : string) (w : World) :
  exists w',
    redis_Incr key w = Ret (tt, w')
    /\ db w' = db w /\ clock w' = clock w /\ uuids w' = uuids w
    /\ (forall key', key' <> key -> redis w' !! key' = redis w !! key')
    /\ (forall n, counter_holds key n w -> counter_holds key (n + 1) w').
Proof.
  unfold redis_Incr, counter_holds.
  destruct (redis w !! key) as [[cs|r|k|x|l]|] eqn:Hkey;
    eexists; (split; [reflexivity|]); cbn [set_redis redis db clock uuids];
    repeat split; intros;
    rewrite ?lookup_insert_eq, ?Hkey in *;
    try (rewrite lookup_insert_ne by congruence);
    try reflexivity; try contradiction; lia.
Qed.

Lemma redis_IncrByFloat_run (key : string) (r : Q) (w : World) :
  exists w',
    redis_IncrByFloat key r w = Ret (tt, w')
    /\ db w' = db w /\ clock w' = clock w /\ uuids w' = uuids w
    /\ (forall key', key' <> key -> redis w' !! key' = redis w !! key')
    /\ (forall x, revenue_holds key x w -> revenue_holds key (x + r) w').
Proof.
  unfold redis_IncrByFloat, revenue_holds.
  destruct (redis w !! key) as [[cs|r0|k|y|l]|] eqn:Hkey;
    eexists; (split; [reflexivity|]); cbn [set_redis redis db clock uuids];
    repeat split; intros;
    rewrite ?lookup_insert_eq, ?Hkey in *;
    try (rewrite lookup_insert_ne by congruence);
    try reflexivity; try contradiction; lra.
Qed.

Section DailyCounters.

Variable time_Format : Z -> string.

(** One of the four counting handlers: which key it increments. *)
Lemma counting_handler_run (kind : string) (event : AttributionEvent.t)
    (w : World) :
  let key :=
    kind +:+ AttributionEvent.ChannelID event +:+ ":"
    +:+ time_Format (clock w) in
  exists w',
    (let* now := time_Now in
     let key := kind +:+ AttributionEvent.ChannelID event +:+ ":"
                +:+ time_Format now in
     let* _ := redis_Incr key in
     redis_Expire key (30 * 24 * 3600)) w = Ret (tt, w')
    /\ db w' = db w /\ clock w' = clock w /\ uuids w' = uuids w
    /\ (forall key', key' <> key -> redis w' !! key' = redis w !! key')
    /\ (forall n, counter_holds key n w -> counter_holds key (n + 1) w').
Proof.
  intros key.
  destruct (redis_Incr_run key w) as (w' & Hrun & Hframe).
  exists w'. split; [|exact Hframe].
  unfold st_bind, time_Now, redis_Expire. fold key. now rewrite Hrun.
Qed.

Lemma handleConversionEvent_run (conversion : ConversionEvent.t)
    (w : World) :
  let today := time_Format (clock w) in
  let conversionKey :=
    "conversions:" +:+ ConversionEvent.ChannelID conversion +:+ ":"
    +:+ today in
  let revenueKey :=
    "revenue:" +:+ ConversionEvent.ChannelID conversion +:+ ":" +:+ today in
  exists w',
    handleConversionEvent time_Format conversion w = Ret (tt, w')
    /\ db w' = db w /\ clock w' = clock w /\ uuids w' = uuids w
    /\ (forall key', key' <> conversionKey -> key' <> revenueKey ->
          redis w' !! key' = redis w !! key')
    /\ (forall n, counter_holds conversionKey n w ->
                  counter_holds conversionKey (n + 1) w')
    /\ (forall x, revenue_holds revenueKey x w ->
                  revenue_holds revenueKey
                    (x + ConversionEvent.Revenue conversion) w').
Proof.
  intros today conversionKey revenueKey.
  destruct (redis_Incr_run conversionKey w)
    as (w1 & Hrun1 & Hdb1 & Hclock1 & Huuids1 & Hother1 & Hcount1).
  destruct (redis_IncrByFloat_run revenueKey
              (ConversionEvent.Revenue conversion) w1)
    as (w2 & Hrun2 & Hdb2 & Hclock2 & Huuids2 & Hother2 & Hsum2).
  assert (Hne : conversionKey <> revenueKey) by discriminate.
  exists w2. split.
  - unfold handleConversionEvent, st_bind, time_Now, redis_Expire.
    fold today conversionKey. rewrite Hrun1, Hclock1.
    fold today revenueKey. now rewrite Hrun2.
  - repeat split; try congruence.
    + intros key' H1 H2. rewrite Hother2, Hother1; auto.
    + intros n Hn. apply (counter_holds_same _ _ w1); auto.
    + intros x Hx. apply Hsum2. apply (revenue_holds_same _ _ w); auto.
Qed.

Lemma handleAttributionEvent_run (event : AttributionEvent.t) (w : World) :
  match counter_prefix (AttributionEvent.EventType event) with
  | Some kind =>
      let key :=
        kind +:+ AttributionEvent.ChannelID event +:+ ":"
        +:+ time_Format (clock w) in
      exists w',
        handleAttributionEvent time_Format event w = Ret (tt, w')
        /\ db w' = db w /\ clock w' = clock w /\ uuids w' = uuids w
        /\ (forall key', key' <> key -> redis w' !! key' = redis w !! key')
        /\ (forall n, counter_holds key n w -> counter_holds key (n + 1) w')
  | None => handleAttributionEvent time_Format event w = Ret (tt, w)
  end.
Proof.
  unfold counter_prefix, handleAttributionEvent.
  destruct (String.eqb (AttributionEvent.EventType event) "click");
    [exact (counting_handler_run "clicks:" event w)|].
  destruct (String.eqb (AttributionEvent.EventType event) "view");
    [exact (counting_handler_run "views:" event w)|].
  destruct (String.eqb (AttributionEvent.EventType event) "redirect");
    [exact (counting_handler_run "redirects:" event w)|].
  destruct (String.eqb (AttributionEvent.EventType event) "signup");
    [exact (counting_handler_run "signups:" event w)|].
  reflexivity.
Qed.

Lemma counter_prefix_click (eventType : string) :
  counter_prefix eventType = Some "clicks:" <-> eventType = "click".
Proof.
  unfold counter_prefix.
  destruct (String.eqb_spec eventType "click") as [Heq|Hne]; [easy|].
  repeat (destruct (String.eqb eventType _)); split; intros H;
    (discriminate || contradiction).
Qed.

Lemma counter_prefix_cases (eventType kind : string) :
  counter_prefix eventType = Some kind ->
  kind = "clicks:" \/ kind = "views:" \/ kind = "redirects:"
  \/ kind = "signups:".
Proof.
  unfold counter_prefix.
  repeat (destruct (String.eqb eventType _)); intros H;
    try discriminate; injection H as <-; auto.
Qed.

(** Every message runs and leaves the table, the clock and the identifier
    counter alone. *)
Lemma handleMessage_run
    (message : AttributionEvent.t + ConversionEvent.t) (w : World) :
  exists w',
    handleMessage time_Format message w = Ret (tt, w')
    /\ db w' = db w /\ clock w' = clock w /\ uuids w' = uuids w.
Proof.
  destruct message as [event|conversion]; cbn [handleMessage].
  - pose proof (handleAttributionEvent_run event w) as H.
    destruct (counter_prefix _) as [kind|].
    + destruct H as (w' & Hrun & Hdb & Hclock & Huuids & _).
      now exists w'.
    + now exists w.
  - destruct (handleConversionEvent_run conversion w)
      as (w' & Hrun & Hdb & Hclock & Huuids & _).
    now exists w'.
Qed.

Variable channelID : string.

Lemma handleMessage_counters
    (message : AttributionEvent.t + ConversionEvent.t) (w : World)
    (n m : Z) (x : Q) :
  let today := time_Format (clock w) in
  counter_holds ("clicks:" +:+ channelID +:+ ":" +:+ today) n w ->
  counter_holds ("conversions:" +:+ channelID +:+ ":" +:+ today) m w ->
  revenue_holds ("revenue:" +:+ channelID +:+ ":" +:+ today) x w ->
  exists w',
    handleMessage time_Format message w = Ret (tt, w')
    /\ clock w' = clock w
    /\ counter_holds ("clicks:" +:+ channelID +:+ ":" +:+ today)
         (n + clicks_on channelID [message]) w'
    /\ counter_holds ("conversions:" +:+ channelID +:+ ":" +:+ today)
         (m + conversions_on channelID [message]) w'
    /\ revenue_holds ("revenue:" +:+ channelID +:+ ":" +:+ today)
         (match message with
          | inr conversion =>
              if String.eqb (ConversionEvent.ChannelID conversion) channelID
              then (x + ConversionEvent.Revenue conversion)%Q
              else x
          | inl _ => x
          end) w'.
Proof.
  intros today Hclicks Hconversions Hrevenue.
  destruct message as [event|conversion];
    unfold clicks_on, conversions_on, handleMessage;
    cbn [List.filter is_click_on is_conversion_on length].
  - rewrite Z.add_0_r.
    pose proof (handleAttributionEvent_run event w) as Hrun.
    pose proof (counter_prefix_click (AttributionEvent.EventType event))
      as Hclick.
    pose proof (counter_prefix_cases (AttributionEvent.EventType event))
      as Hcases.
    destruct (counter_prefix _) as [kind|].
    2: { exists w. split; [exact Hrun|]. split; [reflexivity|].
         destruct (String.eqb_spec (AttributionEvent.EventType event)
                     "click") as [Hty|Hty];
           [apply Hclick in Hty; discriminate|].
         cbn [andb length]. rewrite Z.add_0_r. auto. }
    destruct Hrun as (w' & Hrun & _ & Hclock & _ & Hother & Hcount).
    fold today in Hother, Hcount.
    exists w'. split; [exact Hrun|]. split; [exact Hclock|].
    split; [|split].
    + destruct (String.eqb_spec (AttributionEvent.EventType event) "click")
        as [Hty|Hty]; cbn [andb].
      * apply Hclick in Hty. injection Hty as ->.
        destruct (String.eqb_spec (AttributionEvent.ChannelID event)
                    channelID) as [Hch|Hch]; cbn [length].
        -- rewrite <- Hch. apply Hcount. now rewrite Hch.
        -- rewrite Z.add_0_r.
           apply (counter_holds_same _ _ w); [|exact Hclicks].
           apply Hother. intros H.
           apply (daily_key_inj "clicks:") in H. congruence.
      * cbn [length]. rewrite Z.add_0_r.
        apply (counter_holds_same _ _ w); [|exact Hclicks].
        apply Hother.
        destruct (Hcases kind eq_refl) as [Hk|[Hk|[Hk|Hk]]]; subst kind;
          [|discriminate..].
        exfalso. apply Hty. now apply Hclick.
    + apply (counter_holds_same _ _ w); [|exact Hconversions].
      apply Hother.
      destruct (Hcases kind eq_refl) as [Hk|[Hk|[Hk|Hk]]]; subst kind;
        discriminate.
    + apply (revenue_holds_same _ _ w); [|exact Hrevenue].
      apply Hother.
      destruct (Hcases kind eq_refl) as [Hk|[Hk|[Hk|Hk]]]; subst kind;
        discriminate.
  - rewrite Z.add_0_r.
    destruct (handleConversionEvent_run conversion w)
      as (w' & Hrun & _ & Hclock & _ & Hother & Hcount & Hsum).
    fold today in Hother, Hcount, Hsum.
    exists w'. split; [exact Hrun|]. split; [exact Hclock|].
    split; [|split].
    + apply (counter_holds_same _ _ w); [|exact Hclicks].
      apply Hother; discriminate.
    + destruct (String.eqb_spec (ConversionEvent.ChannelID conversion)
                  channelID) as [Hch|Hch]; cbn [length].
      * rewrite <- Hch. apply Hcount. now rewrite Hch.
      * rewrite Z.add_0_r.
        apply (counter_holds_same _ _ w); [|exact Hconversions].
        apply Hother; [|discriminate]. intros H.
        apply (daily_key_inj "conversions:") in H. congruence.
    + destruct (String.eqb_spec (ConversionEvent.ChannelID conversion)
                  channelID) as [Hch|Hch].
      * rewrite <- Hch. apply Hsum. now rewrite Hch.
      * apply (revenue_holds_same _ _ w); [|exact Hrevenue].
        apply Hother; [discriminate|]. intros H.
        apply (daily_key_inj "revenue:") in H. congruence.
Qed.

End DailyCounters.

Lemma clicks_on_cons (channelID : string)
    (message : AttributionEvent.t + ConversionEvent.t)
    (messages : list (AttributionEvent.t + ConversionEvent.t)) :
  clicks_on channelID (message :: messages)
  = (clicks_on channelID [message] + clicks_on channelID messages)%Z.
Proof.
  unfold clicks_on. cbn [List.filter].
  destruct (is_click_on channelID message); cbn [length]; lia.
Qed.

Lemma conversions_on_cons (channelID : string)
    (message : AttributionEvent.t + ConversionEvent.t)
    (messages : list (AttributionEvent.t + ConversionEvent.t)) :
  conversions_on channelID (message :: messages)
  = (conversions_on channelID [message]
     + conversions_on channelID messages)%Z.
Proof.
  unfold conversions_on. cbn [List.filter].
  destruct (is_conversion_on channelID message); cbn [length]; lia.
Qed.

Lemma handleMessages_run (time_Format : Z -> string)
    (messages : list (AttributionEvent.t + ConversionEvent.t)) (w : World) :
  exists w',
    handleMessages time_Format messages w = Ret (tt, w')
    /\ db w' = db w /\ clock w' = clock w /\ uuids w' = uuids w.
Proof.
  revert w. induction messages as [|message messages IH]; intros w.
  - now exists w.
  - destruct (handleMessage_run time_Format message w)
      as (w1 & Hrun1 & Hdb1 & Hclock1 & Huuids1).
    destruct (IH w1) as (w' & Hrun & Hdb & Hclock & Huuids).
    exists w'. cbn [handleMessages]. unfold st_bind. rewrite Hrun1.
    repeat split; congruence.
Qed.

Lemma handleMessages_counters (time_Format : Z -> string)
    (channelID : string)
    (messages : list (AttributionEvent.t + ConversionEvent.t)) :
  forall (w : World) (n m : Z) (x : Q),
    let today := time_Format (clock w) in
    counter_holds ("clicks:" +:+ channelID +:+ ":" +:+ today) n w ->
    counter_holds ("conversions:" +:+ channelID +:+ ":" +:+ today) m w ->
    revenue_holds ("revenue:" +:+ channelID +:+ ":" +:+ today) x w ->
    exists w',
      handleMessages time_Format messages w = Ret (tt, w')
      /\ clock w' = clock w
      /\ counter_holds ("clicks:" +:+ channelID +:+ ":" +:+ today)
           (n + clicks_on channelID messages) w'
      /\ counter_holds ("conversions:" +:+ channelID +:+ ":" +:+ today)
           (m + conversions_on channelID messages) w'
      /\ exists sum : Q,
           revenue_holds ("revenue:" +:+ channelID +:+ ":" +:+ today) sum w'
           /\ (sum == x + revenue_on channelID messages)%Q.
Proof.
  induction messages as [|message messages IH];
    intros w n m x today Hclicks Hconversions Hrevenue.
  - exists w. split; [reflexivity|]. split; [reflexivity|].
    unfold clicks_on, conversions_on, revenue_on. cbn.
    rewrite !Z.add_0_r. repeat split; auto.
    exists x. split; [exact Hrevenue|lra].
  - destruct (handleMessage_counters time_Format channelID message w n m x
                Hclicks Hconversions Hrevenue)
      as (w1 & Hrun1 & Hclock1 & Hclicks1 & Hconversions1 & Hrevenue1).
    fold today in Hclicks1, Hconversions1, Hrevenue1.
    assert (Htoday : time_Format (clock w1) = today)
      by (unfold today; now rewrite Hclock1).
    rewrite <- Htoday in Hclicks1, Hconversions1, Hrevenue1.
    destruct (IH w1 _ _ _ Hclicks1 Hconversions1 Hrevenue1)
      as (w' & Hrun & Hclock & Hclicks' & Hconversions' & sum & Hsum & Heq).
    rewrite Htoday in Hclicks', Hconversions', Hsum.
    exists w'. split.
    { cbn [handleMessages]. unfold st_bind. now rewrite Hrun1. }
    split; [congruence|].
    rewrite clicks_on_cons, conversions_on_cons, !Z.add_assoc.
    split; [exact Hclicks'|]. split; [exact Hconversions'|].
    exists sum. split; [exact Hsum|].
    rewrite Heq. unfold revenue_on. cbn [fold_left].
    clear. set (f := fun (sum : Q) message => _).
    assert (Hshift : forall (l : list (AttributionEvent.t
                                       + ConversionEvent.t)) (a : Q),
               (fold_left f l a == a + fold_left f l 0)%Q).
    { induction l as [|y l IHl]; intros a; cbn [fold_left]; [lra|].
      rewrite (IHl (f a y)), (IHl (f 0%Q y)).
      unfold f. destruct y as [e|c]; [lra|].
      destruct (String.eqb _ _); lra. }
    pose proof (Hshift messages (f 0%Q message)) as Hm.
    destruct message as [e|c]; cbv beta iota delta [f] in Hm; fold f in Hm;
      [lra|].
    destruct (String.eqb _ _); lra.
Qed.

Lemma calculateChannelStats_of_counters (time_Format : Z -> string)
    (channelID : string) (w : World) (clicks conversions : Z)
    (revenue : Q) :
  let today := time_Format (clock w) in
  redis_Get_Int64 ("clicks:" +:+ channelID +:+ ":" +:+ today) w
  = Ret (clicks, w) ->
  redis_Get_Int64 ("conversions:" +:+ channelID +:+ ":" +:+ today) w
  = Ret (conversions, w) ->
  redis_Get_Float64 ("revenue:" +:+ channelID +:+ ":" +:+ today) w
  = Ret (revenue, w) ->
  calculateChannelStats time_Format channelID w
  = Ret (stats_of channelID today clicks conversions revenue, w).
Proof.
  intros today Hclicks Hconversions Hrevenue.
  unfold calculateChannelStats, st_bind at 1 2 3 4, time_Now.
  fold today. rewrite Hclicks, Hconversions, Hrevenue.
  assert (Hnz : forall n : Z, (0 < n)%Z -> ~ (inject_Z n == 0)%Q).
  { intros n Hn H. unfold Qeq, inject_Z in H. cbn in H. lia. }
  unfold stats_of.
  destruct (0 <? clicks)%Z eqn:Hc; destruct (0 <? conversions)%Z eqn:Hv;
    try apply Z.ltb_lt in Hc; try apply Z.ltb_lt in Hv;
    unfold st_bind, lift, st_ret;
    rewrite ?(fdiv_nonzero _ _ (Hnz _ Hc)), ?(fdiv_nonzero _ _ (Hnz _ Hv));
    cbn [run_bind];
    rewrite ?(fdiv_nonzero _ _ (Hnz _ Hc)), ?(fdiv_nonzero _ _ (Hnz _ Hv));
    cbn [run_bind]; reflexivity.
Qed.

Lemma redis_Get_Int64_same (key : string) (w w' : World) (n : Z) :
  redis w' !! key = redis w !! key ->
  redis_Get_Int64 key w = Ret (n, w) ->
  redis_Get_Int64 key w' = Ret (n, w').
Proof.
  unfold redis_Get_Int64. intros ->.
  destruct (redis w !! key) as [[cs|r|k|x|l]|]; intros H;
    injection H as <-; reflexivity.
Qed.

Lemma redis_Get_Float64_same (key : string) (w w' : World) (x : Q) :
  redis w' !! key = redis w !! key ->
  redis_Get_Float64 key w = Ret (x, w) ->
  redis_Get_Float64 key w' = Ret (x, w').
Proof.
  unfold redis_Get_Float64. intros ->.
  destruct (redis w !! key) as [[cs|r|k|y|l]|]; intros H;
    injection H as <-; reflexivity.
Qed.

(** The statistics of a channel read the clock and the three counters of
    the channel and nothing else. *)
Lemma calculateChannelStats_same (time_Format : Z -> string)
    (channelID : string) (w w' : World) :
  clock w' = clock w ->
  (forall kind : string,
     kind = "clicks:" \/ kind = "conversions:" \/ kind = "revenue:" ->
     redis w' !! (kind +:+ channelID +:+ ":" +:+ time_Format (clock w))
     = redis w !! (kind +:+ channelID +:+ ":" +:+ time_Format (clock w))) ->
  exists stats : AttributionStats.t,
    calculateChannelStats time_Format channelID w = Ret (stats, w)
    /\ calculateChannelStats time_Format channelID w' = Ret (stats, w').
Proof.
  intros Hclock Hkeys.
  destruct (redis_Get_Int64_run
              ("clicks:" +:+ channelID +:+ ":" +:+ time_Format (clock w)) w)
    as [clicks Hclicks].
  destruct (redis_Get_Int64_run
              ("conversions:" +:+ channelID +:+ ":"
               +:+ time_Format (clock w)) w)
    as [conversions Hconversions].
  destruct (redis_Get_Float64_run
              ("revenue:" +:+ channelID +:+ ":" +:+ time_Format (clock w)) w)
    as [revenue Hrevenue].
  exists (stats_of channelID (time_Format (clock w)) clicks conversions
            revenue).
  split.
  - exact (calculateChannelStats_of_counters time_Format channelID w
             clicks conversions revenue Hclicks Hconversions Hrevenue).
  - rewrite <- Hclock.
    apply (calculateChannelStats_of_counters time_Format channelID w');
      rewrite Hclock;
      [ apply (redis_Get_Int64_same _ w)
      | apply (redis_Get_Int64_same _ w)
      | apply (redis_Get_Float64_same _ w) ];
      auto.
Qed.

(** X10. [handleAttributionEvent] always returns, and leaves the channel
    table, the clock and the identifier counter alone.  An event whose type
    is none of click, view, redirect and signup changes nothing at all.  An
    event that is not a click leaves the statistics [calculateChannelStats]
    computes unchanged, for every channel: views, redirects and signups
    are counted under keys of their own that the statistics never read.  No
    event changes the attribution path of any user. *)
Theorem handleAttributionEvent_dispatch :
  forall (time_Format : Z -> string) (event : AttributionEvent.t)
         (w : World),
  exists w' : World,
    handleAttributionEvent time_Format event w = Ret (tt, w')
    /\ db w' = db w /\ clock w' = clock w /\ uuids w' = uuids w
    /\ (AttributionEvent.EventType event <> "click" ->
        AttributionEvent.EventType event <> "view" ->
        AttributionEvent.EventType event <> "redirect" ->
        AttributionEvent.EventType event <> "signup" ->
        w' = w)
    /\ (AttributionEvent.EventType event <> "click" ->
        forall channelID : string,
        exists stats : AttributionStats.t,
          calculateChannelStats time_Format channelID w = Ret (stats, w)
          /\ calculateChannelStats time_Format channelID w'
             = Ret (stats, w'))
    /\ (forall userID : string, path_of userID w' = path_of userID w).
Proof.
  intros time_Format event w.
  pose proof (handleAttributionEvent_run time_Format event w) as Hrun.
  pose proof (counter_prefix_click (AttributionEvent.EventType event))
    as Hclick.
  pose proof (counter_prefix_cases (AttributionEvent.EventType event))
    as Hcases.
  destruct (counter_prefix (AttributionEvent.EventType event))
    as [kind|] eqn:Hkind.
  - destruct Hrun as (w' & Hrun & Hdb & Hclock & Huuids & Hother & _).
    exists w'. repeat (split; [assumption|]). split; [|split].
    + intros H1 H2 H3 H4. exfalso. clear -Hkind H1 H2 H3 H4.
      unfold counter_prefix in Hkind.
      destruct (String.eqb_spec (AttributionEvent.EventType event) "click");
        [contradiction|].
      destruct (String.eqb_spec (AttributionEvent.EventType event) "view");
        [contradiction|].
      destruct (String.eqb_spec (AttributionEvent.EventType event)
                  "redirect"); [contradiction|].
      destruct (String.eqb_spec (AttributionEvent.EventType event)
                  "signup"); [contradiction|].
      discriminate.
    + intros Hty channelID.
      apply calculateChannelStats_same; [exact Hclock|].
      intros kind' Hkind'. apply Hother.
      destruct (Hcases kind eq_refl) as [Hk|[Hk|[Hk|Hk]]]; subst kind;
        [exfalso; apply Hty; now apply Hclick|..];
        destruct Hkind' as [Hk|[Hk|Hk]]; subst kind'; discriminate.
    + intros userID. unfold path_of. rewrite Hother; [reflexivity|].
      destruct (Hcases kind eq_refl) as [Hk|[Hk|[Hk|Hk]]]; subst kind;
        discriminate.
  - exists w. split; [exact Hrun|]. do 3 (split; [reflexivity|]).
    split; [reflexivity|]. split; [|reflexivity].
    intros _ channelID.
    apply (calculateChannelStats_same time_Format channelID w w);
      reflexivity.
Qed.

(** X11. The daily counters count messages per channel.  Starting from a
    day on which Redis holds none of the three counters of a channel, after
    any sequence of attribution events and conversions, handled one after
    the other, [calculateChannelStats] reports for that channel: as clicks
    the number of click events on the channel, as conversions the number of
    conversions on the channel, as revenue the sum of their revenues; events
    of other types and messages of other channels do not count.  The rate
    is then conversions / clicks * 100 and the average order value
    revenue / conversions (0 without clicks, without conversions). *)
Theorem daily_counters_count_messages
    (time_Format : Z -> string) (channelID : string)
    (messages : list (AttributionEvent.t + ConversionEvent.t))
    (w : World) :
  counters_free time_Format channelID w ->
  exists (w' : World) (stats : AttributionStats.t),
    handleMessages time_Format messages w = Ret (tt, w')
    /\ calculateChannelStats time_Format channelID w' = Ret (stats, w')
    /\ AttributionStats.TotalClicks stats = clicks_on channelID messages
    /\ AttributionStats.TotalConversions stats
       = conversions_on channelID messages
    /\ (AttributionStats.TotalRevenue stats
        == revenue_on channelID messages)%Q
    /\ (AttributionStats.ConversionRate stats
        == if (0 <? clicks_on channelID messages)%Z
           then inject_Z (conversions_on channelID messages)
                / inject_Z (clicks_on channelID messages) * 100
           else 0)%Q
    /\ (AttributionStats.AverageOrderValue stats
        == if (0 <? conversions_on channelID messages)%Z
           then revenue_on channelID messages
                / inject_Z (conversions_on channelID messages)
           else 0)%Q.
Proof.
  intros (Hclicks & Hconversions & Hrevenue).
  destruct (handleMessages_counters time_Format channelID messages w 0 0 0)
    as (w' & Hrun & Hclock & Hclicks' & Hconversions' & sum & Hsum & Heq).
  { unfold counter_holds. now rewrite Hclicks. }
  { unfold counter_holds. now rewrite Hconversions. }
  { unfold revenue_holds. rewrite Hrevenue. reflexivity. }
  rewrite Z.add_0_l in Hclicks', Hconversions'. rewrite Qplus_0_l in Heq.
  rewrite <- Hclock in Hclicks', Hconversions', Hsum.
  set (clicks := clicks_on channelID messages) in *.
  set (conversions := conversions_on channelID messages) in *.
  assert (Hpos : (0 <= clicks)%Z /\ (0 <= conversions)%Z)
    by (unfold clicks, conversions, clicks_on, conversions_on; lia).
  assert (Hget_clicks :
            redis_Get_Int64
              ("clicks:" +:+ channelID +:+ ":" +:+ time_Format (clock w')) w'
            = Ret (clicks, w')).
  { unfold redis_Get_Int64. unfold counter_holds in Hclicks'.
    destruct (redis w' !! _) as [[cs|r|k|y|l]|];
      try contradiction; congruence. }
  assert (Hget_conversions :
            redis_Get_Int64
              ("conversions:" +:+ channelID +:+ ":"
               +:+ time_Format (clock w')) w'
            = Ret (conversions, w')).
  { unfold redis_Get_Int64. unfold counter_holds in Hconversions'.
    destruct (redis w' !! _) as [[cs|r|k|y|l]|];
      try contradiction; congruence. }
  assert (Hget_revenue :
            exists revenue : Q,
              redis_Get_Float64
                ("revenue:" +:+ channelID +:+ ":"
                 +:+ time_Format (clock w')) w'
              = Ret (revenue, w')
              /\ (revenue == revenue_on channelID messages)%Q).
  { unfold redis_Get_Float64. unfold revenue_holds in Hsum.
    destruct (redis w' !! _) as [[cs|r|k|y|l]|]; try contradiction.
    - exists y. split; [reflexivity|]. now rewrite Hsum.
    - exists 0%Q. split; [reflexivity|]. now rewrite <- Hsum. }
  destruct Hget_revenue as (revenue & Hget_revenue & Hrev).
  exists w', (stats_of channelID (time_Format (clock w')) clicks conversions
                revenue).
  split; [exact Hrun|].
  split;
    [exact (calculateChannelStats_of_counters time_Format channelID w'
              clicks conversions revenue Hget_clicks Hget_conversions
              Hget_revenue)|].
  cbn [stats_of AttributionStats.TotalClicks
         AttributionStats.TotalConversions AttributionStats.TotalRevenue
         AttributionStats.ConversionRate AttributionStats.AverageOrderValue].
  repeat split; try reflexivity; try exact Hrev.
  destruct (0 <? conversions)%Z; [|reflexivity]. now rewrite Hrev.
Qed.

(** The example messages on an empty Redis: for channel c75 three clicks,
    two conversions, revenue 75, rate 200/3, average order value 75/2. *)
Lemma daily_counters_count_messages_witness :
  exists (w' : World) (stats : AttributionStats.t),
    handleMessages day_of exampleMessages (exampleWorld []) = Ret (tt, w')
    /\ calculateChannelStats day_of "c75" w' = Ret (stats, w')
    /\ AttributionStats.TotalClicks stats = 3%Z
    /\ AttributionStats.TotalConversions stats = 2%Z
    /\ (AttributionStats.TotalRevenue stats == 75)%Q
    /\ (AttributionStats.ConversionRate stats == 200 / 3)%Q
    /\ (AttributionStats.AverageOrderValue stats == 75 / 2)%Q.
Proof.
  destruct (daily_counters_count_messages day_of "c75" exampleMessages
              (exampleWorld []))
    as (w' & stats & Hrun & Hstats & Hclicks & Hconversions & Hrevenue
        & Hrate & Haov).
  - repeat split; reflexivity.
  - exists w', stats.
    split; [exact Hrun|]. split; [exact Hstats|]. split; [exact Hclicks|].
    split; [exact Hconversions|]. split; [exact Hrevenue|].
    split; [exact Hrate|exact Haov].
Defined.

(** ** Attribution paths of several users *)

Lemma updateUserAttributionPath_frame (config : Config)
    (event : AttributionEvent.t) (w : World) :
  exists w',
    updateUserAttributionPath config event w = Ret (tt, w')
    /\ db w' = db w /\ clock w' = clock w /\ uuids w' = uuids w
    /\ forall key : string,
         key <> "attribution_path:" +:+ AttributionEvent.UserID event ->
         redis w' !! key = redis w !! key.
Proof.
  destruct (path_key_ok_dec (AttributionEvent.UserID event) w) as [Hok|Hbad].
  - eexists. split; [now apply updateUserAttributionPath_ok|].
    cbn [set_redis redis db clock uuids]. repeat split.
    intros key Hkey. now apply lookup_insert_ne.
  - exists w. split; [now apply updateUserAttributionPath_wrong_type|].
    now repeat split.
Qed.

Lemma path_key_ok_same (userID : string) (w w' : World) :
  redis w' !! ("attribution_path:" +:+ userID)
  = redis w !! ("attribution_path:" +:+ userID) ->
  (path_key_ok userID w -> path_key_ok userID w')
  /\ path_of userID w' = path_of userID w.
Proof. unfold path_key_ok, path_of. now intros ->. Qed.

(** X12. Attribution paths are kept per user.  After any sequence of
    events of any users, the path of a user whose key was free or held a
    list of at most ten entries is the touchpoints of that user's own
    events, most recent first, followed by the old path, cut to ten
    entries; the events of other users do not enter or shorten it, and
    [getUserAttributionPath] returns exactly that list. *)
Theorem attribution_paths_per_user (config : Config)
    (events : list AttributionEvent.t) (userID : string) (w : World) :
  path_key_ok userID w ->
  (length (path_of userID w) <= 10)%nat ->
  exists w' : World,
    appendTouchpoints config events w = Ret (tt, w')
    /\ path_key_ok userID w'
    /\ path_of userID w'
       = take 10 (rev (map touchpoint (events_of userID events))
                  ++ path_of userID w)
    /\ getUserAttributionPath userID w' = Ret (path_of userID w', w').
Proof.
  intros Hok Hlen.
  enough (H : exists w' : World,
             appendTouchpoints config events w = Ret (tt, w')
             /\ path_key_ok userID w'
             /\ path_of userID w'
                = take 10 (rev (map touchpoint (events_of userID events))
                           ++ path_of userID w)).
  { destruct H as (w' & Hrun & Hok' & Hpath). exists w'.
    repeat split; auto. apply getUserAttributionPath_run. }
  revert w Hok Hlen.
  induction events as [|event events IH]; intros w Hok Hlen.
  - exists w. split; [reflexivity|]. split; [exact Hok|].
    cbn. now rewrite take_ge.
  - destruct (updateUserAttributionPath_run config event w)
      as (w1 & Hrun1 & Hsame & _ & _).
    destruct (updateUserAttributionPath_frame config event w)
      as (w1' & Hrun1' & _ & _ & _ & Hother).
    rewrite Hrun1 in Hrun1'. injection Hrun1' as <-.
    unfold events_of. cbn [List.filter].
    destruct (String.eqb_spec (AttributionEvent.UserID event) userID)
      as [Huser|Huser].
    + rewrite Huser in Hsame. destruct (Hsame Hok) as [Hok1 Hpath1].
      destruct (IH w1 Hok1) as (w' & Hrun & Hok' & Hpath).
      { rewrite Hpath1, length_take. lia. }
      exists w'. split.
      { cbn [appendTouchpoints]. unfold st_bind. now rewrite Hrun1. }
      split; [exact Hok'|].
      rewrite Hpath, Hpath1. fold (events_of userID events).
      rewrite take_app_take. cbn [map rev].
      now rewrite <- app_assoc.
    + destruct (path_key_ok_same userID w w1) as [Hok1 Hpath1].
      { apply Hother. intros H. apply path_key_inj in H. congruence. }
      destruct (IH w1 (Hok1 Hok)) as (w' & Hrun & Hok' & Hpath).
      { now rewrite Hpath1. }
      exists w'. split.
      { cbn [appendTouchpoints]. unfold st_bind. now rewrite Hrun1. }
      split; [exact Hok'|].
      now rewrite Hpath, Hpath1.
Qed.

(** Two users interleaved on an empty Redis: each path holds the user's own
    touchpoints, most recent first. *)
Lemma attribution_paths_per_user_witness :
  exists w' : World,
    appendTouchpoints setDefaults exampleInterleaved (exampleWorld [])
    = Ret (tt, w')
    /\ path_of "user-1" w' = ["a:signup:5"; "b:redirect:3"; "a:click:1"]
    /\ getUserAttributionPath "user-1" w'
       = Ret (["a:signup:5"; "b:redirect:3"; "a:click:1"], w').
Proof.
  destruct (attribution_paths_per_user setDefaults exampleInterleaved
              "user-1" (exampleWorld []))
    as (w' & Hrun & _ & Hpath & Hget).
  - exact I.
  - vm_compute. lia.
  - exists w'. split; [exact Hrun|]. split; [exact Hpath|].
    rewrite Hget. now rewrite Hpath.
Defined.

(** X13. A path key that holds a value of another type than a list loses
    the user's touchpoints silently: [updateUserAttributionPath] returns
    without changing anything and [getUserAttributionPath] returns the
    empty path. *)
Theorem attribution_path_wrong_type (config : Config)
    (event : AttributionEvent.t) (w : World) :
  ~ path_key_ok (AttributionEvent.UserID event) w ->
  updateUserAttributionPath config event w = Ret (tt, w)
  /\ getUserAttributionPath (AttributionEvent.UserID event) w = Ret ([], w).
Proof.
  intros Hbad. split; [now apply updateUserAttributionPath_wrong_type|].
  rewrite getUserAttributionPath_run. unfold path_of.
  unfold path_key_ok in Hbad.
  destruct (redis w !! _) as [[cs|r|n|x|l]|]; try reflexivity;
    exfalso; apply Hbad; exact I.
Qed.

(** The path key of user-1 holding a counter. *)
Lemma attribution_path_wrong_type_witness :
  updateUserAttributionPath setDefaults exampleClick worldWrongType
  = Ret (tt, worldWrongType)
  /\ getUserAttributionPath "user-1" worldWrongType
     = Ret ([], worldWrongType).
Proof.
  apply (attribution_path_wrong_type setDefaults exampleClick worldWrongType).
  vm_compute. intros H. exact H.
Defined.

(** ** The two services keep apart *)

Lemma same_matching_state_refl (w : World) : same_matching_state w w.
Proof. now repeat split. Qed.

Lemma same_matching_state_trans (w1 w2 w3 : World) :
  same_matching_state w1 w2 -> same_matching_state w2 w3 ->
  same_matching_state w1 w3.
Proof.
  intros (Hdb & Hclock & Huuids & Hredirect & Hcache)
    (Hdb' & Hclock' & Huuids' & Hredirect' & Hcache').
  split; [congruence|]. split; [congruence|]. split; [congruence|].
  split.
  - intros id. now rewrite Hredirect', Hredirect.
  - intros a r. now rewrite Hcache', Hcache.
Qed.

Lemma updateUserAttributionPath_same_matching_state (config : Config)
    (event : AttributionEvent.t) (w : World) :
  exists w',
    updateUserAttributionPath config event w = Ret (tt, w')
    /\ same_matching_state w w'.
Proof.
  destruct (updateUserAttributionPath_frame config event w)
    as (w' & Hrun & Hdb & Hclock & Huuids & Hother).
  exists w'. split; [exact Hrun|]. split; [exact Hdb|].
    split; [exact Hclock|]. split; [exact Huuids|]. split.
  - intros id. apply Hother. discriminate.
  - intros a r. apply Hother. unfold eligibility_key. discriminate.
Qed.

Lemma handleMessage_same_matching_state (time_Format : Z -> string)
    (message : AttributionEvent.t + ConversionEvent.t) (w : World) :
  exists w',
    handleMessage time_Format message w = Ret (tt, w')
    /\ same_matching_state w w'.
Proof.
  destruct message as [event|conversion]; cbn [handleMessage].
  - pose proof (handleAttributionEvent_run time_Format event w) as Hrun.
    pose proof (counter_prefix_cases (AttributionEvent.EventType event))
      as Hcases.
    destruct (counter_prefix _) as [kind|].
    + destruct Hrun as (w' & Hrun & Hdb & Hclock & Huuids & Hother & _).
      exists w'. split; [exact Hrun|]. split; [exact Hdb|].
    split; [exact Hclock|]. split; [exact Huuids|]. split.
      * intros id. apply Hother.
        destruct (Hcases kind eq_refl) as [Hk|[Hk|[Hk|Hk]]]; subst kind;
          discriminate.
      * intros a r. apply Hother. unfold eligibility_key.
        destruct (Hcases kind eq_refl) as [Hk|[Hk|[Hk|Hk]]]; subst kind;
          discriminate.
    + exists w. split; [exact Hrun|]. apply same_matching_state_refl.
  - destruct (handleConversionEvent_run time_Format conversion w)
      as (w' & Hrun & Hdb & Hclock & Huuids & Hother & _).
    exists w'. split; [exact Hrun|]. split; [exact Hdb|].
    split; [exact Hclock|]. split; [exact Huuids|]. split.
    + intros id. apply Hother; discriminate.
    + intros a r. apply Hother; unfold eligibility_key; discriminate.
Qed.

Lemma appendTouchpoints_same_matching_state (config : Config)
    (events : list AttributionEvent.t) (w : World) :
  exists w',
    appendTouchpoints config events w = Ret (tt, w')
    /\ same_matching_state w w'.
Proof.
  revert w. induction events as [|event events IH]; intros w.
  - exists w. split; [reflexivity|apply same_matching_state_refl].
  - destruct (updateUserAttributionPath_same_matching_state config event w)
      as (w1 & Hrun1 & Hsame1).
    destruct (IH w1) as (w' & Hrun & Hsame).
    exists w'. split.
    + cbn [appendTouchpoints]. unfold st_bind. now rewrite Hrun1.
    + exact (same_matching_state_trans _ _ _ Hsame1 Hsame).
Qed.

Lemma handleMessages_same_matching_state (time_Format : Z -> string)
    (messages : list (AttributionEvent.t + ConversionEvent.t)) (w : World) :
  exists w',
    handleMessages time_Format messages w = Ret (tt, w')
    /\ same_matching_state w w'.
Proof.
  revert w. induction messages as [|message messages IH]; intros w.
  - exists w. split; [reflexivity|apply same_matching_state_refl].
  - destruct (handleMessage_same_matching_state time_Format message w)
      as (w1 & Hrun1 & Hsame1).
    destruct (IH w1) as (w' & Hrun & Hsame).
    exists w'. split.
    + cbn [handleMessages]. unfold st_bind. now rewrite Hrun1.
    + exact (same_matching_state_trans _ _ _ Hsame1 Hsame).
Qed.

(** X14. The two services keep apart in Redis.  A [MatchChannels] call,
    whatever it returns, changes no attribution path and none of the
    statistics [calculateChannelStats] computes.  In the other direction,
    recording touchpoints and handling attribution events and conversions
    leaves everything the matching service reads as it was: the channel
    table, the clock, the identifier counter, every cached channel list and
    every redirect descriptor, so [GetRedirectInfo] answers as before. *)
Theorem services_keep_apart :
  (forall (config : Config) (uuid_New : nat -> string)
          (sort_Slice : forall A : Type, (A -> A -> bool) -> list A -> list A)
          (request : MatchingRequest) (w w' : World)
          (res : result (list MatchingResult)),
     MatchChannels config uuid_New sort_Slice request w = Ret (res, w') ->
     (forall userID : string,
        redis w' !! ("attribution_path:" +:+ userID)
        = redis w !! ("attribution_path:" +:+ userID))
     /\ (forall userID : string,
           getUserAttributionPath userID w' = Ret (path_of userID w, w'))
     /\ (forall (time_Format : Z -> string) (channelID : string),
         exists stats : AttributionStats.t,
           calculateChannelStats time_Format channelID w = Ret (stats, w)
           /\ calculateChannelStats time_Format channelID w'
              = Ret (stats, w')))
  /\ (forall (config : Config) (time_Format : Z -> string)
             (events : list AttributionEvent.t)
             (messages : list (AttributionEvent.t + ConversionEvent.t))
             (w : World),
      exists w1 w2 : World,
        appendTouchpoints config events w = Ret (tt, w1)
        /\ handleMessages time_Format messages w1 = Ret (tt, w2)
        /\ same_matching_state w w2
        /\ forall (id : string) (got : result RedirectRecord),
             GetRedirectInfo id w = Ret (got, w) ->
             GetRedirectInfo id w2 = Ret (got, w2)).
Proof.
  split.
  - intros config uuid_New sort_Slice request w w' res Hrun.
    destruct (MatchChannels_frame config uuid_New sort_Slice request w w' res
                Hrun) as (_ & Hclock & _ & Hkeys).
    assert (Hpaths : forall userID : string,
               redis w' !! ("attribution_path:" +:+ userID)
               = redis w !! ("attribution_path:" +:+ userID)).
    { intros userID. apply Hkeys; [unfold eligibility_key|intros i];
        discriminate. }
    split; [exact Hpaths|]. split.
    + intros userID. rewrite getUserAttributionPath_run.
      now rewrite (proj2 (path_key_ok_same userID w w' (Hpaths userID))).
    + intros time_Format channelID.
      apply calculateChannelStats_same; [exact Hclock|].
      intros kind [Hk|[Hk|Hk]]; subst kind;
        (apply Hkeys; [unfold eligibility_key|intros i]; discriminate).
  - intros config time_Format events messages w.
    destruct (appendTouchpoints_same_matching_state config events w)
      as (w1 & Hrun1 & Hsame1).
    destruct (handleMessages_same_matching_state time_Format messages w1)
      as (w2 & Hrun2 & Hsame2).
    exists w1, w2. split; [exact Hrun1|]. split; [exact Hrun2|].
    pose proof (same_matching_state_trans _ _ _ Hsame1 Hsame2) as Hsame.
    split; [exact Hsame|].
    intros id got. apply GetRedirectInfo_lookup.
    destruct Hsame as (_ & _ & _ & Hredirect & _). apply Hredirect.
Qed.

(** A matching call on a world that holds the paths of the two example
    users: the path of user-1 is read back unchanged after the call. *)
Lemma services_keep_apart_witness :
  exists (w w' : World) (res : result (list MatchingResult)),
    appendTouchpoints setDefaults exampleInterleaved
      (exampleWorld [channelB]) = Ret (tt, w)
    /\ MatchChannels setDefaults uuid_seq insertionSort exampleRequest w
       = Ret (res, w')
    /\ getUserAttributionPath "user-1" w'
       = Ret (["a:signup:5"; "b:redirect:3"; "a:click:1"], w').
Proof.
  eexists _, _, _. split; [vm_compute; reflexivity|].
  match goal with
  | |- MatchChannels _ _ _ _ ?w = _ /\ _ =>
      split; [vm_compute; reflexivity|];
      refine (proj1 (proj2 (proj1 services_keep_apart setDefaults uuid_seq
                              insertionSort exampleRequest w _ _ _))
                "user-1");
      vm_compute; reflexivity
  end.
Defined.

(** ** Redirect identifiers are not shared *)

Lemma scored_redirectID (config : Config) (uuid_New : nat -> string)
    (channels : list Channel) (request : MatchingRequest) (w w' : World)
    (scored : list MatchingResult) (i : nat) (r : MatchingResult) :
  scoreAll config uuid_New channels request w = Ret (scored, w') ->
  scored !! i = Some r ->
  redirectID r = uuid_New (uuids w + i)
  /\ (i < length channels)%nat
  /\ uuids w' = (uuids w + length channels)%nat.
Proof.
  intros Hscored Hi.
  destruct (scoreAll_run config uuid_New channels request w)
    as (rs & Hrs & Hlen & Hall).
  rewrite Hrs in Hscored. injection Hscored as -> <-.
  assert (Hlt : (i < length channels)%nat)
    by (rewrite <- Hlen; now apply lookup_lt_Some in Hi).
  destruct (lookup_lt_is_Some_2 channels i Hlt) as [channel Hchannel].
  destruct (Hall i channel Hchannel) as (r' & Hr' & Hmatch).
  rewrite Hi in Hr'. injection Hr' as <-.
  destruct Hmatch as (_ & _ & _ & _ & Hid & _).
  split; [exact Hid|]. split; [exact Hlt|].
  now rewrite issue_all_uuids, Hlen.
Qed.

Lemma sublist_List_filter {A : Type} (f : A -> bool) (l : list A) :
  sublist (List.filter f l) l.
Proof.
  induction l as [|x l IH]; cbn; [constructor|].
  destruct (f x); now constructor.
Qed.

Lemma MatchChannels_result_scored (config : Config)
    (uuid_New : nat -> string)
    (sort_Slice : forall A : Type, (A -> A -> bool) -> list A -> list A)
    (request : MatchingRequest) (w w' : World)
    (results : list MatchingResult) :
  sort_Slice_contract sort_Slice ->
  MatchChannels config uuid_New sort_Slice request w = Ret (Ok results, w') ->
  exists (channels : list Channel) (w1 : World)
         (scored : list MatchingResult),
    scoreAll config uuid_New channels request w1 = Ret (scored, w')
    /\ uuids w1 = uuids w
    /\ (forall r, In r results -> In r scored)
    /\ (NoDup scored -> NoDup results).
Proof.
  intros contract Hrun.
  destruct (MatchChannels_Ok_inv _ _ _ _ _ _ _ Hrun)
    as (channels & w1 & scored & Hgot & _ & Hscored & _ & _ & ->).
  destruct (getEligibleChannels_frame (AssetID request) (UserRegion request)
              w) as (got & w1' & Hgot' & _ & Huuids & _).
  rewrite Hgot in Hgot'. injection Hgot' as _ <-.
  destruct (contract _ byMatchScore (List.filter (passes config) scored)
              byMatchScore_strict_weak_order) as [Hperm _].
  exists channels, w1, scored. split; [exact Hscored|].
  split; [exact Huuids|]. split.
  - intros r Hr. apply In_take in Hr.
    apply (Permutation_in _ (Permutation_sym Hperm)) in Hr.
    now apply filter_In in Hr as [Hr _].
  - intros Hnodup. eapply sublist_NoDup; [|apply sublist_take].
    rewrite <- Hperm. eapply sublist_NoDup; [exact Hnodup|].
    apply sublist_List_filter.
Qed.

(** X15. When [uuid.New] never repeats an identifier, no two results that
    [MatchChannels] returns share a redirect identifier: not within one
    call, and not across two calls of which the second starts after the
    first has ended.  The identifiers of a call are among those drawn
    during the call. *)
Theorem redirect_identifiers_not_shared
    (config : Config) (uuid_New : nat -> string)
    (sort_Slice : forall A : Type, (A -> A -> bool) -> list A -> list A)
    (request : MatchingRequest) (w w' : World)
    (results : list MatchingResult) :
  Inj (=) (=) uuid_New ->
  sort_Slice_contract sort_Slice ->
  MatchChannels config uuid_New sort_Slice request w = Ret (Ok results, w') ->
  NoDup (map redirectID results)
  /\ (forall r : MatchingResult,
        In r results ->
        exists n : nat,
          (uuids w <= n < uuids w')%nat /\ redirectID r = uuid_New n)
  /\ (forall (config2 : Config) (request2 : MatchingRequest)
             (w2 w2' : World) (results2 : list MatchingResult)
             (r r2 : MatchingResult),
        (uuids w' <= uuids w2)%nat ->
        MatchChannels config2 uuid_New sort_Slice request2 w2
        = Ret (Ok results2, w2') ->
        In r results -> In r2 results2 ->
        redirectID r <> redirectID r2).
Proof.
  intros Hinj contract Hrun.
  assert (Hids :
            forall (config : Config) (request : MatchingRequest)
                   (w w' : World) (results : list MatchingResult),
              MatchChannels config uuid_New sort_Slice request w
              = Ret (Ok results, w') ->
              forall r : MatchingResult,
                In r results ->
                exists n : nat,
                  (uuids w <= n < uuids w')%nat
                  /\ redirectID r = uuid_New n).
  { clear config request w w' results Hrun.
    intros config request w w' results Hrun r Hr.
    destruct (MatchChannels_result_scored _ _ _ _ _ _ _ contract Hrun)
      as (channels & w1 & scored & Hscored & Huuids & Hin & _).
    apply Hin, list_elem_of_In, list_elem_of_lookup in Hr as [i Hi].
    destruct (scored_redirectID _ _ _ _ _ _ _ _ _ Hscored Hi)
      as (Hid & Hlt & Hend).
    exists (uuids w1 + i)%nat. split; [lia|exact Hid]. }
  split; [|split].
  - destruct (MatchChannels_result_scored _ _ _ _ _ _ _ contract Hrun)
      as (channels & w1 & scored & Hscored & Huuids & Hin & Hnodup).
    assert (Hinj_on :
              forall (i j : nat) (x y : MatchingResult),
                scored !! i = Some x -> scored !! j = Some y ->
                redirectID x = redirectID y -> i = j).
    { intros i j x y Hi Hj Heq.
      destruct (scored_redirectID _ _ _ _ _ _ _ _ _ Hscored Hi)
        as (Hx & _ & _).
      destruct (scored_redirectID _ _ _ _ _ _ _ _ _ Hscored Hj)
        as (Hy & _ & _).
      rewrite Hx, Hy in Heq. apply Hinj in Heq. lia. }
    apply (NoDup_fmap_2_strong redirectID).
    + intros x y Hx Hy Heq.
      apply list_elem_of_In, Hin, list_elem_of_In, list_elem_of_lookup in Hx
        as [i Hi].
      apply list_elem_of_In, Hin, list_elem_of_In, list_elem_of_lookup in Hy
        as [j Hj].
      pose proof (Hinj_on i j x y Hi Hj Heq) as ->. congruence.
    + apply Hnodup. apply NoDup_alt. intros i j x Hi Hj.
      now apply (Hinj_on i j x x).
  - exact (Hids config request w w' results Hrun).
  - intros config2 request2 w2 w2' results2 r r2 Hlater Hrun2 Hr Hr2 Heq.
    destruct (Hids _ _ _ _ _ Hrun r Hr) as (n & Hn & Hid).
    destruct (Hids _ _ _ _ _ Hrun2 r2 Hr2) as (n2 & Hn2 & Hid2).
    rewrite Hid, Hid2 in Heq. apply Hinj in Heq. lia.
Qed.

(** Scenario C: the two returned results carry different identifiers. *)
Lemma redirect_identifiers_not_shared_witness :
  exists (results : list MatchingResult) (w' : World),
    MatchChannels setDefaults uuid_seq insertionSort exampleRequest
      (exampleWorld [channel75; channel55; channel90])
    = Ret (Ok results, w')
    /\ map redirectID results = ["uuid-2"; "uuid-0"]
    /\ NoDup (map redirectID results).
Proof.
  eexists _, _. split; [vm_compute; reflexivity|].
  split; [reflexivity|].
  refine (proj1 (redirect_identifiers_not_shared setDefaults uuid_seq
                   insertionSort exampleRequest
                   (exampleWorld [channel75; channel55; channel90]) _ _
                   uuid_seq_inj insertionSort_contract _)).
  vm_compute; reflexivity.
Defined.

(** ** The HTTP handlers of the matching routes *)

Lemma MatchChannels_result_stored (config : Config)
    (uuid_New : nat -> string)
    (sort_Slice : forall A : Type, (A -> A -> bool) -> list A -> list A)
    (request : MatchingRequest) (w w' : World)
    (results : list MatchingResult) (r : MatchingResult) :
  Inj (=) (=) uuid_New ->
  sort_Slice_contract sort_Slice ->
  MatchChannels config uuid_New sort_Slice request w = Ret (Ok results, w') ->
  In r results ->
  redis w' !! ("redirect:" +:+ redirectID r)
  = Some (stored_redirect request (clock w) r).
Proof.
  intros Hinj contract Hrun Hr.
  destruct (MatchChannels_result_scored _ _ _ _ _ _ _ contract Hrun)
    as (channels & w1 & scored & Hscored & Huuids & Hin & _).
  destruct (MatchChannels_frame config uuid_New sort_Slice request w w' _
              Hrun) as (_ & Hclock & _).
  apply Hin, list_elem_of_In, list_elem_of_lookup in Hr as [i Hi].
  destruct (scored_redirectID _ _ _ _ _ _ _ _ _ Hscored Hi) as (Hid & _).
  destruct (scoreAll_run config uuid_New channels request w1)
    as (rs & Hrs & _).
  rewrite Hrs in Hscored. injection Hscored as -> <-.
  rewrite Hid, (issue_all_lookup uuid_New request scored w1 i r Hinj Hi).
  destruct (issue_all_clock_db uuid_New request scored w1) as [Hc _].
  now rewrite <- Hclock, Hc.
Qed.

(** X16. The matching routes, end to end.  A body that does not bind is
    answered with status 400 and the service is not called.  A request
    without an eligible channel is answered with status 500 and the
    details "no eligible channels found for asset A in region R".  When
    the match handler answers 200, the count is the length of the data,
    and for every result in the data the redirect handler, asked for the
    result's redirect identifier, answers 200 with the descriptor of the
    result and the request that was matched ([uuid.New] not repeating
    identifiers).  An identifier with no entry is answered with status
    404. *)
Theorem matching_routes :
  forall (config : Config) (uuid_New : nat -> string)
         (sort_Slice : forall A : Type, (A -> A -> bool) -> list A -> list A),
    Inj (=) (=) uuid_New ->
    sort_Slice_contract sort_Slice ->
    (forall (err : string) (w : World),
       handlers_MatchChannels config uuid_New sort_Slice (Err err) w
       = Ret ({| status := 400;
                 body := ErrorBody "Invalid request body" (Some err) |}, w))
    /\ (forall (request : MatchingRequest) (w : World)
               (table : list Channel),
          cache_miss (AssetID request) (UserRegion request) w ->
          db w = Ok table ->
          List.filter (eligible (AssetID request) (UserRegion request)) table
          = [] ->
          exists w' : World,
            handlers_MatchChannels config uuid_New sort_Slice (Ok request) w
            = Ret ({| status := 500;
                      body :=
                        ErrorBody "Failed to match channels"
                          (Some ("no eligible channels found for asset "
                                 +:+ AssetID request +:+ " in region "
                                 +:+ UserRegion request)) |}, w'))
    /\ (forall (request : MatchingRequest) (w w' : World)
               (response : Response),
          handlers_MatchChannels config uuid_New sort_Slice (Ok request) w
          = Ret (response, w') ->
          status response = 200%Z ->
          exists matches : list MatchingResult,
            body response
            = MatchesBody matches (Z.of_nat (length matches))
            /\ MatchChannels config uuid_New sort_Slice request w
               = Ret (Ok matches, w')
            /\ forall r : MatchingResult,
                 In r matches ->
                 handlers_GetRedirect (redirectID r) w'
                 = Ret ({| status := 200;
                           body :=
                             DataBody
                               {| redirect_info := RedirectInfo_ r;
                                  request := request;
                                  created_at := clock w |} |}, w'))
    /\ (forall (id : string) (w : World),
          redis w !! ("redirect:" +:+ id) = None ->
          handlers_GetRedirect id w
          = Ret ({| status := 404;
                    body := ErrorBody "Redirect not found or expired"
                              None |}, w)).
Proof.
  intros config uuid_New sort_Slice Hinj contract.
  split; [reflexivity|]. split; [|split].
  - intros request w table Hmiss Hdb Hnone.
    pose proof (getEligibleChannels_miss_ok _ _ _ _ Hmiss Hdb) as Hgot.
    rewrite Hnone in Hgot.
    eexists. unfold handlers_MatchChannels, st_bind.
    rewrite (MatchChannels_no_channel config uuid_New sort_Slice request _ _
               Hgot).
    reflexivity.
  - intros request w w' response Hrun Hstatus.
    unfold handlers_MatchChannels, st_bind in Hrun.
    destruct (MatchChannels config uuid_New sort_Slice request w)
      as [[[matches|err] w1]|e] eqn:Hmatch; [| |discriminate].
    2: { injection Hrun as <- _. discriminate. }
    injection Hrun as <- <-. exists matches.
    split; [reflexivity|]. split; [reflexivity|].
    intros r Hr.
    pose proof (MatchChannels_result_stored _ _ _ _ _ _ _ r Hinj contract
                  Hmatch Hr) as Hstored.
    unfold handlers_GetRedirect, GetRedirectInfo, redis_Get, st_bind, st_ret.
    now rewrite Hstored.
  - intros id w Hnone.
    unfold handlers_GetRedirect, GetRedirectInfo, redis_Get, st_bind, st_ret.
    now rewrite Hnone.
Qed.

(** Scenario C through the handlers: status 200, and the identifier of the
    first result leads the redirect handler to its descriptor. *)
Lemma matching_routes_witness :
  exists (response : Response) (matches : list MatchingResult)
         (r : MatchingResult) (w' : World),
    handlers_MatchChannels setDefaults uuid_seq insertionSort
      (Ok exampleRequest) (exampleWorld [channel75; channel55; channel90])
    = Ret (response, w')
    /\ status response = 200%Z
    /\ body response = MatchesBody matches 2
    /\ matches !! 0%nat = Some r
    /\ handlers_GetRedirect (redirectID r) w'
       = Ret ({| status := 200;
                 body := DataBody {| redirect_info := RedirectInfo_ r;
                                     request := exampleRequest;
                                     created_at := 1700000000 |} |}, w').
Proof.
  destruct (proj1 (proj2 (proj2 (matching_routes setDefaults uuid_seq
                                   insertionSort uuid_seq_inj
                                   insertionSort_contract)))
              exampleRequest
              (exampleWorld [channel75; channel55; channel90]) _ _
              ltac:(vm_compute; reflexivity) eq_refl)
    as (matches & Hbody & Hrun & Hredirect).
  assert (Hrun' := Hrun). vm_compute in Hrun'.
  injection Hrun' as Hmatches.
  eexists _, matches, _, _. split; [vm_compute; reflexivity|].
  split; [reflexivity|]. split; [rewrite <- Hmatches; reflexivity|].
  split; [rewrite <- Hmatches; reflexivity|].
  apply Hredirect. rewrite <- Hmatches. now left.
Defined.

(** ** The channel list route *)



(** ** Tracking through the API *)

Section TrackingRuns.

Variable config : Config.
Variable uuid_New : nat -> string.
Variable duplicate_key : string.

(** The three ways [TrackEvent] ends, in closed form. *)
Lemma TrackEvent_run (event : TrackedEvent.t) (s : System) :
  let w := world s in
  let w1 := if String.eqb (TrackedEvent.ID event) "" then drawn w else w in
  let stored := completed_event uuid_New w event in
  TrackEvent config uuid_New duplicate_key event s
  = if String.eqb (AttributionEvent.UserID (TrackedEvent.Event event)) ""
       || String.eqb (AttributionEvent.EventType (TrackedEvent.Event event))
            ""
    then Ret (Err "user_id and event_type are required", set_world w1 s)
    else
      match db w with
      | Err err =>
          Ret (Err ("failed to save attribution event: " +:+ err),
               set_world w1 s)
      | Ok _ =>
          if existsb (fun r => String.eqb (TrackedEvent.ID r)
                                 (TrackedEvent.ID stored))
               (attribution_events s)
          then Ret (Err ("failed to save attribution event: "
                         +:+ duplicate_key), set_world w1 s)
          else
            match updateUserAttributionPath config
                    (TrackedEvent.Event stored) w1 with
            | Ret (_, w2) =>
                Ret (Ok tt,
                     {| world := w2;
                        attribution_events := stored :: attribution_events s;
                        conversion_events := conversion_events s;
                        hashes := hashes s;
                        published :=
                          {| topic := "attribution-events";
                             key := AttributionEvent.UserID
                                      (TrackedEvent.Event event);
                             data := attribution_event stored |}
                          :: published s |})
            | Abort e => Abort e
            end
      end.
Proof.
  intros w w1 stored.
  destruct s as [[store table now drawn_ids] events conversions hs msgs].
  cbn [world] in w. subst w w1 stored.
  unfold TrackEvent, completed_event, sy_bind, sy_ret, on_world, set_world,
    drawn, uuid_New_String, time_Now, db_Create_AttributionEvent,
    publishAttributionEvent, kafka_PublishMessage.
  cbn [world attribution_events conversion_events hashes published
         TrackedEvent.ID TrackedEvent.Event AttributionEvent.UserID
         AttributionEvent.EventType AttributionEvent.ChannelID
         AttributionEvent.Timestamp].
  repeat first
    [ reflexivity
    | progress cbn [world attribution_events conversion_events hashes
                      published TrackedEvent.ID TrackedEvent.Event
                      AttributionEvent.UserID AttributionEvent.EventType
                      AttributionEvent.ChannelID AttributionEvent.Timestamp
                      redis db clock uuids]
    | match goal with
      | |- context [match table with _ => _ end] => destruct table
      | |- context [if ?b then _ else _] => destruct b
      | |- context [updateUserAttributionPath ?c ?e ?w] =>
          destruct (updateUserAttributionPath c e w) as [[[] ?]|?]
      end ].
Qed.

(** The ways [TrackConversion] ends, in closed form. *)
Lemma TrackConversion_run (conversion : TrackedConversion.t) (s : System) :
  let w := world s in
  let w1 :=
    if String.eqb (TrackedConversion.ID conversion) "" then drawn w else w in
  let stored := completed_conversion uuid_New w conversion in
  let statsKey :=
    "channel_stats:"
    +:+ ConversionEvent.ChannelID (TrackedConversion.Conversion conversion) in
  TrackConversion uuid_New duplicate_key conversion s
  = match db w with
    | Err err =>
        Ret (Err ("failed to save conversion event: " +:+ err),
             set_world w1 s)
    | Ok _ =>
        if existsb (fun r => String.eqb (TrackedConversion.ID r)
                               (TrackedConversion.ID stored))
             (conversion_events s)
        then Ret (Err ("failed to save conversion event: "
                       +:+ duplicate_key), set_world w1 s)
        else
          Ret (Ok tt,
               {| world := w1;
                  attribution_events := attribution_events s;
                  conversion_events := stored :: conversion_events s;
                  hashes :=
                    match redis w !! statsKey with
                    | Some _ => hashes s
                    | None =>
                        <[statsKey :=
                            {| total_conversions :=
                                 total_conversions
                                   (stats_hash
                                      (ConversionEvent.ChannelID
                                         (TrackedConversion.Conversion
                                            conversion)) s) + 1;
                               total_revenue :=
                                 total_revenue
                                   (stats_hash
                                      (ConversionEvent.ChannelID
                                         (TrackedConversion.Conversion
                                            conversion)) s)
                                 + ConversionEvent.Revenue
                                     (TrackedConversion.Conversion
                                        conversion);
                               total_amount :=
                                 total_amount
                                   (stats_hash
                                      (ConversionEvent.ChannelID
                                         (TrackedConversion.Conversion
                                            conversion)) s)
                                 + ConversionEvent.Amount
                                     (TrackedConversion.Conversion
                                        conversion) |}]> (hashes s)
                    end;
                  published :=
                    {| topic := "attribution-events";
                       key := ConversionEvent.UserID
                                (TrackedConversion.Conversion conversion);
                       data := conversion_event stored |}
                    :: published s |})
    end.
Proof.
  intros w w1 stored statsKey.
  destruct s as [[store table now drawn_ids] events conversions hs msgs].
  cbn [world] in w. subst w w1 stored statsKey.
  unfold TrackConversion, completed_conversion, sy_bind, sy_ret, on_world,
    set_world, drawn, uuid_New_String, time_Now, db_Create_ConversionEvent,
    publishConversionEvent, kafka_PublishMessage, updateChannelStats,
    stats_hash.
  repeat first
    [ reflexivity
    | rewrite getUserAttributionPath_run
    | progress cbn [world attribution_events conversion_events hashes
                      published TrackedConversion.ID
                      TrackedConversion.Conversion
                      TrackedConversion.Timestamp
                      TrackedConversion.AttributionPath
                      redis db clock uuids]
    | progress unfold path_of
    | match goal with
      | |- context [match table with _ => _ end] => destruct table
      | |- context [if ?b then _ else _] => destruct b
      | |- context [match store !! ?k with _ => _ end] =>
          destruct (store !! k)
      | |- context [match hs !! ?k with _ => _ end] => destruct (hs !! k)
      end ].
Qed.

End TrackingRuns.

(** X18. An error of [TrackEvent] leaves no trace: when it returns an
    error, no row has been stored, no attribution path has been changed and
    nothing has been handed to Kafka (only an identifier may have been
    drawn).  The error is "user_id and event_type are required" exactly
    when the user or the event type is empty (this is checked before the
    database is touched), and otherwise the error of the database behind
    "failed to save attribution event: ". *)
Theorem TrackEvent_error_leaves_no_trace
    (config : Config) (uuid_New : nat -> string) (duplicate_key : string)
    (event : TrackedEvent.t) (s s' : System) (err : string) :
  TrackEvent config uuid_New duplicate_key event s = Ret (Err err, s') ->
  attribution_events s' = attribution_events s
  /\ conversion_events s' = conversion_events s
  /\ hashes s' = hashes s
  /\ published s' = published s
  /\ redis (world s') = redis (world s)
  /\ db (world s') = db (world s)
  /\ clock (world s') = clock (world s)
  /\ (AttributionEvent.UserID (TrackedEvent.Event event) = ""
      \/ AttributionEvent.EventType (TrackedEvent.Event event) = ""
      <-> err = "user_id and event_type are required")
  /\ (err = "user_id and event_type are required"
      \/ exists cause : string,
           err = "failed to save attribution event: " +:+ cause).
Proof.
  rewrite TrackEvent_run. intros Hrun.
  assert (Hframe :
            forall w1 : World,
              w1 = (if String.eqb (TrackedEvent.ID event) ""
                    then drawn (world s) else world s) ->
              redis w1 = redis (world s) /\ db w1 = db (world s)
              /\ clock w1 = clock (world s)).
  { intros w1 ->. destruct (String.eqb (TrackedEvent.ID event) "");
      unfold drawn; now cbn. }
  destruct (String.eqb_spec
              (AttributionEvent.UserID (TrackedEvent.Event event)) "")
    as [Huser|Huser];
    destruct (String.eqb_spec
                (AttributionEvent.EventType (TrackedEvent.Event event)) "")
      as [Htype|Htype];
    cbn [orb] in Hrun;
    try (injection Hrun as <- <-; cbn [set_world attribution_events
           conversion_events hashes published world];
         destruct (Hframe _ eq_refl) as (? & ? & ?);
         repeat split; auto; intros; auto).
  destruct (db (world s)) as [table|cause] eqn:Hdb.
  - destruct (existsb _ _).
    + injection Hrun as <- <-.
      cbn [set_world attribution_events conversion_events hashes published
             world].
      destruct (Hframe _ eq_refl) as (? & ? & ?).
      repeat split; auto; try (intros [?|?]; contradiction);
        try discriminate.
      right. now exists duplicate_key.
    + destruct (updateUserAttributionPath _ _ _) as [[[] w2]|e];
        discriminate.
  - injection Hrun as <- <-.
    cbn [set_world attribution_events conversion_events hashes published
           world].
    destruct (Hframe _ eq_refl) as (? & ? & ?).
    repeat split; auto; try (intros [?|?]; contradiction);
      try discriminate.
    right. now exists cause.
Qed.

(** An event without a user on an empty system. *)
Lemma TrackEvent_error_leaves_no_trace_witness :
  exists s' : System,
    TrackEvent setDefaults uuid_seq "duplicate key" exampleAnonymous
      (exampleSystem (exampleWorld []))
    = Ret (Err "user_id and event_type are required", s')
    /\ attribution_events s' = []
    /\ published s' = [].
Proof.
  eexists. split; [vm_compute; reflexivity|].
  match goal with
  | |- attribution_events ?s' = _ /\ _ =>
      destruct (TrackEvent_error_leaves_no_trace setDefaults uuid_seq
                  "duplicate key" exampleAnonymous
                  (exampleSystem (exampleWorld [])) s'
                  "user_id and event_type are required"
                  ltac:(vm_compute; reflexivity))
        as (Hevents & _ & _ & Hpublished & _)
  end.
  split; [exact Hevents|exact Hpublished].
Defined.

Lemma drawn_or_not (b : bool) (w : World) :
  redis (if b then drawn w else w) = redis w
  /\ db (if b then drawn w else w) = db w
  /\ clock (if b then drawn w else w) = clock w.
Proof. now destruct b. Qed.

Lemma existsb_fresh {A : Type} (f : A -> bool) (l : list A) :
  (forall x, In x l -> f x = false) -> existsb f l = false.
Proof.
  intros H. induction l as [|x l IH]; [reflexivity|]. cbn.
  rewrite (H x (or_introl eq_refl)). apply IH.
  intros y Hy. apply H. now right.
Qed.

(** X19. [TrackEvent] on an event with a user and an event type, a working
    database and an identifier no stored event has: it returns without
    error; exactly one row is stored, the event with a fresh identifier in
    place of an empty one and the time of the call in place of the zero
    time; one message for it is handed to Kafka; the touchpoint of the
    stored event goes to the front of the user's attribution path, and no
    other user's path changes.  The daily counters are not touched: the
    statistics [calculateChannelStats] computes are the same before and
    after, so a click tracked this way is not counted as a click. *)
Theorem TrackEvent_stores_and_records
    (config : Config) (uuid_New : nat -> string) (duplicate_key : string)
    (event : TrackedEvent.t) (s : System) (table : list Channel) :
  let userID := AttributionEvent.UserID (TrackedEvent.Event event) in
  let stored := completed_event uuid_New (world s) event in
  userID <> "" ->
  AttributionEvent.EventType (TrackedEvent.Event event) <> "" ->
  db (world s) = Ok table ->
  (forall r : TrackedEvent.t,
     In r (attribution_events s) ->
     TrackedEvent.ID r <> TrackedEvent.ID stored) ->
  exists s' : System,
    TrackEvent config uuid_New duplicate_key event s = Ret (Ok tt, s')
    /\ attribution_events s' = stored :: attribution_events s
    /\ published s'
       = {| topic := "attribution-events"; key := userID;
            data := attribution_event stored |} :: published s
    /\ conversion_events s' = conversion_events s
    /\ hashes s' = hashes s
    /\ (path_key_ok userID (world s) ->
        path_of userID (world s')
        = take 10 (touchpoint (TrackedEvent.Event stored)
                     :: path_of userID (world s)))
    /\ (forall other : string,
          other <> userID ->
          path_of other (world s') = path_of other (world s))
    /\ (forall (time_Format : Z -> string) (channelID : string),
        exists stats : AttributionStats.t,
          calculateChannelStats time_Format channelID (world s)
          = Ret (stats, world s)
          /\ calculateChannelStats time_Format channelID (world s')
             = Ret (stats, world s')).
Proof.
  intros userID stored Huser Htype Hdb Hfresh.
  rewrite TrackEvent_run. fold stored.
  apply String.eqb_neq in Huser, Htype. fold userID.
  rewrite Huser, Htype, Hdb. cbn [orb].
  rewrite existsb_fresh
    by (intros r Hr; apply String.eqb_neq; now apply Hfresh).
  set (w1 := if String.eqb (TrackedEvent.ID event) ""
             then drawn (world s) else world s).
  destruct (drawn_or_not (String.eqb (TrackedEvent.ID event) "") (world s))
    as (Hredis1 & _ & Hclock1).
  fold w1 in Hredis1, Hclock1.
  destruct (updateUserAttributionPath_run config (TrackedEvent.Event stored)
              w1) as (w2 & Hrun & Hok & _ & Hother).
  destruct (updateUserAttributionPath_frame config
              (TrackedEvent.Event stored) w1)
    as (w2' & Hrun' & _ & Hclock2 & _ & Hkeys).
  rewrite Hrun in Hrun'. injection Hrun' as <-.
  rewrite Hrun. eexists. split; [reflexivity|].
  cbn [attribution_events published conversion_events hashes world].
  repeat (split; [reflexivity|]).
  change (AttributionEvent.UserID (TrackedEvent.Event stored)) with userID
    in Hok, Hother, Hkeys.
  assert (Hpaths : forall u : string, path_of u w1 = path_of u (world s))
    by (intros u; unfold path_of; now rewrite Hredis1).
  assert (Hkey_ok : path_key_ok userID (world s) -> path_key_ok userID w1)
    by (unfold path_key_ok; now rewrite Hredis1).
  split; [|split].
  - intros Hpath. destruct (Hok (Hkey_ok Hpath)) as [_ ->].
    now rewrite (Hpaths userID).
  - intros other Hne. rewrite <- (Hpaths other). now apply Hother.
  - intros time_Format channelID.
    apply calculateChannelStats_same; [congruence|].
    intros kind Hkind. rewrite <- Hredis1. apply Hkeys.
    destruct Hkind as [Hk|[Hk|Hk]]; subst kind; discriminate.
Qed.

(** The example click of user-1, tracked on an empty system: stored as
    "uuid-0" at the time of the call, and first in the path. *)
Lemma TrackEvent_stores_and_records_witness :
  exists s' : System,
    TrackEvent setDefaults uuid_seq "duplicate key" exampleTracked
      (exampleSystem (exampleWorld [])) = Ret (Ok tt, s')
    /\ map TrackedEvent.ID (attribution_events s') = ["uuid-0"]
    /\ path_of "user-1" (world s') = ["c75:click:1700000000"].
Proof.
  destruct (TrackEvent_stores_and_records setDefaults uuid_seq
              "duplicate key" exampleTracked
              (exampleSystem (exampleWorld [])) [])
    as (s' & Hrun & Hevents & _ & _ & _ & Hpath & _).
  - discriminate.
  - discriminate.
  - reflexivity.
  - intros r [].
  - exists s'. split; [exact Hrun|]. split.
    + now rewrite Hevents.
    + exact (Hpath I).
Defined.

(** X20. [TrackConversion] checks no field.  With a working database and
    an identifier no stored conversion has, it returns without error and
    stores exactly one row: the conversion with a fresh identifier in place
    of an empty one, the time of the call in place of the zero time, and
    as attribution path the path [getUserAttributionPath] returns for the
    user at the time of the call.  One message is handed to Kafka, and the
    hash of the channel counts one conversion more, with the revenue and
    the amount added, when its key is not taken by a value of another
    type; the hashes of other channels stay.  Redis is otherwise as it
    was: no attribution path changes, and the daily statistics
    [calculateChannelStats] computes do not count the conversion. *)
Theorem TrackConversion_records_path
    (uuid_New : nat -> string) (duplicate_key : string)
    (conversion : TrackedConversion.t) (s : System) (table : list Channel) :
  let userID :=
    ConversionEvent.UserID (TrackedConversion.Conversion conversion) in
  let channelID :=
    ConversionEvent.ChannelID (TrackedConversion.Conversion conversion) in
  let stored := completed_conversion uuid_New (world s) conversion in
  db (world s) = Ok table ->
  (forall r : TrackedConversion.t,
     In r (conversion_events s) ->
     TrackedConversion.ID r <> TrackedConversion.ID stored) ->
  exists s' : System,
    TrackConversion uuid_New duplicate_key conversion s = Ret (Ok tt, s')
    /\ conversion_events s' = stored :: conversion_events s
    /\ getUserAttributionPath userID (world s)
       = Ret (TrackedConversion.AttributionPath stored, world s)
    /\ published s'
       = {| topic := "attribution-events"; key := userID;
            data := conversion_event stored |} :: published s
    /\ attribution_events s' = attribution_events s
    /\ redis (world s') = redis (world s)
    /\ (redis (world s) !! ("channel_stats:" +:+ channelID) = None ->
        stats_hash channelID s'
        = {| total_conversions :=
               total_conversions (stats_hash channelID s) + 1;
             total_revenue :=
               total_revenue (stats_hash channelID s)
               + ConversionEvent.Revenue
                   (TrackedConversion.Conversion conversion);
             total_amount :=
               total_amount (stats_hash channelID s)
               + ConversionEvent.Amount
                   (TrackedConversion.Conversion conversion) |})
    /\ (forall other : string,
          other <> channelID -> stats_hash other s' = stats_hash other s)
    /\ (forall (time_Format : Z -> string) (channel : string),
        exists stats : AttributionStats.t,
          calculateChannelStats time_Format channel (world s)
          = Ret (stats, world s)
          /\ calculateChannelStats time_Format channel (world s')
             = Ret (stats, world s')).
Proof.
  intros userID channelID stored Hdb Hfresh.
  rewrite TrackConversion_run. fold stored userID channelID.
  rewrite Hdb.
  rewrite existsb_fresh
    by (intros r Hr; apply String.eqb_neq; now apply Hfresh).
  destruct (drawn_or_not (String.eqb (TrackedConversion.ID conversion) "")
              (world s)) as (Hredis1 & _ & Hclock1).
  eexists. split; [reflexivity|].
  cbn [attribution_events published conversion_events hashes world].
  split; [reflexivity|]. split; [apply getUserAttributionPath_run|].
  split; [reflexivity|]. split; [reflexivity|].
  split; [exact Hredis1|]. split; [|split].
  - intros Hfree. rewrite Hfree. unfold stats_hash at 1. cbn [hashes].
    now rewrite lookup_insert_eq.
  - intros other Hne. unfold stats_hash at 1. cbn [hashes].
    destruct (redis (world s) !! _); [reflexivity|].
    rewrite lookup_insert_ne; [reflexivity|].
    intros Heq. apply String.app_inj in Heq. congruence.
  - intros time_Format channel.
    apply calculateChannelStats_same; [exact Hclock1|].
    intros kind _. now rewrite Hredis1.
Qed.

(** The example click tracked, then the example conversion of the same
    user: the stored conversion carries the touchpoint of the click, and
    the hash of channel c75 counts one conversion with revenue 50. *)
Lemma TrackConversion_records_path_witness :
  exists s1 s2 : System,
    TrackEvent setDefaults uuid_seq "duplicate key" exampleTracked
      (exampleSystem (exampleWorld [])) = Ret (Ok tt, s1)
    /\ TrackConversion uuid_seq "duplicate key" exampleTrackedConversion s1
       = Ret (Ok tt, s2)
    /\ map TrackedConversion.AttributionPath (conversion_events s2)
       = [["c75:click:1700000000"]]
    /\ total_conversions (stats_hash "c75" s2) = 1%Z
    /\ (total_revenue (stats_hash "c75" s2) == 50)%Q.
Proof.
  set (s1 := match TrackEvent setDefaults uuid_seq "duplicate key"
                     exampleTracked (exampleSystem (exampleWorld [])) with
             | Ret (_, s) => s
             | Abort _ => exampleSystem (exampleWorld [])
             end).
  destruct (TrackConversion_records_path uuid_seq "duplicate key"
              exampleTrackedConversion s1 [] eq_refl)
    as (s2 & Hrun & Hstored & _ & _ & _ & _ & Hhash & _);
    [intros r []|].
  exists s1, s2. split; [vm_compute; reflexivity|].
  split; [exact Hrun|]. split; [now rewrite Hstored|].
  change "c75" with (ConversionEvent.ChannelID
                       (TrackedConversion.Conversion
                          exampleTrackedConversion)).
  rewrite (Hhash eq_refl). split; reflexivity.
Defined.

(** ** The attribution route and the matching queue *)

(** X21. The attribution route.  A body that does not bind is answered
    with status 400 and nothing is tracked.  The answer is 200 exactly when
    [TrackEvent] returns no error; every error of [TrackEvent] is answered
    with status 500 and the error as details.  In particular an event
    without a user or without an event type is answered 500, not 400, with
    the details "user_id and event_type are required", and no row is
    stored for it. *)
Theorem attribution_route :
  forall (config : Config) (uuid_New : nat -> string)
         (duplicate_key : string),
    (forall (err : string) (s : System),
       handlers_TrackAttribution config uuid_New duplicate_key (Err err) s
       = Ret ({| status := 400;
                 body := ErrorBody "Invalid request body" (Some err) |}, s))
    /\ (forall (event : TrackedEvent.t) (s : System),
        exists (tracked : result unit) (s' : System),
          TrackEvent config uuid_New duplicate_key event s
          = Ret (tracked, s')
          /\ handlers_TrackAttribution config uuid_New duplicate_key
               (Ok event) s
             = Ret (match tracked with
                    | Ok _ =>
                        {| status := 200;
                           body :=
                             MessageBody
                               "Attribution event tracked successfully" |}
                    | Err err =>
                        {| status := 500;
                           body :=
                             ErrorBody "Failed to track attribution event"
                               (Some err) |}
                    end, s'))
    /\ (forall (event : TrackedEvent.t) (s : System),
          AttributionEvent.UserID (TrackedEvent.Event event) = ""
          \/ AttributionEvent.EventType (TrackedEvent.Event event) = "" ->
          exists s' : System,
            handlers_TrackAttribution config uuid_New duplicate_key
              (Ok event) s
            = Ret ({| status := 500;
                      body :=
                        ErrorBody "Failed to track attribution event"
                          (Some "user_id and event_type are required") |},
                   s')
            /\ attribution_events s' = attribution_events s
            /\ published s' = published s).
Proof.
  intros config uuid_New duplicate_key.
  split; [reflexivity|]. split.
  - intros event s. unfold handlers_TrackAttribution, sy_bind.
    rewrite TrackEvent_run.
    destruct (_ || _); [eexists _, _; split; reflexivity|].
    destruct (db (world s)); [|eexists _, _; split; reflexivity].
    destruct (existsb _ _); [eexists _, _; split; reflexivity|].
    destruct (updateUserAttributionPath_run config
                (TrackedEvent.Event
                   (completed_event uuid_New (world s) event))
                (if String.eqb (TrackedEvent.ID event) ""
                 then drawn (world s) else world s))
      as (w2 & -> & _).
    eexists _, _. split; reflexivity.
  - intros event s Hinvalid.
    unfold handlers_TrackAttribution, sy_bind. rewrite TrackEvent_run.
    replace (String.eqb (AttributionEvent.UserID (TrackedEvent.Event event))
               ""
             || String.eqb
                  (AttributionEvent.EventType (TrackedEvent.Event event)) "")
      with true.
    + eexists. split; [reflexivity|]. now split.
    + symmetry. apply orb_true_iff.
      destruct Hinvalid as [H|H]; [left|right]; now apply String.eqb_eq.
Qed.

(** The event without a user through the route. *)
Lemma attribution_route_witness :
  exists s' : System,
    handlers_TrackAttribution setDefaults uuid_seq "duplicate key"
      (Ok exampleAnonymous) (exampleSystem (exampleWorld []))
    = Ret ({| status := 500;
              body :=
                ErrorBody "Failed to track attribution event"
                  (Some "user_id and event_type are required") |}, s')
    /\ attribution_events s' = []
    /\ published s' = [].
Proof.
  exact (proj2 (proj2 (attribution_route setDefaults uuid_seq
                         "duplicate key"))
           exampleAnonymous (exampleSystem (exampleWorld []))
           (or_introl eq_refl)).
Defined.

Lemma MatchChannels_returns (config : Config) (uuid_New : nat -> string)
    (sort_Slice : forall A : Type, (A -> A -> bool) -> list A -> list A)
    (request : MatchingRequest) (w : World) :
  (0 <= MaxMatchingResults config)%Z ->
  exists (res : result (list MatchingResult)) (w' : World),
    MatchChannels config uuid_New sort_Slice request w = Ret (res, w').
Proof.
  intros Hmax.
  destruct (getEligibleChannels_frame (AssetID request) (UserRegion request)
              w) as (got & w1 & Hgot & _).
  destruct got as [[|c cs]|err].
  - eexists _, _.
    exact (MatchChannels_no_channel config uuid_New sort_Slice request _ _
             Hgot).
  - destruct (scoreAll_run config uuid_New (c :: cs) request w1)
      as (scored & Hscored & _).
    eexists _, _.
    exact (MatchChannels_run config uuid_New sort_Slice request w w1 _
             (c :: cs) scored Hgot ltac:(discriminate) Hscored Hmax).
  - eexists _, _.
    exact (MatchChannels_store_error config uuid_New sort_Slice request _ _
             _ Hgot).
Qed.

Lemma redis_BLPop_run (w : World) :
  queue_key_ok w ->
  match matching_queue w with
  | [] => redis_BLPop "matching:queue" w = Ret (Err "redis: nil", w)
          /\ redis w !! "matching:queue" = None
  | v :: l =>
      exists w1,
        redis_BLPop "matching:queue" w = Ret (Ok ["matching:queue"; v], w1)
        /\ matching_queue w1 = l /\ queue_key_ok w1
        /\ db w1 = db w /\ clock w1 = clock w /\ uuids w1 = uuids w
  end.
Proof.
  unfold queue_key_ok, matching_queue, redis_BLPop.
  destruct (redis w !! "matching:queue") as [[cs|r|n|x|[|v [|v' l]]]|];
    intros Hok; try contradiction.
  - eexists. split; [reflexivity|]. cbn [set_redis redis db clock uuids].
    rewrite lookup_delete_eq. now repeat split.
  - eexists. split; [reflexivity|]. cbn [set_redis redis db clock uuids].
    rewrite lookup_insert_eq. now repeat split.
  - now split.
Qed.

Section MatchingQueue.

Variable config : Config.
Variable uuid_New : nat -> string.
Variable sort_Slice : forall A : Type, (A -> A -> bool) -> list A -> list A.
Variable json_Unmarshal : string -> option MatchingRequest.

Hypothesis count_not_negative : (0 <= MaxMatchingResults config)%Z.

Lemma processMatchingQueue_drains (n : nat) :
  forall s : System,
    length (matching_queue (world s)) = n ->
    queue_key_ok (world s) ->
    exists (s' : System) (new : list KafkaMessage),
      (forall fuel : nat,
         (n < fuel)%nat ->
         processMatchingQueue config uuid_New sort_Slice json_Unmarshal fuel s
         = Ret (true, s'))
      /\ redis (world s') !! "matching:queue" = None
      /\ published s' = new ++ published s
      /\ (length new <= n)%nat
      /\ Forall is_matching_message new
      /\ attribution_events s' = attribution_events s
      /\ conversion_events s' = conversion_events s
      /\ hashes s' = hashes s
      /\ db (world s') = db (world s).
Proof.
  induction n as [|n IH]; intros s Hlen Hok;
    pose proof (redis_BLPop_run (world s) Hok) as Hpop;
    destruct (matching_queue (world s)) as [|v l]; try discriminate.
  - destruct Hpop as [Hpop Hnone].
    exists s, []. split.
    { intros [|fuel] Hfuel; [lia|].
      cbn [processMatchingQueue]. unfold sy_bind, on_world.
      rewrite Hpop. now destruct s. }
    repeat split; auto.
  - destruct Hpop as (w1 & Hpop & Hqueue & Hok1 & Hdb1 & _).
    injection Hlen as Hlen.
    set (s1 := set_world w1 s).
    destruct (json_Unmarshal v) as [request|] eqn:Hjson.
    2: { destruct (IH s1) as (s' & new & Hrun & Hrest);
           [subst s1; cbn [set_world world]; now rewrite Hqueue
           |exact Hok1|].
         exists s', new. split.
         { intros [|fuel] Hfuel; [lia|].
           cbn [processMatchingQueue]. unfold sy_bind, on_world.
           rewrite Hpop, Hjson. apply Hrun. lia. }
         destruct Hrest as (Hnone & Hpub & Hnew & Hall & Hrest).
         split; [exact Hnone|]. split; [exact Hpub|].
         split; [lia|]. split; [exact Hall|].
         subst s1.
         cbn [set_world world attribution_events conversion_events hashes]
           in Hrest.
         destruct Hrest as (? & ? & ? & ?). repeat split; congruence. }
    destruct (MatchChannels_returns config uuid_New sort_Slice request w1
                count_not_negative) as (res & w2 & Hmatch).
    destruct (MatchChannels_frame config uuid_New sort_Slice request w1 w2
                res Hmatch) as (Hdb2 & _ & _ & Hkeys).
    assert (Hqueue2 : redis w2 !! "matching:queue"
                      = redis w1 !! "matching:queue").
    { apply Hkeys; [unfold eligibility_key|intros i]; discriminate. }
    assert (Hq2 : matching_queue w2 = l /\ queue_key_ok w2).
    { unfold matching_queue, queue_key_ok in *. now rewrite Hqueue2. }
    destruct Hq2 as [Hq2 Hok2].
    destruct res as [matches|err].
    + set (message :=
             {| topic := "matching-events"; key := UserID request;
                data := matching_completed request matches
                          (Z.of_nat (length matches)) (clock w2) |}).
      set (s2 := {| world := w2;
                    attribution_events := attribution_events s;
                    conversion_events := conversion_events s;
                    hashes := hashes s;
                    published := message :: published s |}).
      destruct (IH s2) as (s' & new & Hrun & Hrest);
        [subst s2; cbn [world]; now rewrite Hq2|exact Hok2|].
      exists s', (new ++ [message]). split.
      { intros [|fuel] Hfuel; [lia|].
        cbn [processMatchingQueue]. unfold sy_bind at 1, on_world at 1.
        rewrite Hpop, Hjson.
        unfold sy_bind at 1, on_world at 1. cbn [world]. rewrite Hmatch.
        unfold sy_bind at 1, publishMatchingResult, sy_bind at 1,
          on_world, time_Now, kafka_PublishMessage.
        cbn [world attribution_events conversion_events hashes published].
        apply Hrun. lia. }
      destruct Hrest as (Hnone & Hpub & Hnew & Hall & Hrest).
      split; [exact Hnone|]. split.
      { rewrite Hpub. subst s2. cbn [published].
        now rewrite <- app_assoc. }
      split; [rewrite length_app; cbn; lia|]. split.
      { apply Forall_app. split; [exact Hall|].
        apply Forall_cons. split; [|constructor].
        split; [reflexivity|]. now exists request, matches, (clock w2). }
      subst s2.
      cbn [world attribution_events conversion_events hashes] in Hrest.
      destruct Hrest as (? & ? & ? & ?). repeat split; congruence.
    + set (s2 := set_world w2 s).
      destruct (IH s2) as (s' & new & Hrun & Hrest);
        [subst s2; cbn [set_world world]; now rewrite Hq2|exact Hok2|].
      exists s', new. split.
      { intros [|fuel] Hfuel; [lia|].
        cbn [processMatchingQueue]. unfold sy_bind at 1, on_world at 1.
        rewrite Hpop, Hjson.
        unfold sy_bind at 1, on_world at 1. cbn [world]. rewrite Hmatch.
        apply Hrun. lia. }
      destruct Hrest as (Hnone & Hpub & Hnew & Hall & Hrest).
      split; [exact Hnone|]. split; [exact Hpub|].
      split; [lia|]. split; [exact Hall|].
      subst s2.
      cbn [set_world world attribution_events conversion_events hashes]
        in Hrest.
      destruct Hrest as (? & ? & ? & ?). repeat split; congruence.
Qed.

End MatchingQueue.

(** X22. [processMatchingQueue] drains the queue.  With a max-results
    count that is not negative and a queue key that is free or holds a
    list, the loop ends after at most one turn per waiting message and one
    more, and any further fuel changes nothing; afterwards the queue is
    gone: every message has been taken exactly once, also those that do not
    decode and those whose request finds no channel, which are dropped.  At
    most one message per queue entry has been handed to Kafka, each on the
    topic "matching-events" under the user of its request with a count
    that is the number of its results; the event tables, the hashes and
    the channel table are as before.  When the key holds a value of
    another type the loop ends at once and changes nothing. *)
Theorem matching_queue_drained
    (config : Config) (uuid_New : nat -> string)
    (sort_Slice : forall A : Type, (A -> A -> bool) -> list A -> list A)
    (json_Unmarshal : string -> option MatchingRequest) (s : System) :
  (0 <= MaxMatchingResults config)%Z ->
  (queue_key_ok (world s) ->
   exists (s' : System) (new : list KafkaMessage),
     (forall fuel : nat,
        (length (matching_queue (world s)) < fuel)%nat ->
        processMatchingQueue config uuid_New sort_Slice json_Unmarshal fuel s
        = Ret (true, s'))
     /\ redis (world s') !! "matching:queue" = None
     /\ published s' = new ++ published s
     /\ (length new <= length (matching_queue (world s)))%nat
     /\ Forall is_matching_message new
     /\ attribution_events s' = attribution_events s
     /\ conversion_events s' = conversion_events s
     /\ hashes s' = hashes s
     /\ db (world s') = db (world s))
  /\ (~ queue_key_ok (world s) ->
      forall fuel : nat,
        processMatchingQueue config uuid_New sort_Slice json_Unmarshal
          (S fuel) s
        = Ret (true, s)).
Proof.
  intros Hmax. split.
  - intros Hok.
    exact (processMatchingQueue_drains config uuid_New sort_Slice
             json_Unmarshal Hmax _ s eq_refl Hok).
  - intros Hbad fuel. cbn [processMatchingQueue].
    unfold sy_bind, on_world, redis_BLPop. unfold queue_key_ok in Hbad.
    destruct (redis (world s) !! "matching:queue")
      as [[cs|r|n|x|[|v l]]|];
      try (exfalso; apply Hbad; exact I); now destruct s.
Qed.

(** Three queued messages of which the second does not decode: the queue
    is gone and two results are published. *)
Lemma matching_queue_drained_witness :
  exists s' : System,
    processMatchingQueue setDefaults uuid_seq insertionSort unmarshal_example
      4 (exampleSystem queueWorld) = Ret (true, s')
    /\ redis (world s') !! "matching:queue" = None
    /\ length (published s') = 2%nat.
Proof.
  destruct (proj1 (matching_queue_drained setDefaults uuid_seq insertionSort
                     unmarshal_example (exampleSystem queueWorld)
                     ltac:(discriminate)) I)
    as (s' & new & Hrun & Hnone & _).
  specialize (Hrun 4%nat ltac:(vm_compute; lia)).
  exists s'. split; [exact Hrun|]. split; [exact Hnone|].
  vm_compute in Hrun. now injection Hrun as <-.
Defined.

(** ** Reading the conversions back *)

(** X23. A tracked conversion is found again.  After [TrackConversion] has
    returned without error, [GetConversions] for a period that includes the
    time of the stored conversion, and for its channel or for no channel,
    returns a list that contains the stored conversion with its
    attribution path; and every conversion [GetConversions] returns lies
    in the period asked for and, when a channel is given, belongs to that
    channel. *)
Theorem tracked_conversion_is_found
    (uuid_New : nat -> string) (duplicate_key : string)
    (conversion : TrackedConversion.t) (s s' : System)
    (channelID : string) (startDate endDate : Z) :
  let stored := completed_conversion uuid_New (world s) conversion in
  TrackConversion uuid_New duplicate_key conversion s = Ret (Ok tt, s') ->
  (startDate <= TrackedConversion.Timestamp stored <= endDate)%Z ->
  channelID = ""
  \/ channelID
     = ConversionEvent.ChannelID (TrackedConversion.Conversion conversion) ->
  exists found : list TrackedConversion.t,
    GetConversions channelID startDate endDate s' = Ret (Ok found, s')
    /\ In stored found
    /\ forall c : TrackedConversion.t,
         In c found ->
         (startDate <= TrackedConversion.Timestamp c <= endDate)%Z
         /\ (channelID <> "" ->
             ConversionEvent.ChannelID (TrackedConversion.Conversion c)
             = channelID).
Proof.
  intros stored Hrun Hperiod Hchannel.
  rewrite TrackConversion_run in Hrun. fold stored in Hrun.
  destruct (db (world s)) as [table|err] eqn:Hdb; [|discriminate].
  destruct (existsb _ _); [discriminate|].
  injection Hrun as <-.
  destruct (drawn_or_not (String.eqb (TrackedConversion.ID conversion) "")
              (world s)) as (_ & Hdb1 & _).
  unfold GetConversions. cbn [world conversion_events].
  rewrite Hdb1, Hdb. eexists. split; [reflexivity|]. split.
  - cbn [List.filter].
    replace ((startDate <=? TrackedConversion.Timestamp stored)%Z
             && (TrackedConversion.Timestamp stored <=? endDate)%Z
             && (String.eqb channelID ""
                 || String.eqb
                      (ConversionEvent.ChannelID
                         (TrackedConversion.Conversion stored)) channelID))
      with true; [now left|].
    symmetry. apply andb_true_iff. split.
    + apply andb_true_iff. split; apply Z.leb_le; lia.
    + apply orb_true_iff.
      destruct Hchannel as [->| ->]; [left|right]; now apply String.eqb_eq.
  - intros c Hc. apply filter_In in Hc as [_ Hc].
    apply andb_true_iff in Hc as [Hc Hch].
    apply andb_true_iff in Hc as [Hlo Hhi].
    apply Z.leb_le in Hlo, Hhi. split; [lia|].
    intros Hne. apply orb_true_iff in Hch as [Hch|Hch].
    + now apply String.eqb_eq in Hch.
    + now apply String.eqb_eq in Hch.
Qed.

(** The example conversion, tracked at second 1700000000 on an empty
    system, is found in the period from 1600000000 to 1800000000 for
    channel c75. *)
Lemma tracked_conversion_is_found_witness :
  exists (s' : System) (found : list TrackedConversion.t),
    TrackConversion uuid_seq "duplicate key" exampleTrackedConversion
      (exampleSystem (exampleWorld [])) = Ret (Ok tt, s')
    /\ GetConversions "c75" 1600000000 1800000000 s' = Ret (Ok found, s')
    /\ map TrackedConversion.ID found = ["uuid-0"].
Proof.
  set (s' := match TrackConversion uuid_seq "duplicate key"
                     exampleTrackedConversion
                     (exampleSystem (exampleWorld [])) with
             | Ret (_, s) => s
             | Abort _ => exampleSystem (exampleWorld [])
             end).
  destruct (tracked_conversion_is_found uuid_seq "duplicate key"
              exampleTrackedConversion (exampleSystem (exampleWorld [])) s'
              "c75" 1600000000 1800000000)
    as (found & Hfound & _).
  - vm_compute; reflexivity.
  - vm_compute. split; discriminate.
  - now right.
  - exists s', found. split; [vm_compute; reflexivity|].
    split; [exact Hfound|].
    vm_compute in Hfound. now injection Hfound as <-.
Defined.

(** ** The channels [MatchChannels] returns *)

Lemma scored_channels (config : Config) (uuid_New : nat -> string)
    (channels : list Channel) (request : MatchingRequest) (w w' : World)
    (scored : list MatchingResult) :
  scoreAll config uuid_New channels request w = Ret (scored, w') ->
  map Channel_ scored = channels
  /\ map ChannelID scored = map ID channels.
Proof.
  intros Hscored.
  destruct (scoreAll_run config uuid_New channels request w)
    as (rs & Hrs & Hlen & Hall).
  rewrite Hrs in Hscored. injection Hscored as -> _.
  split.
  - apply list_eq. intros i. rewrite list_lookup_fmap.
    destruct (channels !! i) as [channel|] eqn:Hi.
    + destruct (Hall i channel Hi) as (r & -> & Hmatch).
      destruct Hmatch as (_ & Hch & _). cbn. now rewrite Hch.
    + apply lookup_ge_None in Hi. rewrite <- Hlen in Hi.
      apply lookup_ge_None in Hi. now rewrite Hi.
  - apply list_eq. intros i. rewrite !list_lookup_fmap.
    destruct (channels !! i) as [channel|] eqn:Hi.
    + destruct (Hall i channel Hi) as (r & -> & Hmatch).
      destruct Hmatch as (Hid & _). cbn. now rewrite Hid.
    + apply lookup_ge_None in Hi. rewrite <- Hlen in Hi.
      apply lookup_ge_None in Hi. now rewrite Hi.
Qed.

(** X24. Every result [MatchChannels] returns is for one of the channels
    that its channel step, [getEligibleChannels], handed to the scorer for
    the request, whether they came from the cache or from the channel
    query; the channel identifier of the result is that of its channel.
    There are at most max-results results and at most as many as there
    were channels, and when the channels have different identifiers no
    channel is returned twice.  (Which rows the channel query selects is
    the database's part and not stated here.) *)
Theorem MatchChannels_returns_fetched_channels
    (config : Config) (uuid_New : nat -> string)
    (sort_Slice : forall A : Type, (A -> A -> bool) -> list A -> list A)
    (request : MatchingRequest) (w w' : World)
    (results : list MatchingResult) :
  sort_Slice_contract sort_Slice ->
  MatchChannels config uuid_New sort_Slice request w = Ret (Ok results, w') ->
  exists (channels : list Channel) (w1 : World),
    getEligibleChannels (AssetID request) (UserRegion request) w
    = Ret (Ok channels, w1)
    /\ (forall r : MatchingResult,
          In r results ->
          In (Channel_ r) channels /\ ChannelID r = ID (Channel_ r))
    /\ (Z.of_nat (length results) <= MaxMatchingResults config)%Z
    /\ (length results <= length channels)%nat
    /\ (NoDup (map ID channels) -> NoDup (map ChannelID results)).
Proof.
  intros contract Hrun.
  destruct (MatchChannels_Ok_inv _ _ _ _ _ _ _ Hrun)
    as (channels & w1 & scored & Hgot & _ & Hscored & _ & Hmax & Hresults).
  exists channels, w1. split; [exact Hgot|].
  destruct (scored_channels _ _ _ _ _ _ _ Hscored) as [Hchannels Hids].
  destruct (contract _ byMatchScore (List.filter (passes config) scored)
              byMatchScore_strict_weak_order) as [Hperm _].
  assert (Hin : forall r, In r results -> In r scored).
  { intros r Hr. rewrite Hresults in Hr. apply In_take in Hr.
    apply (Permutation_in _ (Permutation_sym Hperm)) in Hr.
    now apply filter_In in Hr as [Hr _]. }
  assert (Hlen : (length results <= length scored)%nat).
  { rewrite Hresults, length_take, <- (Permutation_length Hperm).
    pose proof (sublist_length _ _ (sublist_List_filter (passes config)
                                      scored)).
    lia. }
  split; [|split; [|split]].
  - intros r Hr. apply Hin in Hr.
    assert (Hc : In (Channel_ r) (map Channel_ scored)) by now apply in_map.
    rewrite Hchannels in Hc. split; [exact Hc|].
    destruct (In_scored_match_of _ _ _ _ _ _ _ _ Hscored Hr)
      as (i & channel & _ & _ & Hmatch).
    destruct Hmatch as (Hid & Hch & _). now rewrite Hid, Hch.
  - rewrite Hresults, length_take. lia.
  - rewrite <- Hchannels, length_map. exact Hlen.
  - intros Hnodup.
    assert (Hscored_ids : NoDup (map ChannelID scored))
      by now rewrite Hids.
    assert (Hsub : sublist (take (Z.to_nat (MaxMatchingResults config))
                              (sort_Slice _ byMatchScore
                                 (List.filter (passes config) scored)))
                     (sort_Slice _ byMatchScore
                        (List.filter (passes config) scored)))
      by apply sublist_take.
    rewrite Hresults.
    eapply sublist_NoDup; [|apply fmap_sublist, Hsub].
    rewrite <- Hperm.
    eapply sublist_NoDup; [exact Hscored_ids|].
    apply fmap_sublist, sublist_List_filter.
Qed.

(** Scenario C: the two results are for channels the channel step
    returned. *)
Lemma MatchChannels_returns_fetched_channels_witness :
  exists (results : list MatchingResult) (w' : World),
    MatchChannels setDefaults uuid_seq insertionSort exampleRequest
      (exampleWorld [channel75; channel55; channel90])
    = Ret (Ok results, w')
    /\ map ChannelID results = ["c90"; "c75"]
    /\ forall r : MatchingResult,
         In r results ->
         In (Channel_ r) [channel75; channel55; channel90].
Proof.
  eexists _, _. split; [vm_compute; reflexivity|].
  split; [reflexivity|].
  intros r Hr.
  destruct (MatchChannels_returns_fetched_channels
              setDefaults uuid_seq insertionSort exampleRequest
              (exampleWorld [channel75; channel55; channel90])
              _ _ insertionSort_contract ltac:(vm_compute; reflexivity))
    as (channels & w1 & Hgot & Hall & _).
  vm_compute in Hgot. injection Hgot as <- _.
  exact (proj1 (Hall r Hr)).
Defined.

(** ** The event table and the attribution paths *)

Lemma take_cons_take {A : Type} (n : nat) (x : A) (l : list A) :
  take (S n) (x :: take (S n) l) = take (S n) (x :: l).
Proof.
  cbn. f_equal. rewrite take_take. f_equal. lia.
Qed.

Section PathsAndTable.

Variable config : Config.
Variable uuid_New : nat -> string.
Variable duplicate_key : string.

Lemma TrackEvent_keeps_paths_match_table (event : TrackedEvent.t)
    (s : System) :
  paths_match_table s ->
  exists (res : result unit) (s' : System),
    TrackEvent config uuid_New duplicate_key event s = Ret (res, s')
    /\ paths_match_table s'.
Proof.
  intros Hinv. rewrite TrackEvent_run.
  set (w1 := if String.eqb (TrackedEvent.ID event) ""
             then drawn (world s) else world s).
  destruct (drawn_or_not (String.eqb (TrackedEvent.ID event) "") (world s))
    as (Hredis1 & _ & _).
  fold w1 in Hredis1.
  assert (Hinv1 : paths_match_table (set_world w1 s)).
  { intros u. destruct (Hinv u) as [Hok Hpath].
    unfold path_key_ok, path_of, stored_path in *.
    cbn [set_world world attribution_events]. now rewrite Hredis1. }
  destruct (_ || _); [now eexists _, _|].
  destruct (db (world s)); [|now eexists _, _].
  destruct (existsb _ _); [now eexists _, _|].
  set (stored := completed_event uuid_New (world s) event).
  destruct (updateUserAttributionPath_run config (TrackedEvent.Event stored)
              w1) as (w2 & Hrun & Hok & _ & _).
  destruct (updateUserAttributionPath_frame config
              (TrackedEvent.Event stored) w1)
    as (w2' & Hrun' & _ & _ & _ & Hkeys).
  rewrite Hrun in Hrun'. injection Hrun' as <-.
  rewrite Hrun. eexists _, _. split; [reflexivity|].
  intros u. destruct (Hinv1 u) as [Hok1 Hpath1].
  cbn [set_world world attribution_events] in Hok1, Hpath1.
  unfold stored_path in *. cbn [world attribution_events map].
  unfold events_of in *. cbn [List.filter].
  destruct (String.eqb_spec
              (AttributionEvent.UserID (TrackedEvent.Event stored)) u)
    as [Hu|Hu].
  - rewrite Hu in Hok. destruct (Hok Hok1) as [Hok2 Hpath2].
    split; [exact Hok2|].
    rewrite Hpath2, Hpath1. cbn [map]. apply take_cons_take.
  - destruct (path_key_ok_same u w1 w2) as [Hok2 Hpath2].
    { apply Hkeys. intros H. apply path_key_inj in H. congruence. }
    split; [now apply Hok2|]. now rewrite Hpath2.
Qed.

Lemma TrackConversion_keeps_paths_match_table
    (conversion : TrackedConversion.t) (s : System) :
  paths_match_table s ->
  exists (res : result unit) (s' : System),
    TrackConversion uuid_New duplicate_key conversion s = Ret (res, s')
    /\ paths_match_table s'
    /\ (res = Ok tt ->
        exists stored : TrackedConversion.t,
          conversion_events s' = stored :: conversion_events s
          /\ TrackedConversion.AttributionPath stored
             = stored_path
                 (ConversionEvent.UserID
                    (TrackedConversion.Conversion conversion)) s).
Proof.
  intros Hinv. rewrite TrackConversion_run.
  set (w1 := if String.eqb (TrackedConversion.ID conversion) ""
             then drawn (world s) else world s).
  destruct (drawn_or_not (String.eqb (TrackedConversion.ID conversion) "")
              (world s)) as (Hredis1 & _ & _).
  fold w1 in Hredis1.
  assert (Hinv1 : forall s' : System,
             world s' = w1 ->
             attribution_events s' = attribution_events s ->
             paths_match_table s').
  { intros s' Hw Hevents u. destruct (Hinv u) as [Hok Hpath].
    unfold path_key_ok, path_of, stored_path in *.
    now rewrite Hw, Hevents, Hredis1. }
  destruct (db (world s)).
  2: { eexists _, _. split; [reflexivity|].
       split; [now apply Hinv1|discriminate]. }
  destruct (existsb _ _).
  { eexists _, _. split; [reflexivity|].
    split; [now apply Hinv1|discriminate]. }
  eexists _, _. split; [reflexivity|]. split; [now apply Hinv1|].
  intros _. eexists. split; [reflexivity|].
  cbn [completed_conversion TrackedConversion.AttributionPath].
  apply (proj2 (Hinv _)).
Qed.

End PathsAndTable.

(** X25. The attribution paths and the event table stay in step.  When
    for every user the path Redis holds is the touchpoints of the user's
    stored events, latest first, cut to ten, then this is so again after
    any sequence of [TrackEvent] and [TrackConversion] calls, whatever each
    of them returns; the sequence always runs to its end.  In such a
    system the attribution path stored with a conversion that
    [TrackConversion] accepts is the touchpoints of the user's stored
    events, latest first, cut to ten. *)
Theorem tracking_keeps_paths_and_table_in_step
    (config : Config) (uuid_New : nat -> string) (duplicate_key : string)
    (calls : list TrackingCall) (s : System) :
  paths_match_table s ->
  (exists s' : System,
     trackingCalls config uuid_New duplicate_key calls s = Ret (tt, s')
     /\ paths_match_table s')
  /\ (forall (conversion : TrackedConversion.t) (s' : System),
        TrackConversion uuid_New duplicate_key conversion s
        = Ret (Ok tt, s') ->
        exists stored : TrackedConversion.t,
          conversion_events s' = stored :: conversion_events s
          /\ TrackedConversion.AttributionPath stored
             = stored_path
                 (ConversionEvent.UserID
                    (TrackedConversion.Conversion conversion)) s).
Proof.
  intros Hinv. split.
  - revert s Hinv. induction calls as [|c calls IH]; intros s Hinv.
    + now exists s.
    + assert (Hstep : exists (res : result unit) (s1 : System),
                 trackingCall config uuid_New duplicate_key c s
                 = Ret (res, s1)
                 /\ paths_match_table s1).
      { destruct c as [event|conversion]; cbn [trackingCall].
        - now apply TrackEvent_keeps_paths_match_table.
        - destruct (TrackConversion_keeps_paths_match_table uuid_New
                      duplicate_key conversion s Hinv)
            as (res & s1 & Hrun & Hinv1 & _).
          now exists res, s1. }
      destruct Hstep as (res & s1 & Hrun1 & Hinv1).
      destruct (IH s1 Hinv1) as (s' & Hrun & Hinv').
      exists s'. split; [|exact Hinv'].
      cbn [trackingCalls]. unfold sy_bind. now rewrite Hrun1.
  - intros conversion s' Hrun.
    destruct (TrackConversion_keeps_paths_match_table uuid_New duplicate_key
                conversion s Hinv) as (res & s1 & Hrun1 & _ & Hstored).
    rewrite Hrun in Hrun1. injection Hrun1 as <- <-.
    now apply Hstored.
Qed.

(** The example calls on an empty system: afterwards the path of user-1
    is the redirect and the click, as the table has them. *)
Lemma tracking_keeps_paths_and_table_in_step_witness :
  exists s' : System,
    trackingCalls setDefaults uuid_seq "duplicate key" exampleCalls
      (exampleSystem (exampleWorld [])) = Ret (tt, s')
    /\ paths_match_table s'
    /\ path_of "user-1" (world s')
       = ["c90:redirect:1700000009"; "c75:click:1700000000"].
Proof.
  destruct (proj1 (tracking_keeps_paths_and_table_in_step setDefaults
                     uuid_seq "duplicate key" exampleCalls
                     (exampleSystem (exampleWorld []))
                     ltac:(intros u; split; [exact I|reflexivity])))
    as (s' & Hrun & Hinv).
  exists s'. split; [exact Hrun|]. split; [exact Hinv|].
  vm_compute in Hrun. now injection Hrun as <-.
Defined.
